(** * VanillaJS Router: a shallow embedding of [src/router.js]

    The router is a hash-based navigation controller.  This development
    embeds its parameter codec, its route builder and its navigation state
    machine, and states the properties of the specification over them.

    Conventions of the embedding:
    - a JavaScript string is a [string] of UTF-8 bytes;
    - a plain object used as a dictionary is a [gmap] keyed by its property
      names, a [Map] likewise;
    - route objects live in a heap of their own and are named by location,
      because the router hands out both references and spread copies;
    - the location is its hash, its search string and the address before
      them; what the router writes to it goes through the URL parser, which
      removes tabs and newlines and percent-encodes the fragment;
    - a function that can throw returns an [option], [None] being the
      throw, until it is called from the router's own code;
    - the four callback registries hold records pairing an identity (the
      function reference, as [indexOf] compares it) with the behaviour of the
      callback; callbacks do not call back into the router;
    - asynchronous code is run to its next settlement: a navigation cycle is
      one step of the machine, and a promise that never settles is the
      result [Hang]. *)

From Stdlib Require Import ZArith QArith Ascii String DecimalString DecimalFacts.
From stdpp Require Import gmap strings list fin_maps.

Local Open Scope string_scope.

(* ===================================================================== *)
(** * String primitives of the host language                              *)
(* ===================================================================== *)

Module JsString.

Definition code (a : ascii) : N := N_of_ascii a.

(** [s.startsWith(p)] *)
Fixpoint startsWith (s p : string) {struct p} : bool :=
  match p with
  | EmptyString => true
  | String b p' =>
      match s with
      | EmptyString => false
      | String a s' => Ascii.eqb a b && startsWith s' p'
      end
  end.

(** [s.slice(1)] *)
Definition slice1 (s : string) : string :=
  match s with
  | EmptyString => EmptyString
  | String _ r => r
  end.

(** [s.replace(/^c+/, '')] for a single character [c]. *)
Fixpoint strip_leading (c : ascii) (s : string) : string :=
  match s with
  | EmptyString => EmptyString
  | String a r => if Ascii.eqb a c then strip_leading c r else s
  end.

(** [s.split(c)] for a one-character separator: never the empty list. *)
Fixpoint split (c : ascii) (s : string) : list string :=
  match s with
  | EmptyString => [EmptyString]
  | String a r =>
      if Ascii.eqb a c then EmptyString :: split c r
      else match split c r with
           | h :: t => String a h :: t
           | [] => [String a EmptyString]
           end
  end.

(** Does [c] occur in [s]? *)
Fixpoint contains (c : ascii) (s : string) : bool :=
  match s with
  | EmptyString => false
  | String a r => Ascii.eqb a c || contains c r
  end.

(** The text before, and after, the first occurrence of [c]. *)
Fixpoint before_first (c : ascii) (s : string) : string :=
  match s with
  | EmptyString => EmptyString
  | String a r => if Ascii.eqb a c then EmptyString else String a (before_first c r)
  end.

Fixpoint after_first (c : ascii) (s : string) : string :=
  match s with
  | EmptyString => EmptyString
  | String a r => if Ascii.eqb a c then r else after_first c r
  end.

(** [s.replace(/c.*$/, '')] on a text without line terminators: cut at the
    first [c]. *)
Definition cut_at (c : ascii) (s : string) : string := before_first c s.

Fixpoint rev_onto (acc s : string) : string :=
  match s with
  | EmptyString => acc
  | String a r => rev_onto (String a acc) r
  end.

Definition reverse (s : string) : string := rev_onto EmptyString s.

(** ** White space

    [String.prototype.trim] and the numeric grammar share one class of
    characters, WhiteSpace and LineTerminator.  In UTF-8 these are the six
    ASCII controls and the following two- and three-byte sequences. *)

Definition ws1 (a : ascii) : bool :=
  let c := code a in ((9 <=? c) && (c <=? 13) || (c =? 32))%N.

(** U+00A0 *)
Definition ws2 (a b : ascii) : bool :=
  ((code a =? 194) && (code b =? 160))%N.

(** U+1680, U+2000..U+200A, U+2028, U+2029, U+202F, U+205F, U+3000, U+FEFF *)
Definition ws3 (a b c : ascii) : bool :=
  let x := code a in let y := code b in let z := code c in
  ((x =? 225) && (y =? 154) && (z =? 128)
   || (x =? 226) && (y =? 128)
      && ((128 <=? z) && (z <=? 138) || (z =? 168) || (z =? 169) || (z =? 175))
   || (x =? 226) && (y =? 129) && (z =? 159)
   || (x =? 227) && (y =? 128) && (z =? 128)
   || (x =? 239) && (y =? 187) && (z =? 191))%N.

(** Drop leading white space.  With [back] the text is read backwards, so
    the bytes of a sequence arrive last byte first. *)
Fixpoint drop_ws (back : bool) (s : string) : string :=
  match s with
  | EmptyString => s
  | String a r1 =>
      if ws1 a then drop_ws back r1
      else match r1 with
           | String b r2 =>
               if (if back then ws2 b a else ws2 a b) then drop_ws back r2
               else match r2 with
                    | String c r3 =>
                        if (if back then ws3 c b a else ws3 a b c)
                        then drop_ws back r3 else s
                    | EmptyString => s
                    end
           | EmptyString => s
           end
  end.

(** [s.trim()] *)
Definition trim (s : string) : string :=
  reverse (drop_ws true (reverse (drop_ws false s))).

End JsString.

(* ===================================================================== *)
(** * Numbers: [Number(value)]                                            *)
(* ===================================================================== *)

(** A number is kept as the exact value its literal denotes; the rounding
    of that value to a double is the host's and is not part of the model.
    Not-a-number is the absence of a value. *)
Inductive Number : Type :=
| Finite (q : Q)
| Infinite (negative : bool).

Module JsNumber.
Import JsString.

Definition is_digit (a : ascii) : bool := ((48 <=? code a) && (code a <=? 57))%N.

Definition digit_of (a : ascii) : option Z :=
  let c := Z.of_N (code a) in
  if ((48 <=? c) && (c <=? 57))%Z then Some (c - 48)%Z
  else if ((97 <=? c) && (c <=? 102))%Z then Some (c - 87)%Z
  else if ((65 <=? c) && (c <=? 70))%Z then Some (c - 55)%Z
  else None.

(** The longest prefix of decimal digits, and what follows it. *)
Fixpoint span_digits (s : string) : string * string :=
  match s with
  | EmptyString => (EmptyString, EmptyString)
  | String a r =>
      if is_digit a then let '(d, rest) := span_digits r in (String a d, rest)
      else (EmptyString, s)
  end.

(** The value of a digit string in the given radix; [None] when a
    character is not a digit of that radix. *)
Fixpoint radix_value (radix acc : Z) (s : string) : option Z :=
  match s with
  | EmptyString => Some acc
  | String a r =>
      match digit_of a with
      | Some d => if (d <? radix)%Z then radix_value radix (acc * radix + d)%Z r else None
      | None => None
      end
  end.

Definition digits_value (s : string) : Z :=
  match radix_value 10 0 s with Some v => v | None => 0%Z end.

Definition pow10 (e : Z) : Q :=
  if (0 <=? e)%Z then inject_Z (10 ^ e) else Qinv (inject_Z (10 ^ (- e))).

(** ExponentPart, or nothing: the text after the mantissa. *)
Definition parse_exponent (s : string) : option Z :=
  match s with
  | EmptyString => Some 0%Z
  | String c r =>
      if Ascii.eqb c "e" || Ascii.eqb c "E" then
        let '(neg, r') :=
          match r with
          | String "+" r' => (false, r')
          | String "-" r' => (true, r')
          | _ => (false, r)
          end in
        let '(ds, rest) := span_digits r' in
        match ds, rest with
        | String _ _, EmptyString =>
            Some (if neg then - digits_value ds else digits_value ds)%Z
        | _, _ => None
        end
      else None
  end.

(** StrUnsignedDecimalLiteral without [Infinity]:
    digits [. digits] [exponent], or [. digits [exponent]]. *)
Definition parse_unsigned_decimal (s : string) : option Q :=
  let '(int, r1) := span_digits s in
  let '(frac, r2) :=
    match r1 with
    | String "." r => span_digits r
    | _ => (EmptyString, r1)
    end in
  match int ++ frac with
  | EmptyString => None
  | mantissa =>
      match parse_exponent r2 with
      | Some e =>
          Some (Qred (inject_Z (digits_value mantissa)
                      * pow10 (e - Z.of_nat (String.length frac))))
      | None => None
      end
  end.

Definition parse_signed (negative : bool) (s : string) : option Number :=
  if String.eqb s "Infinity" then Some (Infinite negative)
  else match parse_unsigned_decimal s with
       | Some q => Some (Finite (if negative then Qred (- q) else q))
       | None => None
       end.

Definition parse_radix (radix : Z) (s : string) : option Number :=
  match s with
  | EmptyString => None
  | _ => match radix_value radix 0 s with
         | Some v => Some (Finite (inject_Z v))
         | None => None
         end
  end.

(** StringToNumber: [None] is NaN. *)
Definition StringToNumber (s : string) : option Number :=
  match trim s with
  | EmptyString => Some (Finite 0)
  | String "0" (String "x" r) | String "0" (String "X" r) => parse_radix 16 r
  | String "0" (String "o" r) | String "0" (String "O" r) => parse_radix 8 r
  | String "0" (String "b" r) | String "0" (String "B" r) => parse_radix 2 r
  | String "+" r => parse_signed false r
  | String "-" r => parse_signed true r
  | t => parse_signed false t
  end.

End JsNumber.

(* ===================================================================== *)
(** * Parameter processing utilities                                      *)
(* ===================================================================== *)

(** What a coerced parameter can be. *)
Inductive TypedValue : Type :=
| VBoolean (b : bool)
| VNull
| VUndefined
| VNumber (n : Number)
| VString (s : string).

(** [coerceValue]: the literals first, then the numeric parse guarded by
    [value.trim() !== ''], then the string itself. *)
Definition coerceValue (value : string) : TypedValue :=
  if String.eqb value "true" then VBoolean true
  else if String.eqb value "false" then VBoolean false
  else if String.eqb value "null" then VNull
  else if String.eqb value "undefined" then VUndefined
  else
    match JsNumber.StringToNumber value with
    | Some num =>
        if negb (String.eqb (JsString.trim value) "") then VNumber num
        else VString value
    | None => VString value
    end.

(** [new URLSearchParams(text)]: the pairs of a form-urlencoded text. *)
Module URLSearchParams.
Import JsString.

(** [+] is a space, [%XX] is the byte XX, in one pass.  The bytes are
    kept as they come; the replacement of ill-formed UTF-8 is left out. *)
Fixpoint decode (s : string) : string :=
  match s with
  | EmptyString => EmptyString
  | String a r1 =>
      if Ascii.eqb a "%" then
        match r1 with
        | String h (String l r) =>
            match JsNumber.digit_of h, JsNumber.digit_of l with
            | Some x, Some y =>
                String (ascii_of_N (Z.to_N (16 * x + y))) (decode r)
            | _, _ => String a (decode r1)
            end
        | _ => String a (decode r1)
        end
      else String (if Ascii.eqb a "+" then " "%char else a) (decode r1)
  end.

Definition pair_of (field : string) : string * string :=
  (decode (before_first "=" field), decode (after_first "=" field)).

Definition parse (text : string) : list (string * string) :=
  let body := match text with String "?" r => r | _ => text end in
  map pair_of (filter (fun f => f ≠ EmptyString) (split "&" body)).

End URLSearchParams.

(** The properties a plain object inherits from [Object.prototype]: on
    [{}] they read as a function, or for [__proto__] as the prototype
    itself, and never as [undefined] or [null]. *)
Definition inherited (k : string) : bool :=
  existsb (String.eqb k)
          ["constructor"; "hasOwnProperty"; "isPrototypeOf"; "propertyIsEnumerable";
           "toLocaleString"; "toString"; "valueOf"; "__proto__";
           "__defineGetter__"; "__defineSetter__"; "__lookupGetter__"; "__lookupSetter__"].

(** One round of the loop of [paramsToObj], [(out[k] ??= []).push(v)]:
    the own property if there is one, a new list if the key reads as
    [undefined], and a type error if the key reads as an inherited
    property, which has no [push].  [None] is that type error. *)
Definition paramsToObj_step (out : gmap string (list string)) (kv : string * string)
  : option (gmap string (list string)) :=
  match out !! kv.1 with
  | Some values => Some (<[kv.1 := (values ++ [kv.2])%list]> out)
  | None => if inherited kv.1 then None else Some (<[kv.1 := [kv.2]]> out)
  end.

Fixpoint paramsToObj_loop (out : gmap string (list string)) (params : list (string * string))
  : option (gmap string (list string)) :=
  match params with
  | [] => Some out
  | kv :: rest =>
      match paramsToObj_step out kv with
      | Some out' => paramsToObj_loop out' rest
      | None => None
      end
  end.

(** [paramsToObj]: every pair is appended to the list of its key; [None]
    when it throws. *)
Definition paramsToObj (params : list (string * string)) : option (gmap string (list string)) :=
  paramsToObj_loop ∅ params.

(** [coerceParams]: [coerceValue] on every element of every list. *)
Definition coerceParams (params : gmap string (list string)) : gmap string (list TypedValue) :=
  (map coerceValue) <$> params.


(* ===================================================================== *)
(** * Route objects                                                       *)
(* ===================================================================== *)

Record Route : Type := mkRoute {
  path        : string;
  query       : gmap string (list string);
  params      : gmap string (list string);
  queryTyped  : gmap string (list TypedValue);
  paramsTyped : gmap string (list TypedValue)
}.

(** [{ ...r, path: p }] *)
Definition with_path (p : string) (r : Route) : Route :=
  mkRoute p (query r) (params r) (queryTyped r) (paramsTyped r).

(** The local bindings of [makeRoute], as functions of
    [globalThis.location.hash]. *)
Module MakeRoute.

(** [hash.replace(/^#!\/?/, '')] *)
Definition raw (hash : string) : string :=
  match hash with
  | String "#" (String "!" r) =>
      match r with
      | String "/" r' => r'
      | _ => r
      end
  | _ => hash
  end.

(** [raw.split('?')] *)
Definition parts (hash : string) : list string := JsString.split "?" (raw hash).

(** [parts[0] || ''] *)
Definition path (hash : string) : string := default "" (parts hash !! 0).

(** [parts[1] || ''] *)
Definition hashQuery (hash : string) : string := default "" (parts hash !! 1).

End MakeRoute.

(** [makeRoute], from the hash and the search string of the location.
    The properties of the object literal are evaluated in order; [None]
    when [paramsToObj] throws in one of them. *)
Definition makeRoute (hash search : string) : option Route :=
  let searchParams := URLSearchParams.parse (JsString.slice1 search) in
  let hashParams   := URLSearchParams.parse (MakeRoute.hashQuery hash) in
  query       ← paramsToObj searchParams;
  params      ← paramsToObj hashParams;
  queryTyped  ← coerceParams <$> paramsToObj searchParams;
  paramsTyped ← coerceParams <$> paramsToObj hashParams;
  Some {| path        := MakeRoute.path hash;
          query       := query;
          params      := params;
          queryTyped  := queryTyped;
          paramsTyped := paramsTyped |}.

(* ===================================================================== *)
(** * Scroll records and scroll events                                    *)
(* ===================================================================== *)

(** The object [captureScroll] stores in the [scrollPositions] map. *)
Module ScrollData.
Record t : Type := mk {
  winX      : Z;
  winY      : Z;
  timestamp : Z;
  route     : string
}.
End ScrollData.

(** The object handed to the scroll callbacks: a type tag, the fields of a
    scroll record, and whatever numeric properties a callback has set on it. *)
Module ScrollEvent.
Record t : Type := mk {
  type      : string;
  winX      : Z;
  winY      : Z;
  timestamp : Z;
  route     : string;
  custom    : gmap string Z
}.

(** [{ type: tag, ...scrollData }]: a new object. *)
Definition spread (tag : string) (d : ScrollData.t) : t :=
  mk tag (ScrollData.winX d) (ScrollData.winY d) (ScrollData.timestamp d)
     (ScrollData.route d) ∅.
End ScrollEvent.

(* ===================================================================== *)
(** * Callbacks                                                           *)
(* ===================================================================== *)

(** A thrown or rejected value, by what reading its [message] property
    does: on [null] and [undefined] the read itself throws. *)
Inductive Thrown : Type :=
| Nullish
| Value (message : option string).

Inductive Exception : Type :=
| UserThrown (e : Thrown)
| TypeError.

(** What a before-guard does when called: it returns, it throws, or it
    returns a promise that fulfils or rejects at some later tick, or never. *)
Inductive GuardOutcome : Type :=
| Returns
| Throws (e : Thrown)
| Fulfils (tick : nat)
| Rejects (tick : nat) (e : Thrown)
| NeverSettles.

Definition loc : Type := nat.

Record Guard : Type := mkGuard {
  guard_ref : nat;
  guard_run : Route -> Route -> GuardOutcome
}.

Record Hook : Type := mkHook {
  hook_ref : nat;
  hook_run : Route -> Route -> option Thrown
}.

Record StatusCallback : Type := mkStatusCallback {
  status_ref : nat;
  status_run : string -> string -> Route -> Route -> option Thrown
}.

(** A scroll callback may assign to the properties of the event it is
    given; the event after the call is part of its result. *)
Record ScrollCallback : Type := mkScrollCallback {
  scroll_ref : nat;
  scroll_run : ScrollEvent.t -> ScrollEvent.t * option Thrown
}.

(* ===================================================================== *)
(** * The environment and the state of the router                         *)
(* ===================================================================== *)

(** What [requestAnimationFrame] was asked to run. *)
Inductive Frame : Type :=
| RestoreFrame (saved : ScrollData.t)
| AnchorFrame.

Record Environment : Type := mkEnvironment {
  location_hash       : string;       (* '' or '#...' *)
  location_search     : string;       (* '' or '?...' *)
  location_base       : string;       (* href before the query and the fragment *)
  pageXOffset         : Z;
  pageYOffset         : Z;
  clock               : Z;            (* Date.now() *)
  element_ids         : list string;  (* ids of the document's elements *)
  hashchange_listener : bool;
  scroll_listener     : bool;
  frames              : list Frame    (* queued animation frames, oldest first *)
}.

(** The variables of the closure. *)
Record Router : Type := mkRouter {
  route           : loc;
  prevRoute       : loc;
  beforeListeners : list Guard;
  afterListeners  : list Hook;
  statusCallbacks : list StatusCallback;
  scrollCallbacks : list ScrollCallback;
  destroyed       : bool;
  lastHash        : string;
  scrollPositions : gmap string ScrollData.t
}.

(** What the router did to the outside, in order.  [EmitStatus] and
    [EmitScroll] mark the entry into [emitStatus] and [emitScroll]; the
    calls of the individual callbacks follow them. *)
Inductive Event : Type :=
| CalledGuard (ref : nat) (to from : loc)
| CalledHook (ref : nat) (to from : loc)
| EmitStatus (status type : string)
| CalledStatus (ref : nat) (status type : string) (current previous : loc)
| EmitScroll (payload : ScrollEvent.t)
| CalledScroll (ref : nat) (payload : ScrollEvent.t)
| ConsoleError (label : string) (e : Exception)
| WroteHash (value : string)
| LocationReplace (url : string)
| ScrolledTo (x y : Z)
| ScrolledIntoView (id : string)
| HistoryGo (n : Z)
| HistoryBack
| HistoryForward.

Record World : Type := mkWorld {
  router : Router;
  heap   : list Route;
  env    : Environment;
  log    : list Event
}.

(** ** Field updates *)

Definition set_route (v : loc) (r : Router) : Router :=
  mkRouter v (prevRoute r) (beforeListeners r) (afterListeners r) (statusCallbacks r)
           (scrollCallbacks r) (destroyed r) (lastHash r) (scrollPositions r).
Definition set_prevRoute (v : loc) (r : Router) : Router :=
  mkRouter (route r) v (beforeListeners r) (afterListeners r) (statusCallbacks r)
           (scrollCallbacks r) (destroyed r) (lastHash r) (scrollPositions r).
Definition set_beforeListeners (v : list Guard) (r : Router) : Router :=
  mkRouter (route r) (prevRoute r) v (afterListeners r) (statusCallbacks r)
           (scrollCallbacks r) (destroyed r) (lastHash r) (scrollPositions r).
Definition set_afterListeners (v : list Hook) (r : Router) : Router :=
  mkRouter (route r) (prevRoute r) (beforeListeners r) v (statusCallbacks r)
           (scrollCallbacks r) (destroyed r) (lastHash r) (scrollPositions r).
Definition set_statusCallbacks (v : list StatusCallback) (r : Router) : Router :=
  mkRouter (route r) (prevRoute r) (beforeListeners r) (afterListeners r) v
           (scrollCallbacks r) (destroyed r) (lastHash r) (scrollPositions r).
Definition set_scrollCallbacks (v : list ScrollCallback) (r : Router) : Router :=
  mkRouter (route r) (prevRoute r) (beforeListeners r) (afterListeners r) (statusCallbacks r)
           v (destroyed r) (lastHash r) (scrollPositions r).
Definition set_destroyed (v : bool) (r : Router) : Router :=
  mkRouter (route r) (prevRoute r) (beforeListeners r) (afterListeners r) (statusCallbacks r)
           (scrollCallbacks r) v (lastHash r) (scrollPositions r).
Definition set_lastHash (v : string) (r : Router) : Router :=
  mkRouter (route r) (prevRoute r) (beforeListeners r) (afterListeners r) (statusCallbacks r)
           (scrollCallbacks r) (destroyed r) v (scrollPositions r).
Definition set_scrollPositions (v : gmap string ScrollData.t) (r : Router) : Router :=
  mkRouter (route r) (prevRoute r) (beforeListeners r) (afterListeners r) (statusCallbacks r)
           (scrollCallbacks r) (destroyed r) (lastHash r) v.

Definition set_location_hash (v : string) (e : Environment) : Environment :=
  mkEnvironment v (location_search e) (location_base e) (pageXOffset e) (pageYOffset e)
                (clock e) (element_ids e) (hashchange_listener e) (scroll_listener e)
                (frames e).
Definition set_offsets (x y : Z) (e : Environment) : Environment :=
  mkEnvironment (location_hash e) (location_search e) (location_base e) x y
                (clock e) (element_ids e) (hashchange_listener e) (scroll_listener e)
                (frames e).
Definition set_listeners (h s : bool) (e : Environment) : Environment :=
  mkEnvironment (location_hash e) (location_search e) (location_base e) (pageXOffset e)
                (pageYOffset e) (clock e) (element_ids e) h s (frames e).
Definition set_frames (v : list Frame) (e : Environment) : Environment :=
  mkEnvironment (location_hash e) (location_search e) (location_base e) (pageXOffset e)
                (pageYOffset e) (clock e) (element_ids e) (hashchange_listener e)
                (scroll_listener e) v.

Definition on_router (f : Router -> Router) (w : World) : World :=
  mkWorld (f (router w)) (heap w) (env w) (log w).
Definition on_env (f : Environment -> Environment) (w : World) : World :=
  mkWorld (router w) (heap w) (f (env w)) (log w).
Definition on_heap (f : list Route -> list Route) (w : World) : World :=
  mkWorld (router w) (f (heap w)) (env w) (log w).
Definition record (e : Event) (w : World) : World :=
  mkWorld (router w) (heap w) (env w) (log w ++ [e])%list.

(** ** The heap of route objects *)

Definition empty_route : Route := mkRoute "" ∅ ∅ ∅ ∅.

(** Reading the object at a location. *)
Definition deref (h : list Route) (l : loc) : Route := default empty_route (h !! l).

(** ** The environment's side of the location *)

(** [location.href] *)
Definition location_href (e : Environment) : string :=
  location_base e ++ location_search e ++ location_hash e.

(** The part of the URL parser that the writes of the router go through.
    A string is its UTF-8 bytes, so encoding works byte by byte. *)
Module URL.

(** ASCII tab or newline: removed from every input. *)
Definition tab_or_newline (a : ascii) : bool :=
  let c := JsString.code a in ((c =? 9) || (c =? 10) || (c =? 13))%N.

(** C0 control or space: removed from both ends of a whole URL. *)
Definition c0_or_space (a : ascii) : bool := (JsString.code a <=? 32)%N.

(** The fragment percent-encode set: the C0 controls, every byte above
    [~], and space, double quote, [<], [>] and the backtick. *)
Definition in_fragment_set (a : ascii) : bool :=
  let c := JsString.code a in
  ((c <=? 31) || (126 <? c) || (c =? 32) || (c =? 34) || (c =? 60) || (c =? 62)
   || (c =? 96))%N.

Definition hex_digit (n : N) : ascii :=
  ascii_of_N (if (n <? 10)%N then 48 + n else 55 + n).

(** [%XX], with upper-case digits. *)
Definition percent_encode (a : ascii) : string :=
  String "%" (String (hex_digit (JsString.code a / 16))
                     (String (hex_digit (JsString.code a mod 16)) EmptyString)).

Fixpoint remove_tab_newline (s : string) : string :=
  match s with
  | EmptyString => EmptyString
  | String a r => if tab_or_newline a then remove_tab_newline r
                  else String a (remove_tab_newline r)
  end.

(** The fragment state of the parser. *)
Fixpoint encode_fragment (s : string) : string :=
  match s with
  | EmptyString => EmptyString
  | String a r => if in_fragment_set a then percent_encode a ++ encode_fragment r
                  else String a (encode_fragment r)
  end.

Fixpoint strip_leading (s : string) : string :=
  match s with
  | EmptyString => EmptyString
  | String a r => if c0_or_space a then strip_leading r else s
  end.

Fixpoint strip_trailing (s : string) : string :=
  match s with
  | EmptyString => EmptyString
  | String a r =>
      match strip_trailing r with
      | EmptyString => if c0_or_space a then EmptyString else String a EmptyString
      | r' => String a r'
      end
  end.

(** The fragment the parser gives to what follows the [#]. *)
Definition fragment (input : string) : string :=
  encode_fragment (remove_tab_newline input).

(** A text the parser leaves as it finds it: none of its bytes is in the
    fragment percent-encode set. *)
Fixpoint plain (s : string) : bool :=
  match s with
  | EmptyString => true
  | String a r => negb (in_fragment_set a) && plain r
  end.

(** The getter of [hash]: nothing for an empty fragment. *)
Definition hash (fragment : string) : string :=
  match fragment with
  | EmptyString => EmptyString
  | _ => String "#" fragment
  end.

End URL.

(** What [location.hash] reads after [location.hash = v]: one leading [#]
    of the value is dropped and the rest is parsed in the fragment state. *)
Definition hash_of_fragment (v : string) : string :=
  URL.hash (URL.fragment (match v with String "#" r => r | _ => v end)).

(** What [location.hash] reads after [location.replace(url)]: the whole
    URL is stripped at both ends and parsed, and what follows its first [#]
    is the fragment.  The part before the [#] is the location's own
    address, which parses to itself. *)
Definition hash_of_url (url : string) : string :=
  let input := URL.remove_tab_newline (URL.strip_trailing (URL.strip_leading url)) in
  if JsString.contains "#" input
  then URL.hash (URL.encode_fragment (JsString.after_first "#" input))
  else EmptyString.

(** [document.getElementById(id)]: an element has a non-empty id. *)
Definition getElementById (e : Environment) (id : string) : bool :=
  negb (String.eqb id "") && existsb (String.eqb id) (element_ids e).


(* ===================================================================== *)
(** * Running the router's code                                           *)
(* ===================================================================== *)

(** How a call ends: with a value, with an exception (for an [async]
    function, a rejected promise), or never. *)
Inductive Result (A : Type) : Type :=
| Ok (a : A)
| Throw (e : Exception)
| Hang.
Arguments Ok {A} a.
Arguments Throw {A} e.
Arguments Hang {A}.

Definition M (A : Type) : Type := World -> Result A * World.

#[global] Instance M_ret : MRet M := fun A a w => (Ok a, w).

#[global] Instance M_bind : MBind M := fun A B f m w =>
  match m w with
  | (Ok a, w') => f a w'
  | (Throw e, w') => (Throw e, w')
  | (Hang, w') => (Hang, w')
  end.

Definition get : M World := fun w => (Ok w, w).
Definition modify (f : World -> World) : M unit := fun w => (Ok tt, f w).
Definition throw {A} (e : Exception) : M A := fun w => (Throw e, w).
Definition hang {A} : M A := fun w => (Hang, w).

(** [try { body } catch (error) { handler(error) }] *)
Definition try_catch {A} (body : M A) (handler : Exception -> M A) : M A := fun w =>
  match body w with
  | (Throw e, w') => handler e w'
  | r => r
  end.

(** [list.forEach(f)] *)
Fixpoint forEach {A} (f : A -> M unit) (l : list A) : M unit :=
  match l with
  | [] => mret tt
  | x :: l' => f x ;; forEach f l'
  end.

(** A callback that returned, or threw. *)
Definition completion (r : option Thrown) : M unit :=
  match r with
  | None => mret tt
  | Some e => throw (UserThrown e)
  end.

Definition console_error (label : string) (e : Exception) : M unit :=
  modify (record (ConsoleError label e)).

(** [{ ...obj }] and every other object literal: a new location. *)
Definition alloc (r : Route) : M loc := fun w =>
  (Ok (length (heap w)), on_heap (fun h => h ++ [r])%list w).

Definition requestAnimationFrame (f : Frame) : M unit :=
  modify (on_env (fun e => set_frames (frames e ++ [f])%list e)).

(** [globalThis.location.hash = value] *)
Definition write_hash (value : string) : M unit :=
  modify (record (WroteHash value)) ;;
  modify (on_env (set_location_hash (hash_of_fragment value))).

(** [globalThis.location.replace(url)], for a [url] that differs from
    the location in its fragment only. *)
Definition location_replace (url : string) : M unit :=
  modify (record (LocationReplace url)) ;;
  modify (on_env (set_location_hash (hash_of_url url))).

(** A pure function that returned, or threw a type error. *)
Definition returned {A} (r : option A) : M A :=
  match r with
  | Some a => mret a
  | None => throw TypeError
  end.

(* ===================================================================== *)
(** * Event system                                                        *)
(* ===================================================================== *)

Definition msg_navigating : string := "ðŸ”„ Navigating...".
Definition msg_complete   : string := "âœ… Navigation complete".
Definition msg_cancelled  : string := "âŒ ".

(** [callback(status, type, { route, prevRoute })] *)
Definition call_status (status type : string) (callback : StatusCallback) : M unit :=
  w ← get;
  modify (record (CalledStatus (status_ref callback) status type
                               (route (router w)) (prevRoute (router w)))) ;;
  completion (status_run callback status type
                (deref (heap w) (route (router w)))
                (deref (heap w) (prevRoute (router w)))).

Definition emitStatus (status type : string) : M unit :=
  modify (record (EmitStatus status type)) ;;
  w ← get;
  forEach (fun callback =>
             try_catch (call_status status type callback)
                       (fun error => console_error "Status callback error:" error))
          (statusCallbacks (router w)).

(** The callbacks share one event object: each sees what the ones before it
    left in it.  The result is the object as the last of them leaves it. *)
Fixpoint emitScroll_loop (callbacks : list ScrollCallback) (scrollData : ScrollEvent.t)
  : M ScrollEvent.t :=
  match callbacks with
  | [] => mret scrollData
  | callback :: rest =>
      modify (record (CalledScroll (scroll_ref callback) scrollData)) ;;
      let '(scrollData', thrown) := scroll_run callback scrollData in
      try_catch (completion thrown)
                (fun error => console_error "Scroll callback error:" error) ;;
      emitScroll_loop rest scrollData'
  end.

Definition emitScroll (scrollData : ScrollEvent.t) : M ScrollEvent.t :=
  modify (record (EmitScroll scrollData)) ;;
  w ← get;
  emitScroll_loop (scrollCallbacks (router w)) scrollData.

(* ===================================================================== *)
(** * Scroll restoration system                                           *)
(* ===================================================================== *)

Definition captureScroll (routePath : string) : M unit :=
  w ← get;
  let scrollData :=
    ScrollData.mk (pageXOffset (env w)) (pageYOffset (env w)) (clock (env w)) routePath in
  emitScroll (ScrollEvent.spread "capture" scrollData) ;;
  modify (on_router (fun r =>
            set_scrollPositions (<[routePath := scrollData]> (scrollPositions r)) r)).

Definition restoreScroll (routePath : string) : M unit :=
  w ← get;
  match scrollPositions (router w) !! routePath with
  | Some saved => requestAnimationFrame (RestoreFrame saved)
  | None => mret tt
  end.

(** [globalThis.scrollTo(x, y)] *)
Definition scrollTo (x y : Z) : M unit :=
  modify (record (ScrolledTo x y)) ;;
  modify (on_env (set_offsets x y)).

(** The body of a queued animation frame. *)
Definition runFrame (f : Frame) : M unit :=
  match f with
  | RestoreFrame saved =>
      scrollTo (ScrollData.winX saved) (ScrollData.winY saved) ;;
      emitScroll (ScrollEvent.spread "restore" saved) ;;
      mret tt
  | AnchorFrame =>
      w ← get;
      let id := JsString.slice1 (location_hash (env w)) in
      if getElementById (env w) id then modify (record (ScrolledIntoView id))
      else mret tt
  end.

(* ===================================================================== *)
(** * Navigation guard system                                             *)
(* ===================================================================== *)

(** The tick at which the promise of a guard's wrapper rejects.  A
    synchronous throw rejects it at once; a rejected promise has to be
    awaited first. *)
Definition rejection (o : GuardOutcome) : option (nat * Thrown) :=
  match o with
  | Throws e => Some (0, e)
  | Rejects tick e => Some (S tick, e)
  | _ => None
  end.

Definition pending (o : GuardOutcome) : bool :=
  match o with
  | NeverSettles => true
  | _ => false
  end.

(** The earliest rejection, the leftmost among equals. *)
Fixpoint first_rejection (outcomes : list GuardOutcome) : option (nat * Thrown) :=
  match outcomes with
  | [] => None
  | o :: rest =>
      match rejection o, first_rejection rest with
      | Some (t, e), Some (t', e') => if Nat.leb t t' then Some (t, e) else Some (t', e')
      | Some r, None => Some r
      | None, r => r
      end
  end.

(** [await Promise.all(promises)] *)
Definition await_all (outcomes : list GuardOutcome) : M unit :=
  match first_rejection outcomes with
  | Some (_, e) => throw (UserThrown e)
  | None => if existsb pending outcomes then hang else mret tt
  end.

(** [beforeListeners.map(async (callback) => await callback(newRoute, route))] *)
Fixpoint call_guards (newRoute : loc) (callbacks : list Guard) : M (list GuardOutcome) :=
  match callbacks with
  | [] => mret []
  | callback :: rest =>
      w ← get;
      modify (record (CalledGuard (guard_ref callback) newRoute (route (router w)))) ;;
      let o := guard_run callback (deref (heap w) newRoute)
                         (deref (heap w) (route (router w))) in
      os ← call_guards newRoute rest;
      mret (o :: os)
  end.

(** [`${prefix}${error.message}`]: reading [message] off [null] or
    [undefined] is a type error; an absent property prints as
    [undefined].  What the guards throw is a [UserThrown]; the text of a
    type error is the engine's and stands here as its name. *)
Definition message_of (error : Exception) : M string :=
  match error with
  | UserThrown Nullish => throw TypeError
  | UserThrown (Value (Some m)) => mret m
  | UserThrown (Value None) => mret "undefined"
  | TypeError => mret "TypeError"
  end.

Definition canNavigate (newRoute : loc) : M bool :=
  w ← get;
  if destroyed (router w) then mret false
  else
    (match path (deref (heap w) (route (router w))) with
     | EmptyString => mret tt
     | routePath => captureScroll routePath
     end) ;;
    w ← get;
    beforePromises ← call_guards newRoute (beforeListeners (router w));
    try_catch
      (await_all beforePromises ;; mret true)
      (fun error =>
         console_error "Navigation cancelled by guard:" error ;;
         m ← message_of error;
         emitStatus (msg_cancelled ++ m) "error" ;;
         mret false).

(** [afterListeners.forEach(...)] inside [completeNavigation]. *)
Definition call_hook (newRoute : loc) (callback : Hook) : M unit :=
  w ← get;
  modify (record (CalledHook (hook_ref callback) newRoute (prevRoute (router w)))) ;;
  completion (hook_run callback (deref (heap w) newRoute)
                       (deref (heap w) (prevRoute (router w)))).

Definition completeNavigation (newRoute : loc) : M unit :=
  w ← get;
  if destroyed (router w) then mret tt
  else
    copy ← alloc (deref (heap w) (route (router w)));
    modify (on_router (set_prevRoute copy)) ;;
    modify (on_router (set_route newRoute)) ;;
    w ← get;
    forEach (fun callback =>
               try_catch (call_hook newRoute callback)
                         (fun error => console_error "After hook error:" error))
            (afterListeners (router w)) ;;
    w ← get;
    restoreScroll (path (deref (heap w) newRoute)) ;;
    emitStatus msg_complete "success".


(* ===================================================================== *)
(** * Guard registration functions                                        *)
(* ===================================================================== *)

Inductive Registry : Type := Before | After | Status | Scroll.

(** The function a registration returns: [() => {}], or the closure that
    removes the callback it was created for. *)
Inductive Disposer : Type :=
| Inert
| Remove (registry : Registry) (ref : nat).

(** [const index = list.indexOf(callback); if (index !== -1) list.splice(index, 1)] *)
Fixpoint remove_first {A} (ref_of : A -> nat) (ref : nat) (l : list A) : list A :=
  match l with
  | [] => []
  | x :: l' => if Nat.eqb (ref_of x) ref then l' else x :: remove_first ref_of ref l'
  end.

(** Calling an unsubscribe function. *)
Definition dispose (d : Disposer) : M unit :=
  match d with
  | Inert => mret tt
  | Remove registry ref =>
      w ← get;
      if destroyed (router w) then mret tt
      else
        modify (on_router (fun r =>
          match registry with
          | Before => set_beforeListeners (remove_first guard_ref ref (beforeListeners r)) r
          | After  => set_afterListeners (remove_first hook_ref ref (afterListeners r)) r
          | Status => set_statusCallbacks (remove_first status_ref ref (statusCallbacks r)) r
          | Scroll => set_scrollCallbacks (remove_first scroll_ref ref (scrollCallbacks r)) r
          end))
  end.

(** The argument of a registration is any value; [None] is one that is not
    a function. *)
Definition addBeforeListener (callback : option Guard) : M Disposer :=
  match callback with
  | None => mret Inert
  | Some callback =>
      w ← get;
      if destroyed (router w) then mret Inert
      else
        modify (on_router (fun r =>
                  set_beforeListeners (beforeListeners r ++ [callback])%list r)) ;;
        (* callback(route, prevRoute): the result is dropped, a throw is not caught *)
        modify (record (CalledGuard (guard_ref callback)
                                    (route (router w)) (prevRoute (router w)))) ;;
        match guard_run callback (deref (heap w) (route (router w)))
                        (deref (heap w) (prevRoute (router w))) with
        | Throws e => throw (UserThrown e)
        | _ => mret (Remove Before (guard_ref callback))
        end
  end.

Definition addAfterListener (callback : option Hook) : M Disposer :=
  match callback with
  | None => mret Inert
  | Some callback =>
      w ← get;
      if destroyed (router w) then mret Inert
      else
        modify (on_router (fun r =>
                  set_afterListeners (afterListeners r ++ [callback])%list r)) ;;
        mret (Remove After (hook_ref callback))
  end.

Definition addStatusListener (callback : option StatusCallback) : M Disposer :=
  match callback with
  | None => mret Inert
  | Some callback =>
      w ← get;
      if destroyed (router w) then mret Inert
      else
        modify (on_router (fun r =>
                  set_statusCallbacks (statusCallbacks r ++ [callback])%list r)) ;;
        mret (Remove Status (status_ref callback))
  end.

Definition addScrollListener (callback : option ScrollCallback) : M Disposer :=
  match callback with
  | None => mret Inert
  | Some callback =>
      w ← get;
      if destroyed (router w) then mret Inert
      else
        modify (on_router (fun r =>
                  set_scrollCallbacks (scrollCallbacks r ++ [callback])%list r)) ;;
        mret (Remove Scroll (scroll_ref callback))
  end.

(* ===================================================================== *)
(** * Core navigation logic                                               *)
(* ===================================================================== *)

(** [!hash.startsWith('#!/') && document?.getElementById?.(hash.slice(1))] *)
Definition isNativeAnchor (e : Environment) (hash : string) : bool :=
  negb (JsString.startsWith hash "#!/") && getElementById e (JsString.slice1 hash).

(** [prevRoute.path ? '#!/' + prevRoute.path : ''] *)
Definition rollbackHash_of (previous : Route) : string :=
  match path previous with
  | EmptyString => ""
  | p => "#!/" ++ p
  end.

Definition handleRouteChange : M unit :=
  w ← get;
  if destroyed (router w) then mret tt
  else if isNativeAnchor (env w) (location_hash (env w)) then
    requestAnimationFrame AnchorFrame
  else if String.eqb (location_hash (env w)) (lastHash (router w)) then mret tt
  else
    emitStatus msg_navigating "loading" ;;
    w ← get;
    built ← returned (makeRoute (location_hash (env w)) (location_search (env w)));
    newRoute ← alloc built;
    success ← canNavigate newRoute;
    w ← get;
    if (success : bool) then
      modify (on_router (set_lastHash (location_hash (env w)))) ;;
      completeNavigation newRoute
    else
      let rollbackHash := rollbackHash_of (deref (heap w) (prevRoute (router w))) in
      write_hash rollbackHash ;;
      modify (on_router (set_lastHash rollbackHash)).

Definition changeHash (newPath : string) (replace : bool) : M bool :=
  let cleanPath := JsString.strip_leading "/" newPath in
  let safePath  := if JsString.startsWith newPath "#" then newPath
                   else "#!/" ++ cleanPath in
  emitStatus msg_navigating "loading" ;;
  w ← get;
  built ← returned (makeRoute (location_hash (env w)) (location_search (env w)));
  tempRoute ← alloc (with_path cleanPath built);
  success ← canNavigate tempRoute;
  if negb (success : bool) then mret false
  else
    w ← get;
    (if replace then
       let baseUrl := JsString.cut_at "#" (location_href (env w)) in
       location_replace (baseUrl ++ safePath)
     else write_hash safePath) ;;
    modify (on_router (set_lastHash safePath)) ;;
    completeNavigation tempRoute ;;
    mret true.

(** The listener of the window's [scroll] event. *)
Definition updateScrollTracking : M unit :=
  w ← get;
  if destroyed (router w) then mret tt
  else
    emitScroll (ScrollEvent.mk "update" (pageXOffset (env w)) (pageYOffset (env w))
                               (clock (env w))
                               (path (deref (heap w) (route (router w)))) ∅) ;;
    mret tt.

(* ===================================================================== *)
(** * Public API                                                          *)
(* ===================================================================== *)

Definition beforeEach := addBeforeListener.
Definition afterEach  := addAfterListener.
Definition onStatus   := addStatusListener.
Definition onScroll   := addScrollListener.

Definition push (newPath : string) : M bool := changeHash newPath false.
Definition replace (newPath : string) : M bool := changeHash newPath true.

(** [() => ({ ...route })] *)
Definition currentRoute : M loc :=
  w ← get; alloc (deref (heap w) (route (router w))).

(** [() => ({ ...prevRoute })] *)
Definition previousRoute : M loc :=
  w ← get; alloc (deref (heap w) (prevRoute (router w))).

(** [() => ({ to: { ...route }, from: { ...prevRoute } })]: the two fields
    of the object returned. *)
Definition getRouteState : M (loc * loc) :=
  to ← currentRoute;
  from ← previousRoute;
  mret (to, from).

Definition getTypedParams : M (gmap string (list TypedValue)) :=
  w ← get; mret (paramsTyped (deref (heap w) (route (router w)))).

Definition getTypedQuery : M (gmap string (list TypedValue)) :=
  w ← get; mret (queryTyped (deref (heap w) (route (router w)))).

(** [(path = route.path) => captureScroll(path)]: [None] is the argument
    left out. *)
Definition saveScrollPosition (p : option string) : M unit :=
  w ← get;
  captureScroll (default (path (deref (heap w) (route (router w)))) p).

Definition restoreScrollPosition (p : option string) : M unit :=
  w ← get;
  restoreScroll (default (path (deref (heap w) (route (router w)))) p).

Definition clearScrollHistory : M unit :=
  modify (on_router (set_scrollPositions ∅)).

Definition go (n : Z) : M unit := modify (record (HistoryGo n)).
Definition back : M unit := modify (record HistoryBack).
Definition forward : M unit := modify (record HistoryForward).

Definition destroy : M unit :=
  modify (on_router (set_destroyed true)) ;;
  modify (on_router (set_lastHash "")) ;;
  modify (on_env (set_listeners false false)) ;;
  modify (on_router (set_beforeListeners [])) ;;
  modify (on_router (set_afterListeners [])) ;;
  modify (on_router (set_statusCallbacks [])) ;;
  modify (on_router (set_scrollCallbacks [])) ;;
  modify (on_router (set_scrollPositions ∅)).

(** Assigning to the properties of the object at [l]. *)
Definition assign (l : loc) (f : Route -> Route) : M unit :=
  modify (on_heap (fun h => match h !! l with
                            | Some r => <[l := f r]> h
                            | None => h
                            end)).

(* ===================================================================== *)
(** * Construction                                                        *)
(* ===================================================================== *)

(** The state the closure starts in once [makeRoute()] has returned [r]:
    [route] is that route, [prevRoute] a spread copy of it, and both
    listeners are on the window. *)
Definition initial (e : Environment) (r : Route) : World :=
  {| router := {| route := 0; prevRoute := 1;
                  beforeListeners := []; afterListeners := [];
                  statusCallbacks := []; scrollCallbacks := [];
                  destroyed := false;
                  lastHash := location_hash e;
                  scrollPositions := ∅ |};
     heap := [r; r];
     env := set_listeners true true e;
     log := [] |}.

(** The module's body: the initial state, then [handleRouteChange()].
    When the first [makeRoute()] throws, the body throws with it and there
    is no router: [None]. *)
Definition create (e : Environment) : option World :=
  r ← makeRoute (location_hash e) (location_search e);
  Some (handleRouteChange (initial e r)).2.

(** Running a call for its final world, and for its result. *)
Definition exec {A} (m : M A) (w : World) : World := (m w).2.
Definition eval {A} (m : M A) (w : World) : Result A := (m w).1.

(** Route locations are allocated. *)
Definition allocated (w : World) : Prop :=
  route (router w) < length (heap w) ∧ prevRoute (router w) < length (heap w).


(* ===================================================================== *)
(** * What a run leaves in the log                                        *)
(* ===================================================================== *)

(** The world with more events recorded and nothing else changed. *)
Definition logged (events : list Event) (w : World) : World :=
  mkWorld (router w) (heap w) (env w) (log w ++ events)%list.

(** One isolated callback: the call, then the report of its fault if it
    threw. *)
Definition fault_report (label : string) (r : option Thrown) : list Event :=
  match r with
  | Some e => [ConsoleError label (UserThrown e)]
  | None => []
  end.

(** The events of [emitStatus(status, type)]. *)
Definition status_trace (status type : string) (w : World) : list Event :=
  EmitStatus status type ::
  flat_map (fun callback =>
              CalledStatus (status_ref callback) status type
                           (route (router w)) (prevRoute (router w))
              :: fault_report "Status callback error:"
                   (status_run callback status type
                      (deref (heap w) (route (router w)))
                      (deref (heap w) (prevRoute (router w)))))
           (statusCallbacks (router w)).

(** The events of the scroll callbacks on one event object, and the object
    as they leave it. *)
Fixpoint scroll_calls (callbacks : list ScrollCallback) (payload : ScrollEvent.t)
  : list Event :=
  match callbacks with
  | [] => []
  | callback :: rest =>
      (CalledScroll (scroll_ref callback) payload
       :: fault_report "Scroll callback error:" (scroll_run callback payload).2)
      ++ scroll_calls rest (scroll_run callback payload).1
  end%list.

Fixpoint scroll_final (callbacks : list ScrollCallback) (payload : ScrollEvent.t)
  : ScrollEvent.t :=
  match callbacks with
  | [] => payload
  | callback :: rest => scroll_final rest (scroll_run callback payload).1
  end.

Definition scroll_trace (payload : ScrollEvent.t) (w : World) : list Event :=
  EmitScroll payload :: scroll_calls (scrollCallbacks (router w)) payload.

(** The record [captureScroll(routePath)] builds. *)
Definition captured (routePath : string) (w : World) : ScrollData.t :=
  ScrollData.mk (pageXOffset (env w)) (pageYOffset (env w)) (clock (env w)) routePath.

(** The world after [captureScroll(routePath)]. *)
Definition after_capture (routePath : string) (w : World) : World :=
  on_router (fun r => set_scrollPositions
                        (<[routePath := captured routePath w]> (scrollPositions r)) r)
            (logged (scroll_trace (ScrollEvent.spread "capture" (captured routePath w)) w) w).

(** What the before-guards answer, and the events of calling them. *)
Definition guard_outcomes (newRoute : loc) (w : World) : list GuardOutcome :=
  map (fun callback => guard_run callback (deref (heap w) newRoute)
                                 (deref (heap w) (route (router w))))
      (beforeListeners (router w)).

Definition guard_calls (newRoute : loc) (w : World) : list Event :=
  map (fun callback => CalledGuard (guard_ref callback) newRoute (route (router w)))
      (beforeListeners (router w)).

(** The events of the after-hooks, called with [(newRoute, previous)]. *)
Definition hook_calls (newRoute previous : loc) (w : World) : list Event :=
  flat_map (fun callback =>
              CalledHook (hook_ref callback) newRoute previous
              :: fault_report "After hook error:"
                   (hook_run callback (deref (heap w) newRoute) (deref (heap w) previous)))
           (afterListeners (router w)).

(** The frame [restoreScroll(routePath)] queues, if it queues one. *)
Definition restore_frames (routePath : string) (w : World) : list Frame :=
  match scrollPositions (router w) !! routePath with
  | Some saved => [RestoreFrame saved]
  | None => []
  end.

(** The world as a navigation cycle leaves the guard phase: the route that
    is being left has its scroll position captured, the guards were called. *)
Definition after_guards (newRoute : loc) (w : World) : World :=
  let w1 := match path (deref (heap w) (route (router w))) with
            | EmptyString => w
            | routePath => after_capture routePath w
            end in
  logged (guard_calls newRoute w1) w1.

(** The part of [changeHash(newPath, _)] from the status event to the
    answer of [canNavigate]: the guard phase of a programmatic navigation. *)
Definition programmatic_guard_phase (newPath : string) : M bool :=
  emitStatus msg_navigating "loading" ;;
  w ← get;
  built ← returned (makeRoute (location_hash (env w)) (location_search (env w)));
  tempRoute ← alloc (with_path (JsString.strip_leading "/" newPath) built);
  canNavigate tempRoute.

(* ===================================================================== *)
(** * The route builder as the specification words it                     *)
(* ===================================================================== *)

Module SnapshotSpec.

(** "Strip a fixed leading marker (a [#] followed by an optional routing
    marker and optional leading slash) from the hash fragment". *)
Definition raw (hash : string) : string :=
  match hash with
  | String "#" r =>
      let r := match r with String "!" r' => r' | _ => r end in
      match r with String "/" r' => r' | _ => r end
  | _ => hash
  end.

(** "Split [raw] on the first [?] into [path] and [hashQuery]": everything
    after the first [?] is the query. *)
Definition path (raw : string) : string := JsString.before_first "?" raw.
Definition hashQuery (raw : string) : string := JsString.after_first "?" raw.

End SnapshotSpec.

(** The four literals [coerceValue] looks for first. *)
Definition literal (value : string) : bool :=
  String.eqb value "true" || String.eqb value "false"
  || String.eqb value "null" || String.eqb value "undefined".

(** The assignments of [completeNavigation]: [prevRoute] is a new copy of
    the object [route] points to, [route] is the candidate. *)
Definition committed (newRoute : loc) (w : World) : World :=
  on_router (set_route newRoute)
    (on_router (set_prevRoute (length (heap w)))
       (on_heap (fun h => h ++ [deref (heap w) (route (router w))])%list w)).

(** The world after [completeNavigation(newRoute)] on a live router. *)
Definition after_commit (newRoute : loc) (w : World) : World :=
  let w1 := committed newRoute w in
  let w2 := logged (hook_calls newRoute (prevRoute (router w1)) w1) w1 in
  let w3 := on_env (fun e =>
              set_frames (frames e ++ restore_frames (path (deref (heap w2) newRoute)) w2)%list
                         e) w2 in
  logged (status_trace msg_complete "success" w3) w3.


(** The status events in a list of events. *)
Definition statuses_emitted (events : list Event) : list (string * string) :=
  omap (fun e => match e with
                 | EmitStatus status type => Some (status, type)
                 | _ => None
                 end) events.

(** What it means for [l], returned by a getter in the world [w], to be a
    copy of the object at [original]: [l] was not in use before the call, it
    holds the fields of the original, and assigning to its fields changes
    neither the closure's variables nor the objects that [route] and
    [prevRoute] point to. *)
Definition detached_copy (w : World) (original l : loc) (w1 : World) : Prop :=
  length (heap w) <= l < length (heap w1)
  ∧ deref (heap w1) l = deref (heap w) original
  ∧ router w1 = router w
  ∧ ∀ f : Route -> Route,
      let w2 := exec (assign l f) w1 in
      deref (heap w2) l = f (deref (heap w) original)
      ∧ router w2 = router w
      ∧ deref (heap w2) (route (router w2)) = deref (heap w) (route (router w))
      ∧ deref (heap w2) (prevRoute (router w2)) = deref (heap w) (prevRoute (router w)).

(* ===================================================================== *)
(** * Sample worlds                                                       *)
(* ===================================================================== *)

Module Sample.

(** A page at [#!/home], scrolled down by ten pixels, with one anchor. *)
Definition page : Environment :=
  {| location_hash := "#!/home"; location_search := "";
     location_base := "http://localhost/";
     pageXOffset := 0; pageYOffset := 10; clock := 1000;
     element_ids := ["section1"];
     hashchange_listener := false; scroll_listener := false; frames := [] |}.

(** The route of that page, and the router as the module leaves it
    there. *)
Definition home : Route := mkRoute "home" ∅ ∅ ∅ ∅.
Definition fresh : World := (handleRouteChange (initial page home)).2.

(** [(to, from) => {}] *)
Definition allow : Guard := mkGuard 1 (fun _ _ => Returns).

(** [async (to) => { if (to.path === 'admin') throw new Error('Access denied') }] *)
Definition deny_admin : Guard :=
  mkGuard 2 (fun to _ => if String.eqb (path to) "admin"
                         then Rejects 0 (Value (Some "Access denied")) else Fulfils 0).

(** [() => Promise.reject()] *)
Definition reject_bare : Guard := mkGuard 3 (fun _ _ => Rejects 0 Nullish).

(** [() => { throw new Error('broken hook') }] and [() => {}] *)
Definition broken_hook : Hook := mkHook 4 (fun _ _ => Some (Value (Some "broken hook"))).
Definition quiet_hook : Hook := mkHook 5 (fun _ _ => None).

(** [(status, type) => {}] *)
Definition status_sink : StatusCallback := mkStatusCallback 6 (fun _ _ _ _ => None).

(** [(e) => { if (e.type === 'capture') e.winY = 999 }] *)
Definition rewrite_winY : ScrollCallback :=
  mkScrollCallback 7 (fun e =>
    (if String.eqb (ScrollEvent.type e) "capture"
     then ScrollEvent.mk (ScrollEvent.type e) (ScrollEvent.winX e) 999
                         (ScrollEvent.timestamp e) (ScrollEvent.route e)
                         (ScrollEvent.custom e)
     else e, None)).

(** The router with two after-hooks, the first of which throws, and a
    status callback. *)
Definition hooked : World :=
  exec (onStatus (Some status_sink))
    (exec (afterEach (Some quiet_hook))
       (exec (afterEach (Some broken_hook)) fresh)).

(** The router with the guard that protects [admin]. *)
Definition guarded : World :=
  exec (onStatus (Some status_sink)) (exec (beforeEach (Some deny_admin)) fresh).

(** The router after the user followed a link to [#section1]. *)
Definition at_anchor : World :=
  on_env (set_location_hash "#section1") hooked.

End Sample.

(** [tempRoute] in [changeHash(newPath, _)], from what [makeRoute()]
    returned: [{ ...makeRoute(), path: cleanPath }]. *)
Definition candidate_of (newPath : string) (built : Route) : Route :=
  with_path (JsString.strip_leading "/" newPath) built.

(** The world in which [changeHash] asks [canNavigate] about its
    candidate: the status event is out and the candidate is on the heap, at
    the location that was the first free one. *)
Definition proposed (candidate : Route) (w : World) : World :=
  on_heap (fun h => h ++ [candidate])%list
          (logged (status_trace msg_navigating "loading" w) w).

(** The world in which a navigation cycle ends when [makeRoute()] throws:
    only the status event is out. *)
Definition unbuilt (w : World) : World :=
  logged (status_trace msg_navigating "loading" w) w.

(** [makeRoute()] at the location of a world. *)
Definition route_here (w : World) : option Route :=
  makeRoute (location_hash (env w)) (location_search (env w)).

(** [safePath] in [changeHash]. *)
Definition safePath_of (newPath : string) : string :=
  if JsString.startsWith newPath "#" then newPath
  else "#!/" ++ JsString.strip_leading "/" newPath.

(** The writes to the location in a list of events. *)
Definition writes (events : list Event) : list Event :=
  omap (fun e => match e with
                 | WroteHash _ | LocationReplace _ => Some e
                 | _ => None
                 end) events.

(** The calls of callbacks, of any of the four kinds, in a list of events. *)
Definition calls (events : list Event) : list Event :=
  omap (fun e => match e with
                 | CalledGuard _ _ _ | CalledHook _ _ _
                 | CalledStatus _ _ _ _ _ | CalledScroll _ _ => Some e
                 | _ => None
                 end) events.

(** The state teardown leaves and every later call keeps: the latch is
    set, the recorded address is blank and the four registries are empty. *)
Definition torn_down (w : World) : Prop :=
  destroyed (router w) = true
  ∧ lastHash (router w) = ""
  ∧ beforeListeners (router w) = []
  ∧ afterListeners (router w) = []
  ∧ statusCallbacks (router w) = []
  ∧ scrollCallbacks (router w) = [].

(** Events that are neither a status emission nor a write to the
    location. *)
Definition quiet (events : list Event) : Prop :=
  statuses_emitted events = [] ∧ writes events = [].

(** Every operation of the public interface, the unsubscribe functions
    and the two window listeners, as one type of calls. *)
Inductive Call : Type :=
| CallPush (newPath : string)
| CallReplace (newPath : string)
| CallCurrentRoute
| CallPreviousRoute
| CallGetRouteState
| CallGetTypedParams
| CallGetTypedQuery
| CallSaveScrollPosition (p : option string)
| CallRestoreScrollPosition (p : option string)
| CallClearScrollHistory
| CallGo (n : Z)
| CallBack
| CallForward
| CallBeforeEach (callback : option Guard)
| CallAfterEach (callback : option Hook)
| CallOnStatus (callback : option StatusCallback)
| CallOnScroll (callback : option ScrollCallback)
| CallDispose (d : Disposer)
| CallDestroy
| EventHashChange
| EventScroll.

(** Making a call and dropping its answer. *)
Definition perform (c : Call) : M unit :=
  match c with
  | CallPush newPath => push newPath ;; mret tt
  | CallReplace newPath => replace newPath ;; mret tt
  | CallCurrentRoute => currentRoute ;; mret tt
  | CallPreviousRoute => previousRoute ;; mret tt
  | CallGetRouteState => getRouteState ;; mret tt
  | CallGetTypedParams => getTypedParams ;; mret tt
  | CallGetTypedQuery => getTypedQuery ;; mret tt
  | CallSaveScrollPosition p => saveScrollPosition p
  | CallRestoreScrollPosition p => restoreScrollPosition p
  | CallClearScrollHistory => clearScrollHistory
  | CallGo n => go n
  | CallBack => back
  | CallForward => forward
  | CallBeforeEach callback => beforeEach callback ;; mret tt
  | CallAfterEach callback => afterEach callback ;; mret tt
  | CallOnStatus callback => onStatus callback ;; mret tt
  | CallOnScroll callback => onScroll callback ;; mret tt
  | CallDispose d => dispose d
  | CallDestroy => destroy
  | EventHashChange => handleRouteChange
  | EventScroll => updateScrollTracking
  end.

(** A guard that completes without signalling failure. *)
Definition passes (o : GuardOutcome) : bool :=
  match o with
  | Returns | Fulfils _ => true
  | _ => false
  end.

(** The world in which [handleRouteChange] asks [canNavigate]: the status
    event is out and the route of the new address is on the heap. *)
Definition arrived (built : Route) (w : World) : World := proposed built w.

(* ===================================================================== *)
(** * Observations for the further properties                             *)
(* ===================================================================== *)

(** The values a list of pairs gives to one key, in the order of the
    list. *)
Definition values_of (k : string) (params : list (string * string)) : list string :=
  omap (fun kv => if String.eqb kv.1 k then Some kv.2 else None) params.

(** The calls of before-guards, of status callbacks and of scroll
    callbacks in a list of events, each with what it was called with. *)
Definition guards_called (events : list Event) : list (nat * loc * loc) :=
  omap (fun e => match e with
                 | CalledGuard ref to from => Some (ref, to, from)
                 | _ => None
                 end) events.

Definition statuses_called (events : list Event) : list (nat * string * string) :=
  omap (fun e => match e with
                 | CalledStatus ref status type _ _ => Some (ref, status, type)
                 | _ => None
                 end) events.

Definition scrolls_called (events : list Event) : list (nat * ScrollEvent.t) :=
  omap (fun e => match e with
                 | CalledScroll ref payload => Some (ref, payload)
                 | _ => None
                 end) events.

(** The faults written to the console in a list of events. *)
Definition errors_reported (events : list Event) : list Exception :=
  omap (fun e => match e with
                 | ConsoleError _ error => Some error
                 | _ => None
                 end) events.

(** More callbacks for the examples. *)
Module Fixture.

(** [() => new Promise(() => {})] *)
Definition stall : Guard := mkGuard 8 (fun _ _ => NeverSettles).

(** [() => { throw new Error('not now') }] *)
Definition refuse : Guard := mkGuard 9 (fun _ _ => Throws (Value (Some "not now"))).

(** [(e) => { e.winX = e.winX + 1 }] and [(e) => { throw null }] *)
Definition shift_winX : ScrollCallback :=
  mkScrollCallback 10 (fun e =>
    (ScrollEvent.mk (ScrollEvent.type e) (ScrollEvent.winX e + 1) (ScrollEvent.winY e)
                    (ScrollEvent.timestamp e) (ScrollEvent.route e) (ScrollEvent.custom e),
     None)).
Definition faulty_scroll : ScrollCallback := mkScrollCallback 11 (fun e => (e, Some Nullish)).

(** [() => { throw new Error('status') }] *)
Definition faulty_status : StatusCallback :=
  mkStatusCallback 12 (fun _ _ _ _ => Some (Value (Some "status"))).

(** The router with a faulty and a quiet callback in the status and in
    the scroll registry. *)
Definition observed : World :=
  exec (onScroll (Some shift_winX))
    (exec (onScroll (Some faulty_scroll))
       (exec (onStatus (Some Sample.status_sink))
          (exec (onStatus (Some faulty_status)) Sample.fresh))).

(** The router with a guard that never settles. *)
Definition stalled : World := exec (beforeEach (Some stall)) Sample.fresh.

(** The router after teardown. *)
Definition gone : World := exec destroy Sample.hooked.

(** The router with a guard that throws and, registered after it, one
    that lets everything pass. *)
Definition doubly_guarded : World :=
  exec (beforeEach (Some Sample.allow)) (exec (beforeEach (Some refuse)) Sample.fresh).

End Fixture.

(* ===================================================================== *)
(** * The monad                                                           *)
(* ===================================================================== *)

Section MonadFacts.
Context {A B : Type}.

Lemma bind_run (m : M A) (f : A -> M B) (w : World) :
  (m ≫= f) w = match m w with
               | (Ok a, w') => f a w'
               | (Throw e, w') => (Throw e, w')
               | (Hang, w') => (Hang, w')
               end.
Proof. reflexivity. Qed.

Lemma bind_ok (m : M A) (f : A -> M B) (w w' : World) (a : A) :
  m w = (Ok a, w') -> (m ≫= f) w = f a w'.
Proof. intros H. rewrite bind_run, H. reflexivity. Qed.

Lemma bind_throw (m : M A) (f : A -> M B) (w w' : World) (e : Exception) :
  m w = (Throw e, w') -> (m ≫= f) w = (Throw e, w').
Proof. intros H. rewrite bind_run, H. reflexivity. Qed.

Lemma bind_hang (m : M A) (f : A -> M B) (w w' : World) :
  m w = (Hang, w') -> (m ≫= f) w = (Hang, w').
Proof. intros H. rewrite bind_run, H. reflexivity. Qed.

Lemma bind_ret (a : A) (f : A -> M B) (w : World) : (mret a ≫= f) w = f a w.
Proof. reflexivity. Qed.

End MonadFacts.

Lemma logged_nil (w : World) : logged [] w = w.
Proof. destruct w. unfold logged. simpl. by rewrite app_nil_r. Qed.

Lemma logged_logged (a b : list Event) (w : World) :
  logged b (logged a w) = logged (a ++ b)%list w.
Proof. unfold logged. simpl. by rewrite app_assoc. Qed.

Lemma record_logged (e : Event) (w : World) : record e w = logged [e] w.
Proof. reflexivity. Qed.

(* ===================================================================== *)
(** * Event system                                                        *)
(* ===================================================================== *)

(** The loop of [emitStatus] only records events. *)
Lemma status_loop_run (status type : string) (callbacks : list StatusCallback) (w : World) :
  forEach (fun callback =>
             try_catch (call_status status type callback)
                       (fun error => console_error "Status callback error:" error))
          callbacks w
  = (Ok tt,
     logged (flat_map (fun callback =>
                CalledStatus (status_ref callback) status type
                             (route (router w)) (prevRoute (router w))
                :: fault_report "Status callback error:"
                     (status_run callback status type
                        (deref (heap w) (route (router w)))
                        (deref (heap w) (prevRoute (router w)))))
              callbacks) w).
Proof.
  revert w. induction callbacks as [|callback rest IH]; intros w.
  - simpl. by rewrite logged_nil.
  - cbn [forEach flat_map].
    rewrite bind_run.
    unfold try_catch at 1, call_status at 1.
    rewrite bind_run. cbn [get]. rewrite bind_run. cbn [modify].
    unfold completion.
    destruct (status_run callback status type _ _) as [e|] eqn:E; cbn.
    + rewrite IH. cbn. rewrite !record_logged, !logged_logged. reflexivity.
    + rewrite IH. cbn. rewrite !record_logged, !logged_logged. reflexivity.
Qed.

Lemma emitStatus_run (status type : string) (w : World) :
  emitStatus status type w = (Ok tt, logged (status_trace status type w) w).
Proof.
  unfold emitStatus. rewrite bind_run. cbn [modify].
  rewrite bind_run. cbn [get]. rewrite status_loop_run.
  cbn. rewrite record_logged, logged_logged. reflexivity.
Qed.

Lemma emitScroll_loop_run (callbacks : list ScrollCallback) (payload : ScrollEvent.t)
      (w : World) :
  emitScroll_loop callbacks payload w
  = (Ok (scroll_final callbacks payload), logged (scroll_calls callbacks payload) w).
Proof.
  revert payload w. induction callbacks as [|callback rest IH]; intros payload w.
  - simpl. by rewrite logged_nil.
  - cbn [emitScroll_loop scroll_calls scroll_final].
    rewrite bind_run. cbn [modify].
    destruct (scroll_run callback payload) as [payload' [e|]] eqn:E;
      rewrite bind_run; cbn; rewrite IH, !record_logged, !logged_logged; reflexivity.
Qed.

Lemma emitScroll_run (payload : ScrollEvent.t) (w : World) :
  emitScroll payload w
  = (Ok (scroll_final (scrollCallbacks (router w)) payload),
     logged (scroll_trace payload w) w).
Proof.
  unfold emitScroll. rewrite bind_run. cbn [modify].
  rewrite bind_run. cbn [get]. rewrite emitScroll_loop_run.
  cbn. rewrite record_logged, logged_logged. reflexivity.
Qed.

(* ===================================================================== *)
(** * Scroll restoration system                                           *)
(* ===================================================================== *)

Lemma captureScroll_run (routePath : string) (w : World) :
  captureScroll routePath w = (Ok tt, after_capture routePath w).
Proof.
  unfold captureScroll. rewrite bind_run. cbn [get].
  rewrite bind_run, emitScroll_run. reflexivity.
Qed.

Lemma restoreScroll_run (routePath : string) (w : World) :
  restoreScroll routePath w
  = (Ok tt, on_env (fun e => set_frames (frames e ++ restore_frames routePath w)%list e) w).
Proof.
  unfold restoreScroll, restore_frames. rewrite bind_run. cbn [get].
  destruct (scrollPositions (router w) !! routePath) as [saved|]; cbn; [reflexivity|].
  unfold on_env, set_frames. rewrite app_nil_r. by destruct w as [r h [] l].
Qed.

(* ===================================================================== *)
(** * Navigation guard system                                             *)
(* ===================================================================== *)

Lemma call_guards_run (newRoute : loc) (callbacks : list Guard) (w : World) :
  call_guards newRoute callbacks w
  = (Ok (map (fun callback => guard_run callback (deref (heap w) newRoute)
                                        (deref (heap w) (route (router w)))) callbacks),
     logged (map (fun callback =>
                    CalledGuard (guard_ref callback) newRoute (route (router w)))
                 callbacks) w).
Proof.
  revert w. induction callbacks as [|callback rest IH]; intros w.
  - simpl. by rewrite logged_nil.
  - cbn [call_guards map]. rewrite bind_run. cbn [get].
    rewrite bind_run. cbn [modify]. rewrite bind_run, IH. cbn.
    rewrite record_logged, logged_logged. reflexivity.
Qed.

(** The guard phase up to the settlement of the guards. *)
Lemma canNavigate_unfold (newRoute : loc) (w : World) :
  destroyed (router w) = false ->
  canNavigate newRoute w
  = let w' := after_guards newRoute w in
    match first_rejection (guard_outcomes newRoute w) with
    | Some (_, Nullish) =>
        (Throw TypeError,
         logged [ConsoleError "Navigation cancelled by guard:" (UserThrown Nullish)] w')
    | Some (_, Value m) =>
        let w'' := logged [ConsoleError "Navigation cancelled by guard:"
                                        (UserThrown (Value m))] w' in
        (Ok false,
         logged (status_trace (msg_cancelled ++ default "undefined" m) "error" w'') w'')
    | None =>
        if existsb pending (guard_outcomes newRoute w) then (Hang, w') else (Ok true, w')
    end.
Proof.
  intros Hlive. unfold canNavigate. rewrite bind_run. cbn [get]. rewrite Hlive.
  assert (Hcap :
    (match path (deref (heap w) (route (router w))) with
     | EmptyString => mret tt
     | routePath => captureScroll routePath
     end) w
    = (Ok tt, match path (deref (heap w) (route (router w))) with
              | EmptyString => w
              | routePath => after_capture routePath w
              end)).
  { destruct (path (deref (heap w) (route (router w)))); [reflexivity|].
    apply captureScroll_run. }
  rewrite bind_run, Hcap. clear Hcap.
  set (w1 := match path (deref (heap w) (route (router w))) with
             | EmptyString => w
             | routePath => after_capture routePath w
             end).
  assert (Hr : route (router w1) = route (router w) ∧ heap w1 = heap w
               ∧ beforeListeners (router w1) = beforeListeners (router w)).
  { subst w1. destruct (path (deref (heap w) (route (router w)))); repeat split. }
  destruct Hr as (Hroute & Hheap & Hbefore).
  rewrite bind_run. cbn [get]. rewrite bind_run, call_guards_run.
  assert (Houts :
    map (fun callback => guard_run callback (deref (heap w1) newRoute)
                                   (deref (heap w1) (route (router w1))))
        (beforeListeners (router w1)) = guard_outcomes newRoute w).
  { unfold guard_outcomes. by rewrite Hroute, Hheap, Hbefore. }
  rewrite Houts. clear Houts.
  change (logged _ w1) with (after_guards newRoute w).
  unfold try_catch, await_all.
  destruct (first_rejection (guard_outcomes newRoute w)) as [[t [|m]]|].
  - reflexivity.
  - rewrite bind_run. cbn [throw]. unfold console_error.
    rewrite bind_run. cbn [modify]. rewrite record_logged.
    destruct m as [m|]; cbn [message_of default]; rewrite bind_ret, bind_run, emitStatus_run;
      reflexivity.
  - destruct (existsb pending (guard_outcomes newRoute w)); reflexivity.
Qed.

Lemma canNavigate_destroyed (newRoute : loc) (w : World) :
  destroyed (router w) = true -> canNavigate newRoute w = (Ok false, w).
Proof. intros H. unfold canNavigate. rewrite bind_run. cbn [get]. by rewrite H. Qed.

(** The loop over the after-hooks only records events: a hook that throws
    is reported and the next one is called. *)
Lemma hook_loop_run (newRoute : loc) (callbacks : list Hook) (w : World) :
  forEach (fun callback =>
             try_catch (call_hook newRoute callback)
                       (fun error => console_error "After hook error:" error))
          callbacks w
  = (Ok tt,
     logged (flat_map (fun callback =>
                CalledHook (hook_ref callback) newRoute (prevRoute (router w))
                :: fault_report "After hook error:"
                     (hook_run callback (deref (heap w) newRoute)
                               (deref (heap w) (prevRoute (router w)))))
              callbacks) w).
Proof.
  revert w. induction callbacks as [|callback rest IH]; intros w.
  - simpl. by rewrite logged_nil.
  - cbn [forEach flat_map].
    rewrite bind_run.
    unfold try_catch at 1, call_hook at 1.
    rewrite bind_run. cbn [get]. rewrite bind_run. cbn [modify].
    unfold completion.
    destruct (hook_run callback _ _) as [e|] eqn:E; cbn;
      rewrite IH; cbn; rewrite !record_logged, !logged_logged; reflexivity.
Qed.

Lemma completeNavigation_run (newRoute : loc) (w : World) :
  destroyed (router w) = false ->
  completeNavigation newRoute w = (Ok tt, after_commit newRoute w).
Proof.
  intros Hlive. unfold completeNavigation. rewrite bind_run. cbn [get]. rewrite Hlive.
  rewrite bind_run. cbn [alloc]. rewrite bind_run. cbn [modify].
  rewrite bind_run. cbn [modify]. rewrite bind_run. cbn [get].
  rewrite bind_run, hook_loop_run. rewrite bind_run. cbn [get].
  rewrite bind_run, restoreScroll_run, emitStatus_run. reflexivity.
Qed.

Lemma completeNavigation_destroyed (newRoute : loc) (w : World) :
  destroyed (router w) = true -> completeNavigation newRoute w = (Ok tt, w).
Proof. intros H. unfold completeNavigation. rewrite bind_run. cbn [get]. by rewrite H. Qed.



Lemma deref_alloc (h : list Route) (r : Route) (l : loc) :
  l < length h -> deref (h ++ [r])%list l = deref h l.
Proof. intros H. unfold deref. by rewrite lookup_app_l. Qed.

Lemma deref_fresh (h : list Route) (r : Route) : deref (h ++ [r])%list (length h) = r.
Proof.
  unfold deref. rewrite lookup_app_r by lia. by rewrite Nat.sub_diag.
Qed.

(* ===================================================================== *)
(** * Commit                                                              *)
(* ===================================================================== *)



(* ===================================================================== *)
(** * Address changes                                                     *)
(* ===================================================================== *)

Lemma runFrame_anchor (w : World) :
  getElementById (env w) (JsString.slice1 (location_hash (env w))) = true ->
  log (runFrame AnchorFrame w).2
  = (log w ++ [ScrolledIntoView (JsString.slice1 (location_hash (env w)))])%list.
Proof.
  intros H. unfold runFrame. rewrite bind_run. cbn [get]. by rewrite H.
Qed.

(** C8.  When the hash does not start with the routing marker and an
    element carries the rest of the hash as its id, [handleRouteChange] only
    queues the frame that scrolls to that element: no route object is built,
    no guard, hook or status callback is called, and [route], [prevRoute]
    and [lastHash] stay as they were. *)
Theorem native_anchor_bypass (w : World) :
  JsString.startsWith (location_hash (env w)) "#!/" = false ->
  getElementById (env w) (JsString.slice1 (location_hash (env w))) = true ->
  let w' := exec handleRouteChange w in
  eval handleRouteChange w = Ok tt
  ∧ router w' = router w
  ∧ heap w' = heap w
  ∧ log w' = log w
  ∧ location_hash (env w') = location_hash (env w)
  ∧ frames (env w')
    = (if destroyed (router w) then frames (env w) else frames (env w) ++ [AnchorFrame])%list
  ∧ log (exec (runFrame AnchorFrame) w')
    = (log w ++ [ScrolledIntoView (JsString.slice1 (location_hash (env w)))])%list.
Proof.
  intros Hmarker Helement w'. subst w'. unfold exec, eval, handleRouteChange.
  rewrite bind_run. cbn [get].
  destruct (destroyed (router w)) eqn:Hd.
  - cbn [mret M_ret fst snd]. repeat split. by apply runFrame_anchor.
  - unfold isNativeAnchor. rewrite Hmarker, Helement. cbn [negb andb].
    cbn [requestAnimationFrame modify fst snd]. repeat split.
    rewrite runFrame_anchor by exact Helement. reflexivity.
Qed.

Lemma native_anchor_bypass_witness :
  route (router (exec handleRouteChange Sample.at_anchor)) = route (router Sample.at_anchor)
  ∧ log (exec handleRouteChange Sample.at_anchor) = log Sample.at_anchor.
Proof.
  pose proof (native_anchor_bypass Sample.at_anchor eq_refl eq_refl) as H.
  cbv zeta in H. destruct H as (_ & Hr & _ & Hl & _).
  split; [by rewrite Hr | exact Hl].
Defined.

Lemma rollbackHash_not_anchor (e : Environment) (previous : Route) :
  isNativeAnchor e (rollbackHash_of previous) = false.
Proof. unfold rollbackHash_of. destruct (path previous); reflexivity. Qed.

(** The guard phase changes neither [route] nor [prevRoute] nor the
    objects on the heap, writes nothing to the location, and leaves the
    latch alone, however it ends. *)
Lemma canNavigate_frame (newRoute : loc) (w : World) :
  let w' := (canNavigate newRoute w).2 in
  route (router w') = route (router w)
  ∧ prevRoute (router w') = prevRoute (router w)
  ∧ destroyed (router w') = destroyed (router w)
  ∧ lastHash (router w') = lastHash (router w)
  ∧ heap w' = heap w
  ∧ env w' = env w.
Proof.
  destruct (destroyed (router w)) eqn:Hd.
  - by rewrite canNavigate_destroyed.
  - rewrite canNavigate_unfold by done. cbv zeta.
    assert (H : let w1 := after_guards newRoute w in
                route (router w1) = route (router w)
                ∧ prevRoute (router w1) = prevRoute (router w)
                ∧ destroyed (router w1) = destroyed (router w)
                ∧ lastHash (router w1) = lastHash (router w)
                ∧ heap w1 = heap w ∧ env w1 = env w).
    { unfold after_guards.
      destruct (path (deref (heap w) (route (router w)))); repeat split. }
    cbv zeta in H. rewrite Hd in H.
    destruct (first_rejection _) as [[t [|m]]|]; [exact H | exact H |].
    destruct (existsb pending _); exact H.
Qed.

(** C5.  A before-guard that rejects without a reason, as
    [() => Promise.reject()] does, fails the guard phase of an address
    change, and nothing is rolled back: with [about] current and [home]
    previous, the change to [#!/admin] ends in the type error of reading
    [message] off the rejection, no write to the location is made, the hash
    stays [#!/admin] where the rollback would put [#!/home], and [lastHash]
    stays [#!/about], so hash and recorded address differ. *)
Theorem hashchange_rejected_without_reason :
  let w0 := exec (beforeEach (Some Sample.reject_bare))
                 (exec (push "/about") Sample.fresh) in
  let w := on_env (set_location_hash "#!/admin") w0 in
  let w' := exec handleRouteChange w in
  path (deref (heap w) (route (router w))) = "about"
  ∧ path (deref (heap w) (prevRoute (router w))) = "home"
  ∧ route_here w = Some (mkRoute "admin" ∅ ∅ ∅ ∅)
  ∧ guard_outcomes (length (heap w)) (arrived (mkRoute "admin" ∅ ∅ ∅ ∅) w)
    = [Rejects 0 Nullish]
  ∧ eval handleRouteChange w = Throw TypeError
  ∧ writes (log w') = writes (log w)
  ∧ location_hash (env w') = "#!/admin"
  ∧ rollbackHash_of (deref (heap w') (prevRoute (router w'))) = "#!/home"
  ∧ lastHash (router w') = "#!/about"
  ∧ path (deref (heap w') (route (router w'))) = "about".
Proof. vm_compute. repeat split. Qed.

(* ===================================================================== *)
(** * Route getters                                                       *)
(* ===================================================================== *)

Lemma assign_fresh (w : World) (original : loc) (f : Route -> Route) :
  allocated w ->
  let w1 := on_heap (fun h => h ++ [deref (heap w) original])%list w in
  let w2 := exec (assign (length (heap w)) f) w1 in
  deref (heap w2) (length (heap w)) = f (deref (heap w) original)
  ∧ router w2 = router w
  ∧ deref (heap w2) (route (router w2)) = deref (heap w) (route (router w))
  ∧ deref (heap w2) (prevRoute (router w2)) = deref (heap w) (prevRoute (router w)).
Proof.
  intros [Hroute Hprev] w1 w2. subst w2 w1. unfold exec, assign. cbn.
  rewrite lookup_app_r by lia. rewrite Nat.sub_diag. cbn.
  assert (Hother : ∀ l, l < length (heap w) ->
            deref (<[length (heap w) := f (deref (heap w) original)]>
                     (heap w ++ [deref (heap w) original])%list) l
            = deref (heap w) l).
  { intros l Hl. unfold deref.
    rewrite list_lookup_insert_ne by lia. by rewrite lookup_app_l. }
  repeat split; [|by apply Hother|by apply Hother].
  unfold deref. rewrite list_lookup_insert_eq; [reflexivity|].
  rewrite length_app. cbn. lia.
Qed.

Lemma spread_is_detached (w : World) (original : loc) :
  allocated w ->
  detached_copy w original (length (heap w))
                (on_heap (fun h => h ++ [deref (heap w) original])%list w).
Proof.
  intros Hw. unfold detached_copy.
  split; [cbn; rewrite length_app; cbn; lia|].
  split; [cbn; apply deref_fresh|].
  split; [reflexivity|].
  intros f. by apply assign_fresh.
Qed.

Lemma currentRoute_run (w : World) :
  currentRoute w
  = (Ok (length (heap w)),
     on_heap (fun h => h ++ [deref (heap w) (route (router w))])%list w).
Proof. reflexivity. Qed.

Lemma previousRoute_run (w : World) :
  previousRoute w
  = (Ok (length (heap w)),
     on_heap (fun h => h ++ [deref (heap w) (prevRoute (router w))])%list w).
Proof. reflexivity. Qed.

Lemma getRouteState_run (w : World) :
  getRouteState w
  = (Ok (length (heap w), S (length (heap w))),
     on_heap (fun h => (h ++ [deref (heap w) (route (router w))])
                       ++ [deref (heap w ++ [deref (heap w) (route (router w))])
                                 (prevRoute (router w))])%list w).
Proof.
  unfold getRouteState. rewrite bind_run, currentRoute_run.
  rewrite bind_run, previousRoute_run. cbn.
  rewrite length_app. cbn. by rewrite Nat.add_1_r.
Qed.

(** Two objects allocated one after the other from the router's own
    route objects: each holds the fields of its original, and assigning to
    one changes neither the other nor the router's objects. *)
Lemma assign_among_two (w : World) (a b : loc) (f : Route -> Route) :
  allocated w ->
  let w2 := on_heap (fun h => (h ++ [deref (heap w) a]) ++ [deref (heap w) b])%list w in
  let wa := exec (assign (length (heap w)) f) w2 in
  let wb := exec (assign (S (length (heap w))) f) w2 in
  (deref (heap wa) (length (heap w)) = f (deref (heap w) a)
   ∧ deref (heap wa) (S (length (heap w))) = deref (heap w) b
   ∧ router wa = router w
   ∧ deref (heap wa) (route (router wa)) = deref (heap w) (route (router w))
   ∧ deref (heap wa) (prevRoute (router wa)) = deref (heap w) (prevRoute (router w)))
  ∧ (deref (heap wb) (S (length (heap w))) = f (deref (heap w) b)
     ∧ deref (heap wb) (length (heap w)) = deref (heap w) a
     ∧ router wb = router w
     ∧ deref (heap wb) (route (router wb)) = deref (heap w) (route (router w))
     ∧ deref (heap wb) (prevRoute (router wb)) = deref (heap w) (prevRoute (router w))).
Proof.
  intros [Hroute Hprev]. cbv zeta. unfold exec, assign. cbn [modify snd on_heap heap router].
  set (h2 := ((heap w ++ [deref (heap w) a]) ++ [deref (heap w) b])%list).
  assert (Hlen : length h2 = S (S (length (heap w))))
    by (unfold h2; rewrite !length_app; cbn; lia).
  assert (Ha : h2 !! length (heap w) = Some (deref (heap w) a)).
  { unfold h2. rewrite lookup_app_l by (rewrite length_app; cbn; lia).
    rewrite lookup_app_r by lia. by rewrite Nat.sub_diag. }
  assert (Hb : h2 !! S (length (heap w)) = Some (deref (heap w) b)).
  { unfold h2. rewrite lookup_app_r by (rewrite length_app; cbn; lia).
    rewrite length_app. cbn. by replace (S (length (heap w)) - (length (heap w) + 1)) with 0
      by lia. }
  assert (Hold : ∀ l, l < length (heap w) -> h2 !! l = heap w !! l).
  { intros l Hl. unfold h2. rewrite lookup_app_l by (rewrite length_app; cbn; lia).
    by rewrite lookup_app_l. }
  unfold loc in *. rewrite Ha, Hb. unfold deref.
  split.
  - rewrite list_lookup_insert_eq by lia.
    rewrite !list_lookup_insert_ne by lia. rewrite Hb, !Hold by done. done.
  - rewrite list_lookup_insert_eq by lia.
    rewrite !list_lookup_insert_ne by lia. rewrite Ha, !Hold by done. done.
Qed.

(** C10.  [currentRoute()], [previousRoute()] and [getRouteState()] each
    answer with objects allocated by the call: they carry the fields of the
    router's own route objects, and assigning to a field of one of them
    changes neither [route] nor [prevRoute] nor the objects these point to.
    A second call allocates again.  The two objects of [getRouteState()] are
    distinct, [to] holds the fields of the current route and [from] those of
    the previous one in the world the call returns, and assigning to one of
    them does not change the other. *)
Theorem getters_return_copies (w : World) :
  allocated w ->
  (∃ l w1, currentRoute w = (Ok l, w1)
           ∧ detached_copy w (route (router w)) l w1 ∧ allocated w1
           ∧ ∃ l' w2, currentRoute w1 = (Ok l', w2) ∧ l' ≠ l)
  ∧ (∃ l w1, previousRoute w = (Ok l, w1)
             ∧ detached_copy w (prevRoute (router w)) l w1 ∧ allocated w1
             ∧ ∃ l' w2, previousRoute w1 = (Ok l', w2) ∧ l' ≠ l)
  ∧ (∃ to from w2, getRouteState w = (Ok (to, from), w2)
                   ∧ to ≠ from
                   ∧ detached_copy w (route (router w)) to w2
                   ∧ detached_copy w (prevRoute (router w)) from w2
                   ∧ allocated w2
                   ∧ (∀ f, deref (heap (exec (assign to f) w2)) from
                           = deref (heap w) (prevRoute (router w)))
                   ∧ (∀ f, deref (heap (exec (assign from f) w2)) to
                           = deref (heap w) (route (router w)))).
Proof.
  intros Hw.
  assert (Hgrow : ∀ r, allocated (on_heap (fun h => h ++ [r])%list w)).
  { intros r. destruct Hw as [H1 H2]. unfold allocated. cbn.
    rewrite length_app. cbn. lia. }
  split; [|split].
  - exists (length (heap w)), (on_heap (fun h => h ++ [deref (heap w) (route (router w))])%list w).
    split; [reflexivity|]. split; [by apply spread_is_detached|].
    split; [apply Hgrow|].
    eexists _, _. split; [reflexivity|]. cbn. rewrite length_app. cbn. lia.
  - exists (length (heap w)),
           (on_heap (fun h => h ++ [deref (heap w) (prevRoute (router w))])%list w).
    split; [reflexivity|]. split; [by apply spread_is_detached|].
    split; [apply Hgrow|].
    eexists _, _. split; [reflexivity|]. cbn. rewrite length_app. cbn. lia.
  - pose proof Hw as [Hroute Hprev].
    exists (length (heap w)), (S (length (heap w))),
           (on_heap (fun h => (h ++ [deref (heap w) (route (router w))])
                              ++ [deref (heap w) (prevRoute (router w))])%list w).
    split.
    { rewrite getRouteState_run. by rewrite deref_alloc. }
    split; [lia|].
    assert (Hlen : length ((heap w ++ [deref (heap w) (route (router w))])
                           ++ [deref (heap w) (prevRoute (router w))])%list
                   = S (S (length (heap w))))
      by (rewrite !length_app; cbn; lia).
    split.
    { unfold detached_copy. cbn [on_heap heap router]. rewrite Hlen.
      split; [lia|].
      split; [by rewrite deref_alloc by (rewrite length_app; cbn; lia); rewrite deref_fresh|].
      split; [reflexivity|]. intros f.
      destruct (assign_among_two w (route (router w)) (prevRoute (router w)) f Hw)
        as [(H1 & _ & H2 & H3 & H4) _].
      done. }
    split.
    { unfold detached_copy. cbn [on_heap heap router]. rewrite Hlen.
      split; [lia|].
      split.
      { replace (S (length (heap w)))
          with (length (heap w ++ [deref (heap w) (route (router w))])%list)
          by (rewrite length_app; cbn; lia).
        by rewrite deref_fresh. }
      split; [reflexivity|]. intros f.
      destruct (assign_among_two w (route (router w)) (prevRoute (router w)) f Hw)
        as [_ (H1 & _ & H2 & H3 & H4)].
      done. }
    split.
    { unfold allocated. cbn [on_heap heap router]. rewrite Hlen. lia. }
    split; intros f;
      destruct (assign_among_two w (route (router w)) (prevRoute (router w)) f Hw)
        as [(_ & H1 & _) (_ & H2 & _)]; done.
Qed.

(** On a router whose current and previous route differ. *)
Lemma getters_return_copies_witness :
  let w := exec (push "/about") Sample.hooked in
  ∃ to from w2, getRouteState w = (Ok (to, from), w2)
                ∧ path (deref (heap w2) to) = "about"
                ∧ path (deref (heap w2) from) = "home"
                ∧ path (deref (heap (exec (assign to (with_path "x")) w2))
                              (route (router w2))) = "about".
Proof.
  cbv zeta.
  destruct (getters_return_copies (exec (push "/about") Sample.hooked)
              ltac:(unfold allocated; vm_compute; lia))
    as (_ & _ & to & from & w2 & Hcall & _ & (_ & Hto & Hr & Hassign) & (_ & Hfrom & _) & _).
  exists to, from, w2. split; [exact Hcall|].
  split; [rewrite Hto; vm_compute; reflexivity|].
  split; [rewrite Hfrom; vm_compute; reflexivity|].
  destruct (Hassign (with_path "x")) as (_ & Hr2 & Hcur & _).
  cbv zeta in Hr2, Hcur. rewrite <- Hr in Hr2. rewrite <- Hr2, Hcur.
  vm_compute. reflexivity.
Defined.

(** The invariant holds from the start and through every navigation. *)
Lemma allocated_initial (e : Environment) (r : Route) : allocated (initial e r).
Proof. unfold allocated. cbn. lia. Qed.

(* ===================================================================== *)
(** * Programmatic navigation                                             *)
(* ===================================================================== *)

Lemma returned_run {A} (r : option A) (w : World) :
  returned r w = match r with
                 | Some a => (Ok a, w)
                 | None => (Throw TypeError, w)
                 end.
Proof. by destruct r. Qed.

Lemma programmatic_guard_phase_run (newPath : string) (w : World) :
  programmatic_guard_phase newPath w
  = match route_here w with
    | Some built => canNavigate (length (heap w)) (proposed (candidate_of newPath built) w)
    | None => (Throw TypeError, unbuilt w)
    end.
Proof.
  unfold programmatic_guard_phase.
  rewrite bind_run, emitStatus_run. rewrite bind_run. cbn [get].
  rewrite bind_run, returned_run.
  change (makeRoute _ _) with (route_here w).
  destruct (route_here w) as [built|]; [|reflexivity].
  rewrite bind_run. reflexivity.
Qed.

Lemma changeHash_run (newPath : string) (replace : bool) (w : World) :
  changeHash newPath replace w
  = match route_here w with
    | None => (Throw TypeError, unbuilt w)
    | Some built =>
        match canNavigate (length (heap w)) (proposed (candidate_of newPath built) w) with
        | (Ok true, w2) =>
            (completeNavigation (length (heap w)) ;; mret true)
              (on_router (set_lastHash (safePath_of newPath))
                 (on_env (set_location_hash
                            (if replace
                             then hash_of_url (JsString.cut_at "#" (location_href (env w2))
                                               ++ safePath_of newPath)
                             else hash_of_fragment (safePath_of newPath)))
                    (record (if replace
                             then LocationReplace
                                    (JsString.cut_at "#" (location_href (env w2))
                                     ++ safePath_of newPath)
                             else WroteHash (safePath_of newPath)) w2)))
        | (Ok false, w2) => (Ok false, w2)
        | (Throw e, w2) => (Throw e, w2)
        | (Hang, w2) => (Hang, w2)
        end
    end.
Proof.
  unfold changeHash.
  rewrite bind_run, emitStatus_run. rewrite bind_run. cbn [get].
  rewrite bind_run, returned_run.
  change (makeRoute _ _) with (route_here w).
  destruct (route_here w) as [built|]; [|reflexivity].
  rewrite (bind_run (alloc _)). cbn [alloc].
  rewrite (bind_run (canNavigate _)).
  change (on_heap _ (logged _ w)) with (proposed (candidate_of newPath built) w).
  change (length (heap (logged _ w))) with (length (heap w)).
  destruct (canNavigate (length (heap w)) (proposed (candidate_of newPath built) w))
    as [[[]| |] w2]; try reflexivity.
  cbn [negb]. rewrite bind_run. cbn [get].
  destruct replace; reflexivity.
Qed.

(** When [makeRoute()] throws, a programmatic navigation ends there: the
    call rejects with the type error after the loading status, and nothing
    else has happened. *)
Lemma changeHash_unbuilt (newPath : string) (replace : bool) (w : World) :
  route_here w = None ->
  changeHash newPath replace w = (Throw TypeError, unbuilt w).
Proof. intros H. by rewrite changeHash_run, H. Qed.

(** When the guard phase answers [true] the call resolves [true] and the
    candidate, whose path is the argument without its leading slashes, is
    the current route. *)
Lemma changeHash_commits (newPath : string) (replace : bool) (w : World) (built : Route) :
  allocated w ->
  destroyed (router w) = false ->
  route_here w = Some built ->
  eval (programmatic_guard_phase newPath) w = Ok true ->
  let w' := exec (changeHash newPath replace) w in
  eval (changeHash newPath replace) w = Ok true
  ∧ route (router w') = length (heap w)
  ∧ deref (heap w') (route (router w')) = candidate_of newPath built
  ∧ path (deref (heap w') (route (router w'))) = JsString.strip_leading "/" newPath
  ∧ deref (heap w') (prevRoute (router w')) = deref (heap w) (route (router w))
  ∧ lastHash (router w') = safePath_of newPath.
Proof.
  intros [Halloc _] Hlive Hbuilt Hphase w'. subst w'. revert Hphase.
  unfold exec, eval. rewrite programmatic_guard_phase_run, changeHash_run, Hbuilt.
  pose proof (canNavigate_frame (length (heap w)) (proposed (candidate_of newPath built) w))
    as Hframe.
  cbv zeta in Hframe.
  destruct (canNavigate (length (heap w)) (proposed (candidate_of newPath built) w))
    as [[[]| |] w2]; cbn [fst snd]; try discriminate.
  intros _. cbn [snd] in Hframe.
  destruct Hframe as (Hroute & Hprevious & Hdestroyed & Hlast & Hheap & Henv).
  rewrite bind_run, completeNavigation_run by (cbn; by rewrite Hdestroyed).
  cbn [mret M_ret fst snd].
  split; [reflexivity|]. split; [reflexivity|].
  assert (Hcand : deref (heap w2 ++ [deref (heap w2) (route (router w2))])%list
                        (length (heap w))
                  = candidate_of newPath built).
  { rewrite Hheap. cbn. rewrite deref_alloc by (rewrite length_app; cbn; lia).
    apply deref_fresh. }
  split; [exact Hcand|]. split; [cbn; cbn in Hcand; by rewrite Hcand|].
  split; [|reflexivity].
  cbn. rewrite deref_fresh, Hheap, Hroute. cbn. by apply deref_alloc.
Qed.

Lemma passes_no_rejection (outcomes : list GuardOutcome) :
  forallb passes outcomes = true ->
  first_rejection outcomes = None ∧ existsb pending outcomes = false.
Proof.
  induction outcomes as [|o rest IH]; [done|].
  cbn [forallb first_rejection existsb]. intros [Ho Hrest]%andb_prop.
  destruct (IH Hrest) as [-> ->]. by destruct o.
Qed.

(** When every before-guard completes without signalling failure, the
    guard phase of a live router answers [true]. *)
Lemma canNavigate_passes (newRoute : loc) (w : World) :
  destroyed (router w) = false ->
  forallb passes (guard_outcomes newRoute w) = true ->
  canNavigate newRoute w = (Ok true, after_guards newRoute w).
Proof.
  intros Hlive Hpass. rewrite canNavigate_unfold by done.
  by destruct (passes_no_rejection _ Hpass) as [-> ->].
Qed.

(** A programmatic navigation whose guards all pass resolves [true] and
    makes the candidate current. *)
Lemma push_with_passing_guards (newPath : string) (replace : bool) (w : World)
      (built : Route) :
  allocated w ->
  destroyed (router w) = false ->
  route_here w = Some built ->
  forallb passes (guard_outcomes (length (heap w)) (proposed (candidate_of newPath built) w))
  = true ->
  let w' := exec (changeHash newPath replace) w in
  eval (changeHash newPath replace) w = Ok true
  ∧ deref (heap w') (route (router w')) = candidate_of newPath built
  ∧ path (deref (heap w') (route (router w'))) = JsString.strip_leading "/" newPath.
Proof.
  intros Hw Hlive Hbuilt Hpass.
  assert (Hphase : eval (programmatic_guard_phase newPath) w = Ok true).
  { unfold eval. rewrite programmatic_guard_phase_run, Hbuilt.
    by rewrite canNavigate_passes. }
  destruct (changeHash_commits newPath replace w built Hw Hlive Hbuilt Hphase)
    as (H1 & _ & H2 & H3 & _).
  done.
Qed.

(** C1.  [push('/dashboard?tab=x')] on a router with no guard resolves
    [true] and commits its candidate, but the path of the committed route is
    the whole argument, query included: it holds a [?], and the [tab]
    parameter is not among its [params].  Building the route from the
    address the call wrote gives the path [dashboard]. *)
Theorem push_keeps_query_in_path :
  let w' := exec (push "/dashboard?tab=x") Sample.fresh in
  let committed := deref (heap w') (route (router w')) in
  eval (push "/dashboard?tab=x") Sample.fresh = Ok true
  ∧ path committed = "dashboard?tab=x"
  ∧ JsString.contains "?" (path committed) = true
  ∧ params committed !! "tab" = None
  ∧ location_hash (env w') = "#!/dashboard?tab=x"
  ∧ path <$> makeRoute (location_hash (env w')) (location_search (env w'))
    = Some "dashboard"
  ∧ (fun r => params r !! "tab")
      <$> makeRoute (location_hash (env w')) (location_search (env w'))
    = Some (Some ["x"]).
Proof. vm_compute. repeat split. Qed.

(** A vetoed programmatic navigation: when the guard phase answers
    [false] the call resolves [false]; [route], [prevRoute], the heap and
    the whole environment are as before, and nothing was written to the
    location. *)
Lemma changeHash_vetoed (newPath : string) (replace : bool) (w : World) (built : Route) :
  route_here w = Some built ->
  eval (programmatic_guard_phase newPath) w = Ok false ->
  let w' := exec (changeHash newPath replace) w in
  eval (changeHash newPath replace) w = Ok false
  ∧ route (router w') = route (router w)
  ∧ prevRoute (router w') = prevRoute (router w)
  ∧ lastHash (router w') = lastHash (router w)
  ∧ heap w' = (heap w ++ [candidate_of newPath built])%list
  ∧ env w' = env w.
Proof.
  intros Hbuilt Hphase w'. subst w'. revert Hphase.
  unfold exec, eval. rewrite programmatic_guard_phase_run, changeHash_run, Hbuilt.
  pose proof (canNavigate_frame (length (heap w)) (proposed (candidate_of newPath built) w))
    as Hframe.
  cbv zeta in Hframe.
  destruct (canNavigate (length (heap w)) (proposed (candidate_of newPath built) w))
    as [[[]| |] w2]; cbn [fst snd]; try discriminate.
  intros _. cbn [snd] in Hframe.
  destruct Hframe as (Hroute & Hprevious & Hdestroyed & Hlast & Hheap & Henv).
  repeat split; assumption.
Qed.

Lemma quiet_app (a b : list Event) : quiet a -> quiet b -> quiet (a ++ b)%list.
Proof.
  unfold quiet, statuses_emitted, writes. intros [H1 H2] [H3 H4].
  rewrite !omap_app, H1, H2, H3, H4. done.
Qed.

Lemma quiet_scroll_calls (callbacks : list ScrollCallback) (payload : ScrollEvent.t) :
  quiet (scroll_calls callbacks payload).
Proof.
  revert payload. induction callbacks as [|callback rest IH]; intros payload; [done|].
  cbn [scroll_calls]. apply quiet_app; [|apply IH].
  by destruct (scroll_run callback payload).2.
Qed.

Lemma quiet_guard_calls (newRoute : loc) (w : World) : quiet (guard_calls newRoute w).
Proof.
  unfold guard_calls. induction (beforeListeners (router w)) as [|callback rest IH]; [done|].
  exact IH.
Qed.

Lemma status_trace_emits (status type : string) (w : World) :
  statuses_emitted (status_trace status type w) = [(status, type)]
  ∧ writes (status_trace status type w) = [].
Proof.
  unfold status_trace, statuses_emitted, writes. cbn [omap].
  induction (statusCallbacks (router w)) as [|callback rest [IH1 IH2]]; [done|].
  cbn [flat_map]. destruct (status_run callback _ _ _ _); cbn; split; assumption.
Qed.

(** The guard phase, up to the settlement of the guards, emits no status
    and writes nothing to the location. *)
Lemma after_guards_log (newRoute : loc) (w : World) :
  ∃ events, log (after_guards newRoute w) = (log w ++ events)%list ∧ quiet events.
Proof.
  unfold after_guards.
  destruct (path (deref (heap w) (route (router w)))) as [|a p].
  - exists (guard_calls newRoute w). split; [reflexivity|]. apply quiet_guard_calls.
  - eexists. split; [cbn; rewrite <- app_assoc; reflexivity|].
    apply (quiet_app (_ :: _));
      [|apply (quiet_guard_calls newRoute (after_capture (String a p) w))].
    apply (quiet_app [_]); [done|]. apply quiet_scroll_calls.
Qed.

(** A guard that fails with a value whose [message] can be read makes the
    guard phase of a live router answer [false], after an error status that
    carries the message. *)
Lemma canNavigate_vetoed (newRoute : loc) (w : World) (t : nat) (m : option string) :
  destroyed (router w) = false ->
  first_rejection (guard_outcomes newRoute w) = Some (t, Value m) ->
  let w' := (canNavigate newRoute w).2 in
  (canNavigate newRoute w).1 = Ok false
  ∧ statuses_emitted (log w')
    = (statuses_emitted (log w) ++ [(msg_cancelled +:+ default "undefined" m, "error")])%list
  ∧ writes (log w') = writes (log w).
Proof.
  intros Hlive Hrej. rewrite canNavigate_unfold by done. rewrite Hrej. cbv zeta.
  cbn [fst snd]. split; [reflexivity|].
  destruct (after_guards_log newRoute w) as (events & Hlog & Hs & Hw).
  cbn [logged log]. rewrite Hlog.
  unfold statuses_emitted, writes in *. rewrite !omap_app, Hs, Hw.
  match goal with |- context [status_trace ?s ?t ?w0] =>
    destruct (status_trace_emits s t w0) as [Hq1 Hq2] end.
  unfold statuses_emitted, writes in *. rewrite Hq1, Hq2. cbn.
  by rewrite !app_nil_r.
Qed.

(** C2.  A before-guard that rejects without a reason, as
    [() => Promise.reject()] does, does not make [push] resolve [false]:
    reading [message] off the rejection throws inside the handler of
    [canNavigate], the promise of [push] rejects with that type error, and no
    error status is emitted.  The route and the address stay as they were. *)
Theorem push_rejected_without_reason :
  let w := exec (beforeEach (Some Sample.reject_bare)) Sample.fresh in
  let w' := exec (push "/admin") w in
  eval (beforeEach (Some Sample.reject_bare)) Sample.fresh = Ok (Remove Before 3)
  ∧ route_here w = Some Sample.home
  ∧ guard_outcomes (length (heap w)) (proposed (candidate_of "/admin" Sample.home) w)
    = [Rejects 0 Nullish]
  ∧ eval (push "/admin") w = Throw TypeError
  ∧ statuses_emitted (log w') = [(msg_navigating, "loading")]
  ∧ path (deref (heap w') (route (router w'))) = "home"
  ∧ location_hash (env w') = "#!/home".
Proof. vm_compute. repeat split. Qed.

(** A programmatic navigation vetoed by a guard whose fault has a
    readable [message] resolves [false], leaves the routes and the address
    alone, and emits the error status with the message after the loading
    status. *)
Lemma push_vetoed_by_guard (newPath : string) (replace : bool) (w : World) (built : Route)
      (t : nat) (m : option string) :
  destroyed (router w) = false ->
  route_here w = Some built ->
  first_rejection (guard_outcomes (length (heap w)) (proposed (candidate_of newPath built) w))
  = Some (t, Value m) ->
  let w' := exec (changeHash newPath replace) w in
  eval (changeHash newPath replace) w = Ok false
  ∧ route (router w') = route (router w)
  ∧ prevRoute (router w') = prevRoute (router w)
  ∧ env w' = env w
  ∧ writes (log w') = writes (log w)
  ∧ statuses_emitted (log w')
    = (statuses_emitted (log w)
       ++ [(msg_navigating, "loading");
           (msg_cancelled +:+ default "undefined" m, "error")])%list.
Proof.
  intros Hlive Hbuilt Hrej.
  destruct (canNavigate_vetoed (length (heap w)) (proposed (candidate_of newPath built) w)
              t m Hlive Hrej) as (Hres & Hstatus & Hwrites).
  assert (Hphase : eval (programmatic_guard_phase newPath) w = Ok false).
  { unfold eval. by rewrite programmatic_guard_phase_run, Hbuilt. }
  destruct (changeHash_vetoed newPath replace w built Hbuilt Hphase)
    as (H1 & H2 & H3 & _ & _ & H4).
  cbv zeta. repeat split; try assumption.
  - unfold exec. rewrite changeHash_run, Hbuilt.
    destruct (canNavigate _ _) as [[[]| |] w2]; try discriminate.
    cbn [snd] in *. rewrite Hwrites. cbn [proposed on_heap logged log].
    unfold writes. rewrite omap_app.
    destruct (status_trace_emits msg_navigating "loading" w) as [_ Hq].
    unfold writes in Hq. rewrite Hq. by rewrite app_nil_r.
  - unfold exec. rewrite changeHash_run, Hbuilt.
    destruct (canNavigate _ _) as [[[]| |] w2]; try discriminate.
    cbn [snd] in *. rewrite Hstatus. cbn [proposed on_heap logged log].
    unfold statuses_emitted. rewrite omap_app.
    destruct (status_trace_emits msg_navigating "loading" w) as [Hq _].
    unfold statuses_emitted in Hq. rewrite Hq. by rewrite <- app_assoc.
Qed.

(* ===================================================================== *)
(** * Scroll capture                                                      *)
(* ===================================================================== *)

(** Every capture calls the scroll callbacks, in order, on one event
    object tagged [capture], and then stores under the path the record it
    built from the window's offsets, over whatever was stored there.  The
    stored record is not the object the callbacks were given. *)
Lemma captureScroll_stores (routePath : string) (w : World) :
  let w' := exec (captureScroll routePath) w in
  let scrollData := captured routePath w in
  eval (captureScroll routePath) w = Ok tt
  ∧ log w' = (log w ++ EmitScroll (ScrollEvent.spread "capture" scrollData)
                    :: scroll_calls (scrollCallbacks (router w))
                                    (ScrollEvent.spread "capture" scrollData))%list
  ∧ scrollPositions (router w') !! routePath = Some scrollData
  ∧ ∀ other, other ≠ routePath ->
             scrollPositions (router w') !! other = scrollPositions (router w) !! other.
Proof.
  unfold exec, eval. rewrite captureScroll_run. cbn.
  repeat split.
  - apply lookup_insert_eq.
  - intros other Hother. by apply lookup_insert_ne.
Qed.

(** C7.  A scroll callback that assigns [999] to [winY] of the capture
    event it receives is called, and the event object ends with that value;
    the record stored for the path keeps the window's own offset, [10]. *)
Theorem capture_drops_callback_assignment :
  let w := exec (onScroll (Some Sample.rewrite_winY)) Sample.fresh in
  let w' := exec (saveScrollPosition (Some "home")) w in
  let payload := ScrollEvent.spread "capture" (captured "home" w) in
  eval (saveScrollPosition (Some "home")) w = Ok tt
  ∧ log w' = (log w ++ [EmitScroll payload; CalledScroll 7 payload])%list
  ∧ ScrollEvent.winY (scroll_final (scrollCallbacks (router w)) payload) = 999%Z
  ∧ ScrollData.winY <$> scrollPositions (router w') !! "home" = Some 10%Z.
Proof. vm_compute. repeat split. Qed.

(* ===================================================================== *)
(** * Teardown                                                            *)
(* ===================================================================== *)

Lemma destroy_run (w : World) :
  destroy w
  = (Ok tt,
     mkWorld (mkRouter (route (router w)) (prevRoute (router w)) [] [] [] [] true "" ∅)
             (heap w) (set_listeners false false (env w)) (log w)).
Proof. reflexivity. Qed.

(** The latch is never unset: no call of the interface, no unsubscribe
    function and no window event turns [destroyed] back to [false]. *)
Lemma destroyed_is_a_latch (c : Call) (w : World) :
  destroyed (router w) = true -> destroyed (router (exec (perform c) w)) = true.
Proof.
  intros Hd. unfold exec.
  assert (Hch : ∀ newPath replace, destroyed (router (changeHash newPath replace w).2) = true).
  { intros newPath replace. rewrite changeHash_run.
    destruct (route_here w); [|exact Hd].
    rewrite canNavigate_destroyed by exact Hd. exact Hd. }
  destruct c; cbn [perform]; unfold push, replace, beforeEach, afterEach, onStatus, onScroll.
  - rewrite bind_run. specialize (Hch newPath false).
    destruct (changeHash newPath false w) as [[]]; exact Hch.
  - rewrite bind_run. specialize (Hch newPath true).
    destruct (changeHash newPath true w) as [[]]; exact Hch.
  - exact Hd.
  - exact Hd.
  - exact Hd.
  - exact Hd.
  - exact Hd.
  - unfold saveScrollPosition. rewrite bind_run. cbn [get]. rewrite captureScroll_run. exact Hd.
  - unfold restoreScrollPosition. rewrite bind_run. cbn [get]. rewrite restoreScroll_run. exact Hd.
  - exact Hd.
  - exact Hd.
  - exact Hd.
  - exact Hd.
  - destruct callback; [|exact Hd]. unfold addBeforeListener.
    rewrite !bind_run. cbn [get]. rewrite Hd. exact Hd.
  - destruct callback; [|exact Hd]. unfold addAfterListener.
    rewrite !bind_run. cbn [get]. rewrite Hd. exact Hd.
  - destruct callback; [|exact Hd]. unfold addStatusListener.
    rewrite !bind_run. cbn [get]. rewrite Hd. exact Hd.
  - destruct callback; [|exact Hd]. unfold addScrollListener.
    rewrite !bind_run. cbn [get]. rewrite Hd. exact Hd.
  - destruct d; [exact Hd|]. unfold dispose. rewrite bind_run. cbn [get]. rewrite Hd. exact Hd.
  - reflexivity.
  - unfold handleRouteChange. rewrite bind_run. cbn [get]. rewrite Hd. exact Hd.
  - unfold updateScrollTracking. rewrite bind_run. cbn [get]. rewrite Hd. exact Hd.
Qed.

(** After teardown a programmatic navigation still builds its candidate
    first: it resolves [false] when [makeRoute()] returns and rejects with
    the type error when that throws.  Either way it changes neither the
    closure's variables nor the environment. *)
Lemma changeHash_after_destroy (newPath : string) (replace : bool) (w : World) :
  destroyed (router w) = true ->
  let w' := exec (changeHash newPath replace) w in
  eval (changeHash newPath replace) w
  = match route_here w with
    | Some _ => Ok false
    | None => Throw TypeError
    end
  ∧ router w' = router w
  ∧ env w' = env w.
Proof.
  intros Hd. unfold exec, eval. rewrite changeHash_run.
  destruct (route_here w); [|done].
  rewrite canNavigate_destroyed by exact Hd. done.
Qed.

(** After teardown the four registrations answer with the inert
    function and register nothing; the unsubscribe functions do nothing. *)
Lemma registration_after_destroy (w : World) :
  destroyed (router w) = true ->
  (∀ callback, beforeEach callback w = (Ok Inert, w))
  ∧ (∀ callback, afterEach callback w = (Ok Inert, w))
  ∧ (∀ callback, onStatus callback w = (Ok Inert, w))
  ∧ (∀ callback, onScroll callback w = (Ok Inert, w))
  ∧ (∀ d, dispose d w = (Ok tt, w)).
Proof.
  intros Hd.
  split; [|split; [|split; [|split]]].
  - intros [callback|]; [|reflexivity].
    unfold beforeEach, addBeforeListener. rewrite bind_run. cbn [get]. by rewrite Hd.
  - intros [callback|]; [|reflexivity].
    unfold afterEach, addAfterListener. rewrite bind_run. cbn [get]. by rewrite Hd.
  - intros [callback|]; [|reflexivity].
    unfold onStatus, addStatusListener. rewrite bind_run. cbn [get]. by rewrite Hd.
  - intros [callback|]; [|reflexivity].
    unfold onScroll, addScrollListener. rewrite bind_run. cbn [get]. by rewrite Hd.
  - intros [|registry ref]; [reflexivity|].
    unfold dispose. rewrite bind_run. cbn [get]. by rewrite Hd.
Qed.

(** [saveScrollPosition] does not look at the latch: on any destroyed
    router it stores a record in the map that [destroy] emptied. *)
Lemma saveScrollPosition_ignores_latch (p : string) (w : World) :
  let w0 := exec destroy w in
  let w' := exec (saveScrollPosition (Some p)) w0 in
  destroyed (router w0) = true
  ∧ scrollPositions (router w0) !! p = None
  ∧ scrollPositions (router w') !! p = Some (captured p w0).
Proof.
  cbv zeta. unfold exec. rewrite destroy_run. cbn [snd].
  unfold saveScrollPosition. rewrite bind_run. cbn [get]. cbn [default].
  rewrite captureScroll_run. cbn. split; [reflexivity|]. split; [reflexivity|].
  apply lookup_insert_eq.
Qed.

(** C3.  After [destroy()], [saveScrollPosition('home')] still writes to
    the scroll map: the closure's state is not what teardown left.  The
    history functions are passed through as well. *)
Theorem saveScrollPosition_after_destroy :
  let w := exec destroy Sample.hooked in
  let w' := exec (saveScrollPosition (Some "home")) w in
  destroyed (router w) = true
  ∧ scrollPositions (router w) = ∅
  ∧ eval (saveScrollPosition (Some "home")) w = Ok tt
  ∧ scrollPositions (router w') !! "home" = Some (ScrollData.mk 0 10 1000 "home")
  ∧ router w' ≠ router w
  ∧ log (exec back w) = (log w ++ [HistoryBack])%list
  ∧ eval (push "/dashboard") w = Ok false
  ∧ path (deref (heap w) (route (router w))) = "home".
Proof.
  cbv zeta.
  split; [reflexivity|]. split; [reflexivity|]. split; [reflexivity|].
  split; [reflexivity|].
  split; [|split; [reflexivity|split; reflexivity]].
  intros Heq.
  assert (H : scrollPositions (router (exec (saveScrollPosition (Some "home"))
                                            (exec destroy Sample.hooked))) !! "home"
              = scrollPositions (router (exec destroy Sample.hooked)) !! "home")
    by (by rewrite Heq).
  vm_compute in H. discriminate H.
Qed.

(* ===================================================================== *)
(** * The route builder                                                   *)
(* ===================================================================== *)

Lemma split_unfold (c : ascii) (s : string) :
  JsString.split c s
  = JsString.before_first c s
    :: (if JsString.contains c s then JsString.split c (JsString.after_first c s) else []).
Proof.
  induction s as [|a r IH]; [reflexivity|].
  cbn [JsString.split JsString.before_first JsString.contains JsString.after_first].
  destruct (Ascii.eqb a c); [reflexivity|].
  rewrite IH. cbn [orb]. reflexivity.
Qed.

Lemma before_first_free (c : ascii) (s : string) :
  JsString.contains c (JsString.before_first c s) = false.
Proof.
  induction s as [|a r IH]; [reflexivity|].
  cbn [JsString.before_first]. destruct (Ascii.eqb a c) eqn:E; [reflexivity|].
  cbn [JsString.contains]. by rewrite E, IH.
Qed.

Lemma after_first_without (c : ascii) (s : string) :
  JsString.contains c s = false -> JsString.after_first c s = "".
Proof.
  induction s as [|a r IH]; [reflexivity|].
  cbn [JsString.contains JsString.after_first].
  destruct (Ascii.eqb a c); [discriminate|]. exact IH.
Qed.

(** The regular expression [/^#!\/?/], test by test. *)
Lemma raw_cases (hash : string) :
  MakeRoute.raw hash
  = match hash with
    | String a (String b r) =>
        if Ascii.eqb a "#" && Ascii.eqb b "!" then
          match r with
          | String c r' => if Ascii.eqb c "/" then r' else r
          | EmptyString => r
          end
        else hash
    | _ => hash
    end.
Proof.
  destruct hash as [|a [|b r]]; [reflexivity| |].
  - by destruct a as [[] [] [] [] [] [] [] []].
  - destruct (Ascii.eqb_spec a "#") as [->|Ha].
    + destruct (Ascii.eqb_spec b "!") as [->|Hb].
      * destruct r as [|c r]; [reflexivity|].
        destruct (Ascii.eqb_spec c "/") as [->|Hc]; [reflexivity|].
        destruct c as [[] [] [] [] [] [] [] []]; try reflexivity. by destruct Hc.
      * destruct b as [[] [] [] [] [] [] [] []]; try reflexivity. by destruct Hb.
    + destruct a as [[] [] [] [] [] [] [] []]; try reflexivity. by destruct Ha.
Qed.

(** [makeRoute] returns when both calls of [paramsToObj] return, and
    then the route holds their results and the coerced views of them. *)
Lemma makeRoute_Some (hash search : string) (r : Route) :
  makeRoute hash search = Some r
  <-> ∃ q p, paramsToObj (URLSearchParams.parse (JsString.slice1 search)) = Some q
             ∧ paramsToObj (URLSearchParams.parse (MakeRoute.hashQuery hash)) = Some p
             ∧ r = mkRoute (MakeRoute.path hash) q p (coerceParams q) (coerceParams p).
Proof.
  unfold makeRoute.
  destruct (paramsToObj (URLSearchParams.parse (JsString.slice1 search))) as [q|];
    destruct (paramsToObj (URLSearchParams.parse (MakeRoute.hashQuery hash))) as [p|];
    cbn; split; try (intros ?; by simplify_eq); try (by intros (? & ? & ? & ? & ?)).
  - intros ?. simplify_eq. by exists q, p.
  - intros (? & ? & ? & ? & ->). by simplify_eq.
Qed.

(** C4, the claim at a hash with two question marks and at a hash without
    the exclamation mark: the builder's [hashQuery] ends at the second [?],
    so the text after it reaches no parameter, and a hash that does not
    start with [#!] keeps its [#]. *)
Lemma hashQuery_ends_at_second_mark :
  MakeRoute.hashQuery "#!/a?b=1?c=2" = "b=1"
  ∧ SnapshotSpec.hashQuery (SnapshotSpec.raw "#!/a?b=1?c=2") = "b=1?c=2"
  ∧ MakeRoute.hashQuery "#!/a?b=1?c=2" ≠ SnapshotSpec.hashQuery (SnapshotSpec.raw "#!/a?b=1?c=2")
  ∧ (fun r => params r !! "b") <$> makeRoute "#!/a?b=1?c=2" "" = Some (Some ["1"])
  ∧ MakeRoute.raw "#section" = "#section"
  ∧ SnapshotSpec.raw "#section" = "section".
Proof. repeat split; try reflexivity. discriminate. Qed.

(** C4, amended.  For every hash, [raw] is the hash without a leading
    [#!/] or [#!], and the hash itself if it does not start with [#!]; [raw]
    is split at every [?]: [path] is the text before the first [?] and
    [hashQuery] the text between the first and the second, so neither holds
    a [?]; [path] is empty when [raw] is empty or starts with [?]. *)
Theorem makeRoute_splits_at_every_mark (hash search : string) :
  let raw := MakeRoute.raw hash in
  (∀ r, hash = "#!/" ++ r -> raw = r)
  ∧ (∀ r, hash = "#!" ++ r -> JsString.startsWith r "/" = false -> raw = r)
  ∧ (JsString.startsWith hash "#!" = false -> raw = hash)
  ∧ (∀ r, makeRoute hash search = Some r -> path r = MakeRoute.path hash)
  ∧ MakeRoute.path hash = JsString.before_first "?" raw
  ∧ MakeRoute.hashQuery hash
    = JsString.before_first "?" (JsString.after_first "?" raw)
  ∧ JsString.contains "?" (MakeRoute.path hash) = false
  ∧ JsString.contains "?" (MakeRoute.hashQuery hash) = false
  ∧ (raw = "" -> MakeRoute.path hash = "")
  ∧ (JsString.startsWith raw "?" = true -> MakeRoute.path hash = "").
Proof.
  intros raw.
  assert (Hpath : MakeRoute.path hash = JsString.before_first "?" raw).
  { unfold MakeRoute.path, MakeRoute.parts. fold raw. by rewrite split_unfold. }
  assert (Hquery : MakeRoute.hashQuery hash
                   = JsString.before_first "?" (JsString.after_first "?" raw)).
  { unfold MakeRoute.hashQuery, MakeRoute.parts. fold raw. rewrite split_unfold.
    destruct (JsString.contains "?" raw) eqn:E.
    - by rewrite split_unfold.
    - by rewrite after_first_without. }
  split; [by intros r ->|].
  split.
  { intros r -> Hr. subst raw. rewrite raw_cases.
    destruct r as [|c r]; [reflexivity|].
    destruct (Ascii.eqb_spec c "/") as [->|Hne].
    - cbn in Hr. discriminate Hr.
    - unfold String.append. cbn.
      destruct (Ascii.eqb_spec c "/"); [contradiction|reflexivity]. }
  split.
  { intros Hs. subst raw. rewrite raw_cases.
    destruct hash as [|a [|b r]]; try reflexivity.
    destruct (Ascii.eqb_spec a "#") as [->|Ha]; [|reflexivity].
    destruct (Ascii.eqb_spec b "!") as [->|Hb]; [|by rewrite andb_false_r].
    cbn in Hs. discriminate Hs. }
  split; [by intros r (q & p & _ & _ & ->)%makeRoute_Some|].
  split; [exact Hpath|]. split; [exact Hquery|].
  split; [rewrite Hpath; apply before_first_free|].
  split; [rewrite Hquery; apply before_first_free|].
  split.
  - intros Hraw. by rewrite Hpath, Hraw.
  - intros Hstart. rewrite Hpath. destruct raw as [|a r]; [reflexivity|].
    cbn in Hstart. cbn [JsString.before_first].
    destruct (Ascii.eqb a "?"); [reflexivity|discriminate].
Qed.

Lemma makeRoute_splits_at_every_mark_witness :
  MakeRoute.raw "#!/products?sort=price" = "products?sort=price"
  ∧ MakeRoute.raw "#section" = "#section"
  ∧ path (mkRoute "products" ∅ {["sort" := ["price"]]} ∅ {["sort" := [VString "price"]]})
    = MakeRoute.path "#!/products?sort=price".
Proof.
  pose proof (makeRoute_splits_at_every_mark "#!/products?sort=price" "") as H1.
  pose proof (makeRoute_splits_at_every_mark "#section" "") as H2.
  cbv zeta in H1, H2.
  destruct H1 as (H1 & _ & _ & H3 & _). destruct H2 as (_ & _ & H2 & _).
  split; [exact (H1 "products?sort=price" eq_refl)|].
  split; [exact (H2 eq_refl)|].
  apply H3. vm_compute. reflexivity.
Defined.

(* ===================================================================== *)
(** * Type coercion                                                       *)
(* ===================================================================== *)

(** C9, the claim at a string of one space: it is none of the four
    literals, it is not the empty string and its numeric parse succeeds
    with zero, yet [coerceValue] answers with the string. *)
Lemma blank_is_not_a_number :
  literal " " = false
  ∧ " " ≠ ""
  ∧ JsNumber.StringToNumber " " = Some (Finite 0)
  ∧ coerceValue " " = VString " ".
Proof. repeat split; try reflexivity. discriminate. Qed.

(** C9, amended.  [coerceValue] takes the first case that applies: the
    four literals; then a number, when the numeric parse succeeds and the
    string is not empty once its white space is trimmed; then the string
    itself.  Being a function, it answers every string, and with one value. *)
Theorem coerceValue_first_match :
  (∀ value : string,
      (value = "true" -> coerceValue value = VBoolean true)
      ∧ (value = "false" -> coerceValue value = VBoolean false)
      ∧ (value = "null" -> coerceValue value = VNull)
      ∧ (value = "undefined" -> coerceValue value = VUndefined)
      ∧ (∀ num, literal value = false ->
                JsNumber.StringToNumber value = Some num ->
                JsString.trim value ≠ "" ->
                coerceValue value = VNumber num)
      ∧ (literal value = false ->
         JsNumber.StringToNumber value = None ∨ JsString.trim value = "" ->
         coerceValue value = VString value))
  ∧ coerceValue "true" = VBoolean true
  ∧ coerceValue "42" = VNumber (Finite 42)
  ∧ coerceValue "4.5" = VNumber (Finite (9 # 2))
  ∧ coerceValue "null" = VNull
  ∧ coerceValue "abc" = VString "abc"
  ∧ coerceValue "" = VString "".
Proof.
  split; [|repeat split].
  intros value.
  split; [by intros ->|]. split; [by intros ->|].
  split; [by intros ->|]. split; [by intros ->|].
  unfold literal, coerceValue.
  destruct (String.eqb value "true"); [split; intros; discriminate|].
  destruct (String.eqb value "false"); [split; intros; discriminate|].
  destruct (String.eqb value "null"); [split; intros; discriminate|].
  destruct (String.eqb value "undefined"); [split; intros; discriminate|].
  split.
  - intros num _ -> Htrim.
    destruct (String.eqb_spec (JsString.trim value) ""); [contradiction|reflexivity].
  - intros _ [->| ->]; [reflexivity|].
    by destruct (JsNumber.StringToNumber value).
Qed.

Lemma coerceValue_first_match_witness :
  coerceValue "45000.50" = VNumber (Finite (90001 # 2))
  ∧ coerceValue "1 2" = VString "1 2".
Proof.
  destruct coerceValue_first_match as [H _].
  split.
  - destruct (H "45000.50") as (_ & _ & _ & _ & Hnum & _).
    apply Hnum; [reflexivity | reflexivity | discriminate].
  - destruct (H "1 2") as (_ & _ & _ & _ & _ & Hstr).
    apply Hstr; [reflexivity | left; reflexivity].
Defined.

(* ===================================================================== *)
(** * What holds after teardown, and the heap invariant                   *)
(* ===================================================================== *)

Lemma exec_discard {A} (m : M A) (w : World) : exec (m ;; mret tt) w = exec m w.
Proof. unfold exec. rewrite bind_run. by destruct (m w) as [[]]. Qed.

Lemma calls_app (a b : list Event) : calls (a ++ b)%list = (calls a ++ calls b)%list.
Proof. apply omap_app. Qed.

Lemma destroy_tears_down (w : World) :
  let w' := exec destroy w in
  torn_down w'
  ∧ lastHash (router w') = ""
  ∧ scrollPositions (router w') = ∅
  ∧ hashchange_listener (env w') = false
  ∧ scroll_listener (env w') = false
  ∧ route (router w') = route (router w)
  ∧ prevRoute (router w') = prevRoute (router w)
  ∧ heap w' = heap w.
Proof. cbv zeta. unfold exec. rewrite destroy_run. by repeat split. Qed.

(** After teardown no call calls a callback and every call leaves the
    router torn down.  Every call returns normally but [push] and [replace]
    at an address from which [makeRoute()] throws: these reject with the
    type error. *)
Lemma silent_after_destroy (c : Call) (w : World) :
  torn_down w ->
  let w' := exec (perform c) w in
  eval (perform c) w
  = match c, route_here w with
    | CallPush _, None | CallReplace _, None => Throw TypeError
    | _, _ => Ok tt
    end
  ∧ calls (log w') = calls (log w)
  ∧ torn_down w'.
Proof.
  intros Htorn. pose proof Htorn as (Hd & Hl & Hb & Ha & Hs & Hsc). cbv zeta.
  assert (Hsame : ∀ w1, router w1 = router w -> torn_down w1).
  { intros w1 Hr. unfold torn_down. by rewrite Hr. }
  assert (Hquiet : calls (status_trace msg_navigating "loading" w) = []).
  { unfold status_trace. by rewrite Hs. }
  assert (Hch : ∀ newPath replace,
             (changeHash newPath replace w).1
             = match route_here w with Some _ => Ok false | None => Throw TypeError end
             ∧ calls (log (changeHash newPath replace w).2) = calls (log w)
             ∧ torn_down (changeHash newPath replace w).2).
  { intros newPath replace. rewrite changeHash_run.
    destruct (route_here w).
    - rewrite canNavigate_destroyed by exact Hd. cbn [fst snd].
      split; [reflexivity|]. split; [|by apply Hsame].
      cbn [proposed on_heap logged log]. by rewrite calls_app, Hquiet, app_nil_r.
    - cbn [fst snd]. split; [reflexivity|]. split; [|by apply Hsame].
      cbn [unbuilt logged log]. by rewrite calls_app, Hquiet, app_nil_r. }
  unfold exec, eval.
  destruct c; cbn [perform]; unfold push, replace, beforeEach, afterEach, onStatus, onScroll.
  - rewrite bind_run. destruct (Hch newPath false) as (H1 & H2 & H3).
    destruct (changeHash newPath false w) as [[]]; destruct (route_here w);
      cbn in H1 |- *; simplify_eq; done.
  - rewrite bind_run. destruct (Hch newPath true) as (H1 & H2 & H3).
    destruct (changeHash newPath true w) as [[]]; destruct (route_here w);
      cbn in H1 |- *; simplify_eq; done.
  - cbn. destruct (route_here w); repeat split; by apply Hsame.
  - cbn. destruct (route_here w); repeat split; by apply Hsame.
  - cbn. destruct (route_here w); repeat split; by apply Hsame.
  - cbn. destruct (route_here w); repeat split; by apply Hsame.
  - cbn. destruct (route_here w); repeat split; by apply Hsame.
  - unfold saveScrollPosition. rewrite bind_run. cbn [get]. rewrite captureScroll_run.
    cbn [fst snd]. split; [by destruct (route_here w)|]. split.
    + cbn. unfold scroll_trace. rewrite Hsc, calls_app. cbn. by rewrite app_nil_r.
    + unfold torn_down. cbn. done.
  - unfold restoreScrollPosition. rewrite bind_run. cbn [get]. rewrite restoreScroll_run.
    cbn [fst snd]. split; [by destruct (route_here w)|]. split; [done|by apply Hsame].
  - cbn. split; [by destruct (route_here w)|]. by repeat split.
  - cbn. split; [by destruct (route_here w)|]. split; [|by apply Hsame].
    rewrite calls_app. cbn. by rewrite app_nil_r.
  - cbn. split; [by destruct (route_here w)|]. split; [|by apply Hsame].
    rewrite calls_app. cbn. by rewrite app_nil_r.
  - cbn. split; [by destruct (route_here w)|]. split; [|by apply Hsame].
    rewrite calls_app. cbn. by rewrite app_nil_r.
  - destruct (registration_after_destroy w Hd) as (H & _). rewrite bind_run, H.
    split; [by destruct (route_here w)|]. done.
  - destruct (registration_after_destroy w Hd) as (_ & H & _). rewrite bind_run, H.
    split; [by destruct (route_here w)|]. done.
  - destruct (registration_after_destroy w Hd) as (_ & _ & H & _). rewrite bind_run, H.
    split; [by destruct (route_here w)|]. done.
  - destruct (registration_after_destroy w Hd) as (_ & _ & _ & H & _). rewrite bind_run, H.
    split; [by destruct (route_here w)|]. done.
  - destruct (registration_after_destroy w Hd) as (_ & _ & _ & _ & H). rewrite H.
    split; [by destruct (route_here w)|]. done.
  - rewrite destroy_run. cbn. split; [by destruct (route_here w)|]. repeat split.
  - unfold handleRouteChange. rewrite bind_run. cbn [get]. rewrite Hd.
    split; [by destruct (route_here w)|]. done.
  - unfold updateScrollTracking. rewrite bind_run. cbn [get]. rewrite Hd.
    split; [by destruct (route_here w)|]. done.
Qed.

(** After teardown the closure's variables change under two calls only:
    [saveScrollPosition], which stores a record, and afterwards
    [clearScrollHistory] or [destroy], which empty the map again.  No call
    changes any variable other than the scroll map. *)
Lemma router_after_destroy (c : Call) (w : World) :
  torn_down w ->
  let w' := exec (perform c) w in
  set_scrollPositions ∅ (router w') = set_scrollPositions ∅ (router w)
  ∧ ((∀ p, c ≠ CallSaveScrollPosition p) ->
     c ≠ CallClearScrollHistory -> c ≠ CallDestroy ->
     router w' = router w).
Proof.
  intros Htorn. pose proof Htorn as (Hd & Hl & Hb & Ha & Hs & Hsc). cbv zeta.
  assert (Hsame : ∀ w1, router w1 = router w ->
            set_scrollPositions ∅ (router w1) = set_scrollPositions ∅ (router w)
            ∧ ((∀ p, c ≠ CallSaveScrollPosition p) ->
               c ≠ CallClearScrollHistory -> c ≠ CallDestroy ->
               router w1 = router w)).
  { intros w1 ->. done. }
  destruct c; cbn [perform]; try rewrite exec_discard; unfold exec;
    unfold push, replace, beforeEach, afterEach, onStatus, onScroll.
  - destruct (changeHash_after_destroy newPath false w Hd) as (_ & H & _). by apply Hsame.
  - destruct (changeHash_after_destroy newPath true w Hd) as (_ & H & _). by apply Hsame.
  - by apply Hsame.
  - by apply Hsame.
  - by apply Hsame.
  - by apply Hsame.
  - by apply Hsame.
  - unfold saveScrollPosition. rewrite bind_run. cbn [get]. rewrite captureScroll_run.
    split; [reflexivity|]. intros Hsave. by destruct (Hsave p).
  - unfold restoreScrollPosition. rewrite bind_run. cbn [get]. rewrite restoreScroll_run.
    by apply Hsame.
  - split; [reflexivity|]. by intros _ Hclear.
  - by apply Hsame.
  - by apply Hsame.
  - by apply Hsame.
  - destruct (registration_after_destroy w Hd) as (H & _). rewrite H. by apply Hsame.
  - destruct (registration_after_destroy w Hd) as (_ & H & _). rewrite H. by apply Hsame.
  - destruct (registration_after_destroy w Hd) as (_ & _ & H & _). rewrite H. by apply Hsame.
  - destruct (registration_after_destroy w Hd) as (_ & _ & _ & H & _). rewrite H.
    by apply Hsame.
  - destruct (registration_after_destroy w Hd) as (_ & _ & _ & _ & H). rewrite H.
    by apply Hsame.
  - rewrite destroy_run. cbn [snd router]. split; [|by intros _ _ Hdestroy].
    destruct w as [[] ? ? ?]. cbn in *. by subst.
  - unfold handleRouteChange. rewrite bind_run. cbn [get]. rewrite Hd. by apply Hsame.
  - unfold updateScrollTracking. rewrite bind_run. cbn [get]. rewrite Hd. by apply Hsame.
Qed.

Lemma handleRouteChange_run (w : World) :
  destroyed (router w) = false ->
  isNativeAnchor (env w) (location_hash (env w)) = false ->
  String.eqb (location_hash (env w)) (lastHash (router w)) = false ->
  handleRouteChange w
  = match route_here w with
    | None => (Throw TypeError, unbuilt w)
    | Some built =>
        match canNavigate (length (heap w)) (arrived built w) with
        | (Ok true, w2) =>
            completeNavigation (length (heap w))
              (on_router (set_lastHash (location_hash (env w2))) w2)
        | (Ok false, w2) =>
            let rollbackHash := rollbackHash_of (deref (heap w2) (prevRoute (router w2))) in
            (Ok tt,
             on_router (set_lastHash rollbackHash)
               (on_env (set_location_hash (hash_of_fragment rollbackHash))
                  (record (WroteHash rollbackHash) w2)))
        | (Throw e, w2) => (Throw e, w2)
        | (Hang, w2) => (Hang, w2)
        end
    end.
Proof.
  intros Hlive Hanchor Hchanged. unfold handleRouteChange.
  rewrite (bind_run get). cbn [get]. rewrite Hlive, Hanchor, Hchanged.
  rewrite bind_run, emitStatus_run. rewrite bind_run. cbn [get].
  rewrite bind_run, returned_run.
  change (makeRoute _ _) with (route_here w).
  destruct (route_here w) as [built|]; [|reflexivity].
  rewrite (bind_run (alloc _)). cbn [alloc].
  rewrite (bind_run (canNavigate _)).
  change (on_heap _ (logged _ w)) with (arrived built w).
  change (length (heap (logged _ w))) with (length (heap w)).
  destruct (canNavigate (length (heap w)) (arrived built w)) as [[[]| |] w2]; reflexivity.
Qed.

Lemma after_guards_frame (newRoute : loc) (w : World) :
  let w1 := after_guards newRoute w in
  heap w1 = heap w ∧ env w1 = env w
  ∧ route (router w1) = route (router w)
  ∧ prevRoute (router w1) = prevRoute (router w)
  ∧ destroyed (router w1) = destroyed (router w)
  ∧ lastHash (router w1) = lastHash (router w).
Proof.
  unfold after_guards. by destruct (path (deref (heap w) (route (router w)))).
Qed.

(** The path of a route that [makeRoute] built holds no [?]. *)
Lemma built_path_free (hash search : string) (r : Route) :
  makeRoute hash search = Some r -> JsString.contains "?" (path r) = false.
Proof.
  intros (q & p & _ & _ & ->)%makeRoute_Some. cbn [path].
  unfold MakeRoute.path, MakeRoute.parts. rewrite split_unfold. apply before_first_free.
Qed.

(** An address change whose guards all pass commits the route built from
    the address; the path of that route holds no [?]. *)
Lemma hashchange_commits (w : World) (built : Route) :
  destroyed (router w) = false ->
  isNativeAnchor (env w) (location_hash (env w)) = false ->
  location_hash (env w) ≠ lastHash (router w) ->
  route_here w = Some built ->
  forallb passes (guard_outcomes (length (heap w)) (arrived built w)) = true ->
  let w' := exec handleRouteChange w in
  eval handleRouteChange w = Ok tt
  ∧ deref (heap w') (route (router w')) = built
  ∧ JsString.contains "?" (path (deref (heap w') (route (router w')))) = false
  ∧ lastHash (router w') = location_hash (env w).
Proof.
  intros Hlive Hanchor Hchanged Hbuilt Hpass. cbv zeta. unfold exec, eval.
  rewrite handleRouteChange_run; [|done|done|by apply String.eqb_neq].
  rewrite Hbuilt, canNavigate_passes by done.
  destruct (after_guards_frame (length (heap w)) (arrived built w))
    as (Hheap & Henv & Hroute & Hprev & Hdestroyed & Hlast).
  rewrite completeNavigation_run
    by (change (destroyed (router (after_guards (length (heap w)) (arrived built w)))
                = false);
        by rewrite Hdestroyed).
  cbn [fst snd].
  assert (Hderef : deref (heap (after_guards (length (heap w)) (arrived built w))
                          ++ [deref (heap (after_guards (length (heap w)) (arrived built w)))
                                    (route (router (after_guards (length (heap w))
                                                                 (arrived built w))))])%list
                         (length (heap w))
                   = built).
  { rewrite Hheap. cbn. rewrite deref_alloc by (rewrite length_app; cbn; lia).
    apply deref_fresh. }
  split; [reflexivity|]. split; [exact Hderef|].
  split; [|cbn -[after_guards]; by rewrite Henv].
  cbn -[after_guards]. rewrite Hderef. by apply (built_path_free _ _ _ Hbuilt).
Qed.

Lemma allocated_grows (w w1 : World) :
  allocated w ->
  route (router w1) = route (router w) ->
  prevRoute (router w1) = prevRoute (router w) ->
  length (heap w) <= length (heap w1) ->
  allocated w1.
Proof. intros [H1 H2] Hr Hp Hl. unfold allocated. rewrite Hr, Hp. lia. Qed.

Lemma allocated_completeNavigation (newRoute : loc) (w : World) :
  allocated w -> newRoute < length (heap w) ->
  allocated (completeNavigation newRoute w).2.
Proof.
  intros Hw Hnew. destruct (destroyed (router w)) eqn:Hd.
  - by rewrite completeNavigation_destroyed.
  - rewrite completeNavigation_run by done. unfold allocated. cbn.
    rewrite length_app. cbn. lia.
Qed.

(** Every call keeps the route variables pointing into the heap. *)
Lemma allocated_perform (c : Call) (w : World) :
  allocated w -> allocated (exec (perform c) w).
Proof.
  intros Hw.
  assert (Hsame : ∀ w1, router w1 = router w -> heap w1 = heap w -> allocated w1).
  { intros w1 Hr Hh. apply (allocated_grows w); [done|by rewrite Hr..|by rewrite Hh]. }
  assert (Hch : ∀ newPath replace, allocated (changeHash newPath replace w).2).
  { intros newPath replace. rewrite changeHash_run.
    destruct (route_here w) as [built|]; [|by apply Hsame].
    pose proof (canNavigate_frame (length (heap w)) (proposed (candidate_of newPath built) w))
      as Hframe.
    cbv zeta in Hframe.
    destruct (canNavigate (length (heap w)) (proposed (candidate_of newPath built) w))
      as [[[]| |] w2];
      cbn [snd] in *; destruct Hframe as (Hr & Hp & _ & _ & Hh & _).
    all: assert (Hlen : length (heap w2) = S (length (heap w)))
           by (rewrite Hh; cbn; rewrite length_app; cbn; lia).
    all: try (apply (allocated_grows w); [done..|lia]).
    rewrite bind_run.
    match goal with |- context [completeNavigation ?l ?w0] =>
      pose proof (allocated_completeNavigation l w0) as Hc end.
    destruct (completeNavigation _ _) as [[]]; cbn [snd] in *; apply Hc.
    all: try (apply (allocated_grows w); [done|exact Hr|exact Hp|]).
    all: change (heap (on_router _ (on_env _ (record _ w2)))) with (heap w2); lia. }
  destruct c; cbn [perform]; try rewrite exec_discard; unfold exec;
    unfold push, replace, beforeEach, afterEach, onStatus, onScroll.
  - apply Hch.
  - apply Hch.
  - rewrite currentRoute_run. apply (allocated_grows w); [done..|].
    cbn. rewrite length_app. lia.
  - rewrite previousRoute_run. apply (allocated_grows w); [done..|].
    cbn. rewrite length_app. lia.
  - rewrite getRouteState_run. apply (allocated_grows w); [done..|].
    cbn. rewrite !length_app. lia.
  - by apply Hsame.
  - by apply Hsame.
  - unfold saveScrollPosition. rewrite bind_run. cbn [get]. rewrite captureScroll_run.
    by apply (allocated_grows w).
  - unfold restoreScrollPosition. rewrite bind_run. cbn [get]. rewrite restoreScroll_run.
    by apply Hsame.
  - by apply (allocated_grows w).
  - by apply Hsame.
  - by apply Hsame.
  - by apply Hsame.
  - destruct callback as [callback|]; [|by apply Hsame]. unfold addBeforeListener.
    rewrite bind_run. cbn [get]. destruct (destroyed (router w)); [by apply Hsame|].
    rewrite !bind_run. cbn [modify]. by destruct (guard_run callback _ _).
  - destruct callback as [callback|]; [|by apply Hsame]. unfold addAfterListener.
    rewrite bind_run. cbn [get]. by destruct (destroyed (router w)).
  - destruct callback as [callback|]; [|by apply Hsame]. unfold addStatusListener.
    rewrite bind_run. cbn [get]. by destruct (destroyed (router w)).
  - destruct callback as [callback|]; [|by apply Hsame]. unfold addScrollListener.
    rewrite bind_run. cbn [get]. by destruct (destroyed (router w)).
  - destruct d as [|[] ref]; [by apply Hsame|..]; unfold dispose; rewrite bind_run;
      cbn [get]; by destruct (destroyed (router w)).
  - rewrite destroy_run. by apply (allocated_grows w).
  - destruct (destroyed (router w)) eqn:Hd.
    { unfold handleRouteChange. rewrite bind_run. cbn [get]. rewrite Hd. done. }
    destruct (isNativeAnchor (env w) (location_hash (env w))) eqn:Ha.
    { unfold handleRouteChange. rewrite bind_run. cbn [get]. rewrite Hd, Ha.
      by apply Hsame. }
    destruct (String.eqb (location_hash (env w)) (lastHash (router w))) eqn:He.
    { unfold handleRouteChange. rewrite bind_run. cbn [get]. rewrite Hd, Ha, He. done. }
    rewrite handleRouteChange_run by done.
    destruct (route_here w) as [built|]; [|by apply Hsame].
    pose proof (canNavigate_frame (length (heap w)) (arrived built w)) as Hframe.
    cbv zeta in Hframe.
    destruct (canNavigate (length (heap w)) (arrived built w)) as [[[]| |] w2];
      cbn [snd] in *; destruct Hframe as (Hr & Hp & _ & _ & Hh & _).
    all: assert (Hlen : length (heap w2) = S (length (heap w)))
           by (rewrite Hh; cbn; rewrite length_app; cbn; lia).
    all: try (apply (allocated_grows w); [done..|lia]).
    + apply allocated_completeNavigation.
      * apply (allocated_grows w); [done|exact Hr|exact Hp|].
        change (heap (on_router _ w2)) with (heap w2). lia.
      * change (heap (on_router _ w2)) with (heap w2). lia.
    + apply (allocated_grows w); [done|exact Hr|exact Hp|].
      change (heap (on_router _ (on_env _ (record _ w2)))) with (heap w2). lia.
  - unfold updateScrollTracking. rewrite bind_run. cbn [get].
    destruct (destroyed (router w)); [done|].
    rewrite bind_run, emitScroll_run. by apply Hsame.
Qed.

Lemma allocated_create (e : Environment) (w : World) : create e = Some w -> allocated w.
Proof.
  unfold create. destruct (makeRoute _ _) as [r|]; [|done]. cbn. intros ?. simplify_eq.
  apply (allocated_perform EventHashChange (initial e r)), allocated_initial.
Qed.

(** The sample router is the one the module's body leaves on its page. *)
Lemma fresh_created : create Sample.page = Some Sample.fresh.
Proof. reflexivity. Qed.

(* ===================================================================== *)
(** * Worked examples                                                     *)
(* ===================================================================== *)

(** On a hash that starts with [#!] the builder's path is the path of
    the specification's wording. *)
Lemma path_agrees_on_routes (hash : string) :
  MakeRoute.path hash = SnapshotSpec.path (MakeRoute.raw hash).
Proof.
  unfold MakeRoute.path, MakeRoute.parts, SnapshotSpec.path. by rewrite split_unfold.
Qed.

Example products_route :
  ∃ r, makeRoute "#!/products?category=books&category=electronics&sort=price" "" = Some r
       ∧ path r = "products"
       ∧ params r !! "category" = Some ["books"; "electronics"]
       ∧ params r !! "sort" = Some ["price"]
       ∧ paramsTyped r !! "category" = Some [VString "books"; VString "electronics"]
       ∧ paramsTyped r !! "sort" = Some [VString "price"].
Proof. eexists. split; [reflexivity|]. vm_compute. repeat split. Qed.

Example analytics_route :
  ∃ r, makeRoute "#!/analytics?users=1500&revenue=45000.50&active=true" "?page=2" = Some r
       ∧ path r = "analytics"
       ∧ paramsTyped r !! "users" = Some [VNumber (Finite 1500)]
       ∧ paramsTyped r !! "revenue" = Some [VNumber (Finite (90001 # 2))]
       ∧ paramsTyped r !! "active" = Some [VBoolean true]
       ∧ queryTyped r !! "page" = Some [VNumber (Finite 2)].
Proof. eexists. split; [vm_compute; reflexivity|]. vm_compute. repeat split. Qed.

(** A parameter named like a property that every object inherits makes
    the builder throw, in the hash and in the search string alike. *)
Example inherited_key_throws :
  makeRoute "#!/x?constructor=1" "" = None
  ∧ makeRoute "#!/home" "?toString=1" = None
  ∧ makeRoute "#!/x?__proto__=1" "" = None
  ∧ create (set_location_hash "#!/home?toString=1" Sample.page) = None.
Proof. vm_compute. repeat split. Qed.

(** With a guard that lets everything pass and one that protects [admin],
    [push('/dashboard')] resolves [true] and [push('/admin')] resolves
    [false] with the guard's message in the error status. *)
Example guarded_pushes :
  let w := exec (beforeEach (Some Sample.allow)) Sample.guarded in
  eval (push "/dashboard") w = Ok true
  ∧ path (deref (heap (exec (push "/dashboard") w))
                (route (router (exec (push "/dashboard") w)))) = "dashboard"
  ∧ eval (push "/admin") w = Ok false
  ∧ path (deref (heap (exec (push "/admin") w))
                (route (router (exec (push "/admin") w)))) = "home"
  ∧ location_hash (env (exec (push "/admin") w)) = "#!/home"
  ∧ statuses_emitted (log (exec (push "/admin") w))
    = [(msg_navigating, "loading"); (msg_cancelled +:+ "Access denied", "error")].
Proof. vm_compute. repeat split. Qed.

(** Leaving [home] scrolled to 10 and coming back queues a frame that,
    when it runs, puts the window back at 10. *)
Example scroll_round_trip :
  let away := on_env (set_offsets 0 0) (exec (push "/about") Sample.fresh) in
  let back_home := exec (push "/home") away in
  frames (env back_home) = [RestoreFrame (ScrollData.mk 0 10 1000 "home")]
  ∧ pageYOffset (env away) = 0%Z
  ∧ pageYOffset (env (exec (runFrame (RestoreFrame (ScrollData.mk 0 10 1000 "home")))
                           back_home)) = 10%Z.
Proof. vm_compute. repeat split. Qed.

(** Registration order is list order: a new after-hook goes to the end of
    the list the commit walks through. *)
Lemma afterEach_appends (callback : Hook) (w : World) :
  destroyed (router w) = false ->
  afterEach (Some callback) w
  = (Ok (Remove After (hook_ref callback)),
     on_router (fun r => set_afterListeners (afterListeners r ++ [callback])%list r) w).
Proof.
  intros Hlive. unfold afterEach, addAfterListener.
  rewrite bind_run. cbn [get]. by rewrite Hlive.
Qed.

(* ===================================================================== *)
(** * Further properties: the parameter codec                             *)
(* ===================================================================== *)

Lemma paramsToObj_fold (params : list (string * string)) (out : gmap string (list string))
      (k : string) :
  fold_left (fun out kv => <[kv.1 := (default [] (out !! kv.1) ++ [kv.2])%list]> out)
            params out !! k
  = match values_of k params with
    | [] => out !! k
    | vs => Some (default [] (out !! k) ++ vs)%list
    end.
Proof.
  revert out. induction params as [|[k0 v0] rest IH]; intros out; [reflexivity|].
  cbn [fold_left]. rewrite IH. clear IH.
  change (values_of k ((k0, v0) :: rest))
    with (match (if String.eqb k0 k then Some v0 else None) with
          | Some y => y :: values_of k rest
          | None => values_of k rest
          end).
  cbn [fst snd].
  destruct (String.eqb_spec k0 k) as [->|Hne].
  - rewrite lookup_insert_eq.
    destruct (values_of k rest) as [|v vs]; cbn; [reflexivity|].
    by rewrite <- app_assoc.
  - rewrite lookup_insert_ne by done. reflexivity.
Qed.

(** As long as no key names an inherited property the loop of
    [paramsToObj] is a fold of insertions, and it throws at the first key
    that does. *)
Lemma paramsToObj_loop_run (params : list (string * string))
      (out : gmap string (list string)) :
  (∀ k, inherited k = true -> out !! k = None) ->
  paramsToObj_loop out params
  = if existsb (fun kv => inherited kv.1) params then None
    else Some (fold_left (fun out kv =>
                            <[kv.1 := (default [] (out !! kv.1) ++ [kv.2])%list]> out)
                         params out).
Proof.
  revert out. induction params as [|[k v] rest IH]; intros out Hinv; [reflexivity|].
  cbn [paramsToObj_loop existsb fold_left]. unfold paramsToObj_step. cbn [fst snd].
  destruct (inherited k) eqn:Hk.
  - by rewrite (Hinv k Hk).
  - cbn [orb].
    assert (Hnext : ∀ vs k', inherited k' = true -> <[k := vs]> out !! k' = None).
    { intros vs k' Hk'. rewrite lookup_insert_ne; [by apply Hinv|].
      intros ->. by rewrite Hk in Hk'. }
    destruct (out !! k) as [vs|] eqn:Hout.
    + by rewrite IH by apply Hnext.
    + by rewrite IH by apply Hnext.
Qed.

(** X1.  [paramsToObj] throws exactly when one of the keys names a
    property that every object inherits, such as [constructor] or
    [toString].  Otherwise it drops no pair and keeps their order: under
    each key the object holds exactly the values the pairs give to that key,
    in the order of the pairs, and a key no pair names is absent; so no key
    is ever bound to an empty list. *)
Theorem paramsToObj_collects (params : list (string * string)) :
  (existsb (fun kv => inherited kv.1) params = true ∧ paramsToObj params = None)
  ∨ (existsb (fun kv => inherited kv.1) params = false
     ∧ ∃ out, paramsToObj params = Some out
              ∧ ∀ k, out !! k = match values_of k params with
                                | [] => None
                                | vs => Some vs
                                end).
Proof.
  unfold paramsToObj. rewrite paramsToObj_loop_run by (intros; apply lookup_empty).
  destruct (existsb _ params); [by left|right].
  split; [reflexivity|]. eexists. split; [reflexivity|]. intros k.
  rewrite paramsToObj_fold, lookup_empty. by destruct (values_of k params).
Qed.

(** X2.  In every route [makeRoute] builds, the typed views follow the raw
    ones: they have the same keys, and under each key the typed list is the
    raw list with [coerceValue] applied to each element, so it has the same
    length. *)
Theorem typed_views_follow_raw (hash search k : string) (r : Route) :
  makeRoute hash search = Some r ->
  dom (paramsTyped r) = dom (params r)
  ∧ dom (queryTyped r) = dom (query r)
  ∧ paramsTyped r !! k = map coerceValue <$> params r !! k
  ∧ queryTyped r !! k = map coerceValue <$> query r !! k
  ∧ length <$> paramsTyped r !! k = length <$> params r !! k
  ∧ length <$> queryTyped r !! k = length <$> query r !! k.
Proof.
  intros (q & p & _ & _ & ->)%makeRoute_Some.
  unfold coerceParams. cbn [paramsTyped params queryTyped query].
  rewrite !dom_fmap_L, !lookup_fmap.
  split; [reflexivity|]. split; [reflexivity|]. split; [reflexivity|].
  split; [reflexivity|].
  split.
  - destruct (p !! k); cbn; [by rewrite length_map|reflexivity].
  - destruct (q !! k); cbn; [by rewrite length_map|reflexivity].
Qed.

Lemma typed_views_follow_raw_witness :
  ∃ r, makeRoute "#!/analytics?users=1500&active=true" "?page=2" = Some r
       ∧ paramsTyped r !! "users" = map coerceValue <$> params r !! "users".
Proof.
  eexists. split; [vm_compute; reflexivity|].
  refine (proj1 (proj2 (proj2 (typed_views_follow_raw
                                 "#!/analytics?users=1500&active=true" "?page=2" "users"
                                 _ _)))).
  vm_compute. reflexivity.
Defined.

(** X3.  [coerceValue] never alters text: a string result is the argument
    itself; a boolean, [null] or [undefined] comes from the exact literal
    only; and a number is the numeric parse of an argument that is not
    blank. *)
Theorem coerceValue_inversion (value : string) :
  (∀ s, coerceValue value = VString s -> s = value)
  ∧ (∀ b, coerceValue value = VBoolean b -> value = if b then "true" else "false")
  ∧ (coerceValue value = VNull -> value = "null")
  ∧ (coerceValue value = VUndefined -> value = "undefined")
  ∧ (∀ n, coerceValue value = VNumber n ->
          JsNumber.StringToNumber value = Some n
          ∧ JsString.trim value ≠ "" ∧ literal value = false).
Proof.
  unfold coerceValue, literal.
  destruct (String.eqb_spec value "true") as [->|_];
    [repeat split; intros; by simplify_eq|].
  destruct (String.eqb_spec value "false") as [->|_];
    [repeat split; intros; by simplify_eq|].
  destruct (String.eqb_spec value "null") as [->|_];
    [repeat split; intros; by simplify_eq|].
  destruct (String.eqb_spec value "undefined") as [->|_];
    [repeat split; intros; by simplify_eq|].
  destruct (JsNumber.StringToNumber value) as [num|];
    [destruct (String.eqb_spec (JsString.trim value) "") as [Hblank|Hblank]|];
    cbn [negb]; repeat split; intros; by simplify_eq.
Qed.

(* ===================================================================== *)
(** * Further properties: events and scroll memory                        *)
(* ===================================================================== *)

(** X4.  [emitStatus] never throws and touches nothing but the console:
    every status callback is called exactly once, in registration order, with
    the status and its type, whatever the callbacks before it did, and the
    fault of each callback that throws is reported. *)
Theorem emitStatus_isolates (status type : string) (w : World) :
  let w' := exec (emitStatus status type) w in
  let current := deref (heap w) (route (router w)) in
  let previous := deref (heap w) (prevRoute (router w)) in
  eval (emitStatus status type) w = Ok tt
  ∧ router w' = router w ∧ heap w' = heap w ∧ env w' = env w
  ∧ log w' = (log w ++ status_trace status type w)%list
  ∧ statuses_called (status_trace status type w)
    = map (fun callback => (status_ref callback, status, type)) (statusCallbacks (router w))
  ∧ errors_reported (status_trace status type w)
    = omap (fun callback => UserThrown <$> status_run callback status type current previous)
           (statusCallbacks (router w)).
Proof.
  cbv zeta. unfold exec, eval. rewrite emitStatus_run. cbn [fst snd].
  do 5 (split; [reflexivity|]).
  unfold status_trace, statuses_called, errors_reported.
  change (omap ?f (EmitStatus status type :: ?l)) with (omap f l).
  induction (statusCallbacks (router w)) as [|callback rest [IH1 IH2]]; [done|].
  cbn [flat_map map]. rewrite !omap_app, IH1, IH2.
  destruct (status_run callback status type _ _) eqn:E; cbn; by rewrite E.
Qed.

Lemma scrolls_called_scroll_calls (callbacks : list ScrollCallback)
      (payload : ScrollEvent.t) (i : nat) (callback : ScrollCallback) :
  callbacks !! i = Some callback ->
  scrolls_called (scroll_calls callbacks payload) !! i
  = Some (scroll_ref callback, scroll_final (take i callbacks) payload).
Proof.
  revert payload i. induction callbacks as [|c rest IH]; intros payload i Hi; [done|].
  cbn [scroll_calls]. unfold scrolls_called. rewrite omap_app.
  assert (Hhead : omap (fun e => match e with
                                 | CalledScroll ref p => Some (ref, p)
                                 | _ => None
                                 end)
                       (CalledScroll (scroll_ref c) payload
                        :: fault_report "Scroll callback error:" (scroll_run c payload).2)
                  = [(scroll_ref c, payload)]).
  { by destruct (scroll_run c payload).2. }
  rewrite Hhead. destruct i as [|i].
  - cbn in Hi. by simplify_eq.
  - cbn in Hi. cbn [take scroll_final app lookup list_lookup].
    exact (IH (scroll_run c payload).1 i Hi).
Qed.

Lemma scrolls_called_length (callbacks : list ScrollCallback) (payload : ScrollEvent.t) :
  length (scrolls_called (scroll_calls callbacks payload)) = length callbacks.
Proof.
  revert payload. induction callbacks as [|c rest IH]; intros payload; [done|].
  cbn [scroll_calls]. unfold scrolls_called. rewrite omap_app, length_app.
  fold (scrolls_called (scroll_calls rest (scroll_run c payload).1)). rewrite IH.
  by destruct (scroll_run c payload).2.
Qed.

(** X5.  [emitScroll] never throws and changes no state of the router:
    every scroll callback is called exactly once, in registration order, all
    on the same event object, so each one receives the event as the
    callbacks before it left it, also when one of those threw. *)
Theorem emitScroll_chains (payload : ScrollEvent.t) (w : World) :
  let w' := exec (emitScroll payload) w in
  let callbacks := scrollCallbacks (router w) in
  (∃ final, eval (emitScroll payload) w = Ok final)
  ∧ router w' = router w ∧ heap w' = heap w ∧ env w' = env w
  ∧ log w' = (log w ++ scroll_trace payload w)%list
  ∧ length (scrolls_called (scroll_trace payload w)) = length callbacks
  ∧ ∀ i callback,
      callbacks !! i = Some callback ->
      scrolls_called (scroll_trace payload w) !! i
      = Some (scroll_ref callback, scroll_final (take i callbacks) payload).
Proof.
  cbv zeta. unfold exec, eval. rewrite emitScroll_run. cbn [fst snd].
  split; [by eexists|]. do 4 (split; [reflexivity|]).
  split; [apply scrolls_called_length|].
  intros i callback Hi. by apply scrolls_called_scroll_calls.
Qed.

(** X6.  What [captureScroll] stores, [restoreScroll] brings back: after a
    capture for a path, wherever the window is scrolled to meanwhile, a
    restore for that path queues one frame, and that frame, when it runs,
    scrolls the window to the offsets it had at the capture and hands the
    scroll callbacks a [restore] event with those offsets. *)
Theorem capture_then_restore (routePath : string) (x y : Z) (w : World) :
  let saved := captured routePath w in
  let w1 := exec (captureScroll routePath) w in
  let w2 := on_env (set_offsets x y) w1 in
  let w3 := exec (restoreScroll routePath) w2 in
  let w4 := exec (runFrame (RestoreFrame saved)) w3 in
  eval (restoreScroll routePath) w2 = Ok tt
  ∧ frames (env w3) = (frames (env w) ++ [RestoreFrame saved])%list
  ∧ eval (runFrame (RestoreFrame saved)) w3 = Ok tt
  ∧ pageXOffset (env w4) = pageXOffset (env w)
  ∧ pageYOffset (env w4) = pageYOffset (env w)
  ∧ log w4 = (log w3 ++ ScrolledTo (pageXOffset (env w)) (pageYOffset (env w))
                     :: scroll_trace (ScrollEvent.spread "restore" saved) w)%list
  ∧ router w4 = router w1.
Proof.
  cbv zeta. unfold exec, eval. rewrite captureScroll_run. cbn [snd].
  rewrite restoreScroll_run. cbn [fst snd].
  assert (Hsaved : restore_frames routePath (on_env (set_offsets x y) (after_capture routePath w))
                   = [RestoreFrame (captured routePath w)]).
  { unfold restore_frames. cbn. by rewrite lookup_insert_eq. }
  rewrite Hsaved.
  split; [reflexivity|]. split; [reflexivity|].
  unfold runFrame, scrollTo. repeat (rewrite bind_run; cbn [modify fst snd]).
  rewrite emitScroll_run. cbn [fst snd mret M_ret].
  split; [reflexivity|]. split; [reflexivity|]. split; [reflexivity|].
  split; [|reflexivity].
  cbn. by rewrite <- app_assoc.
Qed.

(** X7.  [clearScrollHistory] empties the scroll map and nothing else:
    afterwards a restore for any path, given or defaulted, does nothing at
    all, while the frames that were queued before stay queued. *)
Theorem clearScrollHistory_forgets (w : World) :
  let w1 := exec clearScrollHistory w in
  eval clearScrollHistory w = Ok tt
  ∧ scrollPositions (router w1) = ∅
  ∧ set_scrollPositions ∅ (router w) = router w1
  ∧ heap w1 = heap w ∧ env w1 = env w ∧ log w1 = log w
  ∧ ∀ p, restoreScrollPosition p w1 = (Ok tt, w1).
Proof.
  cbv zeta. do 6 (split; [reflexivity|]).
  intros p. unfold restoreScrollPosition. rewrite bind_run. cbn [get].
  rewrite restoreScroll_run. unfold restore_frames.
  assert (H : scrollPositions (router (exec clearScrollHistory w)) = ∅) by reflexivity.
  rewrite H, lookup_empty. f_equal.
  unfold on_env, set_frames. rewrite app_nil_r.
  by destruct (exec clearScrollHistory w) as [r h [] l].
Qed.

(* ===================================================================== *)
(** * Further properties: the guard phase                                 *)
(* ===================================================================== *)

Lemma after_guards_scroll (newRoute : loc) (w : World) :
  scrollPositions (router (after_guards newRoute w))
  = match path (deref (heap w) (route (router w))) with
    | EmptyString => scrollPositions (router w)
    | routePath => <[routePath := captured routePath w]> (scrollPositions (router w))
    end.
Proof.
  unfold after_guards. by destruct (path (deref (heap w) (route (router w)))).
Qed.

(** The world [canNavigate] leaves differs from the world after the guards
    were called by console and status events only. *)
Lemma canNavigate_world (newRoute : loc) (w : World) :
  destroyed (router w) = false ->
  ∃ events, (canNavigate newRoute w).2 = logged events (after_guards newRoute w)
            ∧ guards_called events = [].
Proof.
  intros Hlive. rewrite canNavigate_unfold by done. cbv zeta.
  assert (Hstatus : ∀ status type w0, guards_called (status_trace status type w0) = []).
  { intros status type w0. unfold status_trace, guards_called.
    change (omap ?f (EmitStatus status type :: ?l)) with (omap f l).
    induction (statusCallbacks (router w0)) as [|callback rest IH]; [done|].
    cbn [flat_map]. rewrite omap_app, IH.
    by destruct (status_run callback status type _ _). }
  destruct (first_rejection _) as [[t [|m]]|].
  - by eexists.
  - eexists. cbn [snd]. rewrite logged_logged. split; [reflexivity|].
    unfold guards_called. rewrite omap_app. cbn.
    apply Hstatus.
  - exists []. rewrite logged_nil. by destruct (existsb pending _).
Qed.

(** X8.  On a live router the guard phase first stores the scroll position
    of the route that is being left, under its path, and keeps it whatever
    the guards then answer: also a vetoed, a failed or a hanging navigation
    has overwritten that record.  Nothing is stored when the current path is
    empty, and the records of other paths are not touched. *)
Theorem guard_phase_captures_scroll (newRoute : loc) (w : World) :
  destroyed (router w) = false ->
  let current := path (deref (heap w) (route (router w))) in
  let w' := exec (canNavigate newRoute) w in
  (current ≠ "" -> scrollPositions (router w') !! current = Some (captured current w))
  ∧ (current = "" -> scrollPositions (router w') = scrollPositions (router w))
  ∧ (∀ other, other ≠ current ->
              scrollPositions (router w') !! other = scrollPositions (router w) !! other).
Proof.
  intros Hlive. cbv zeta. unfold exec.
  destruct (canNavigate_world newRoute w Hlive) as (events & -> & _).
  change (router (logged events ?w0)) with (router w0).
  rewrite after_guards_scroll.
  destruct (path (deref (heap w) (route (router w)))) as [|a p].
  - by repeat split.
  - split; [intros _; apply lookup_insert_eq|]. split; [done|].
    intros other Hother. by apply lookup_insert_ne.
Qed.

Lemma guard_phase_captures_scroll_witness :
  scrollPositions (router (exec (push "/admin") Sample.guarded)) !! "home"
  = Some (ScrollData.mk 0 10 1000 "home")
  ∧ scrollPositions (router (exec (canNavigate 0) Sample.guarded)) !! "home"
    = Some (ScrollData.mk 0 10 1000 "home").
Proof.
  split; [reflexivity|].
  destruct (guard_phase_captures_scroll 0 Sample.guarded eq_refl) as [H _].
  apply H. discriminate.
Defined.

(** X9.  On a live router the guard phase calls every before-guard, once
    and in registration order, with the candidate and the current route; a
    guard that throws or rejects does not keep the guards after it from
    being called. *)
Theorem guard_phase_calls_every_guard (newRoute : loc) (w : World) :
  destroyed (router w) = false ->
  let w' := exec (canNavigate newRoute) w in
  guards_called (log w')
  = (guards_called (log w)
     ++ map (fun callback => (guard_ref callback, newRoute, route (router w)))
            (beforeListeners (router w)))%list.
Proof.
  intros Hlive. cbv zeta. unfold exec.
  destruct (canNavigate_world newRoute w Hlive) as (events & -> & Hevents).
  cbn [logged log]. unfold guards_called in *. rewrite omap_app, Hevents, app_nil_r.
  assert (Hscroll : ∀ callbacks payload,
            omap (fun e => match e with
                           | CalledGuard ref to from => Some (ref, to, from)
                           | _ => None
                           end) (scroll_calls callbacks payload) = []).
  { induction callbacks as [|c rest IH]; intros payload; [done|].
    cbn [scroll_calls]. rewrite omap_app, IH.
    by destruct (scroll_run c payload).2. }
  assert (Hcalls : ∀ w0, route (router w0) = route (router w) ->
            beforeListeners (router w0) = beforeListeners (router w) ->
            omap (fun e => match e with
                           | CalledGuard ref to from => Some (ref, to, from)
                           | _ => None
                           end) (guard_calls newRoute w0)
            = map (fun callback => (guard_ref callback, newRoute, route (router w)))
                  (beforeListeners (router w))).
  { intros w0 Hr Hb. unfold guard_calls. rewrite Hr, Hb. clear Hr Hb.
    generalize (beforeListeners (router w)). intros callbacks.
    induction callbacks as [|c rest IH]; [done|].
    change (omap ?f (map ?g (c :: rest)))
      with ((guard_ref c, newRoute, route (router w)) :: omap f (map g rest)).
    by rewrite IH. }
  unfold after_guards.
  destruct (path (deref (heap w) (route (router w)))) as [|a p].
  - cbn [logged log]. rewrite omap_app. by rewrite Hcalls.
  - cbn [logged log after_capture on_router router]. rewrite omap_app.
    rewrite Hcalls by reflexivity. f_equal.
    cbn. rewrite omap_app. cbn. by rewrite Hscroll, app_nil_r.
Qed.

Lemma guard_phase_calls_every_guard_witness :
  guards_called (log (exec (canNavigate 0) Fixture.doubly_guarded))
  = [(9, 0, 1); (1, 0, 1); (9, 0, 0); (1, 0, 0)].
Proof. exact (guard_phase_calls_every_guard 0 Fixture.doubly_guarded eq_refl). Defined.

(* ===================================================================== *)
(** * Further properties: programmatic navigation                         *)
(* ===================================================================== *)

Lemma startsWith_hash (s : string) :
  JsString.startsWith s "#" = true -> ∃ r, s = String "#" r.
Proof.
  destruct s as [|a r]; [discriminate|]. cbn.
  destruct (Ascii.eqb_spec a "#") as [->|]; [by eexists|discriminate].
Qed.

Lemma safePath_shape (newPath : string) : ∃ r, safePath_of newPath = String "#" r.
Proof.
  unfold safePath_of. destruct (JsString.startsWith newPath "#") eqn:E.
  - by apply startsWith_hash.
  - by eexists.
Qed.

(** ** What the URL parser does to the writes of the router *)

Lemma plain_byte (a : ascii) :
  URL.in_fragment_set a = false ->
  URL.tab_or_newline a = false ∧ URL.c0_or_space a = false.
Proof.
  unfold URL.in_fragment_set, URL.tab_or_newline, URL.c0_or_space.
  generalize (JsString.code a). intros c H. cbv zeta in *.
  rewrite !orb_false_iff in H. destruct H as ((((((H1 & _) & H2) & _) & _) & _) & _).
  apply N.leb_gt in H1. apply N.eqb_neq in H2. split.
  - rewrite !orb_false_iff. repeat split; apply N.eqb_neq; lia.
  - apply N.leb_gt. lia.
Qed.

Lemma fragment_plain (s : string) : URL.plain s = true -> URL.fragment s = s.
Proof.
  unfold URL.fragment. induction s as [|a r IH]; [reflexivity|].
  cbn [URL.plain]. intros [Ha Hr]%andb_prop. apply negb_true_iff in Ha.
  destruct (plain_byte a Ha) as [Htab _].
  cbn [URL.remove_tab_newline]. rewrite Htab. cbn [URL.encode_fragment].
  by rewrite Ha, IH.
Qed.

Lemma strip_trailing_plain (s : string) : URL.plain s = true -> URL.strip_trailing s = s.
Proof.
  induction s as [|a r IH]; [reflexivity|].
  cbn [URL.plain]. intros [Ha Hr]%andb_prop. apply negb_true_iff in Ha.
  destruct (plain_byte a Ha) as [_ Hspace].
  cbn [URL.strip_trailing]. rewrite IH by done. destruct r; [by rewrite Hspace|reflexivity].
Qed.

Lemma plain_strip_leading (c : ascii) (s : string) :
  URL.plain s = true -> URL.plain (JsString.strip_leading c s) = true.
Proof.
  induction s as [|a r IH]; [done|]. intros H. cbn [JsString.strip_leading].
  destruct (Ascii.eqb a c); [|exact H]. apply IH.
  cbn [URL.plain] in H. by apply andb_prop in H as [_ H].
Qed.

(** A text that does not end in a C0 control or a space. *)
Lemma strip_trailing_suffix (a : ascii) (r : string) :
  URL.strip_trailing (String a r) = String a r -> URL.strip_trailing r = r.
Proof.
  cbn [URL.strip_trailing]. destruct (URL.strip_trailing r) as [|b r'] eqn:E.
  - destruct (URL.c0_or_space a); intros H; by simplify_eq.
  - intros H. by simplify_eq.
Qed.

Lemma strip_trailing_cons (a : ascii) (r : string) :
  URL.c0_or_space a = false ->
  URL.strip_trailing r = r -> URL.strip_trailing (String a r) = String a r.
Proof. intros Ha Hr. cbn [URL.strip_trailing]. rewrite Hr, Ha. by destruct r. Qed.

Lemma strip_trailing_strip_leading (c : ascii) (s : string) :
  URL.strip_trailing s = s ->
  URL.strip_trailing (JsString.strip_leading c s) = JsString.strip_leading c s.
Proof.
  induction s as [|a r IH]; [done|]. intros H. cbn [JsString.strip_leading].
  destruct (Ascii.eqb a c); [|exact H]. by apply IH, (strip_trailing_suffix a).
Qed.

Lemma strip_trailing_safePath (newPath : string) :
  URL.strip_trailing newPath = newPath ->
  URL.strip_trailing (safePath_of newPath) = safePath_of newPath.
Proof.
  intros H. unfold safePath_of. destruct (JsString.startsWith newPath "#"); [exact H|].
  change ("#!/" ++ ?x) with (String "#" (String "!" (String "/" x))).
  do 3 (apply strip_trailing_cons; [reflexivity|]).
  by apply strip_trailing_strip_leading.
Qed.

(** The parser's way through [baseUrl + '#' + t]: the strip at both ends
    and the removal of tabs and newlines leave the first [#] where it is. *)
Lemma strip_leading_upto (b t : string) :
  JsString.contains "#" b = false ->
  ∃ b', JsString.contains "#" b' = false
        ∧ URL.strip_leading (b ++ String "#" t) = b' ++ String "#" t.
Proof.
  induction b as [|x b IH]; intros Hb.
  - by exists "".
  - change (String x b ++ String "#" t) with (String x (b ++ String "#" t)).
    cbn [URL.strip_leading]. cbn [JsString.contains] in Hb.
    apply orb_false_elim in Hb as [Hx Hb].
    destruct (URL.c0_or_space x); [by apply IH|].
    exists (String x b). split; [|reflexivity]. cbn [JsString.contains]. by rewrite Hx, Hb.
Qed.

Lemma strip_trailing_upto (b t : string) :
  URL.strip_trailing (b ++ String "#" t) = b ++ String "#" (URL.strip_trailing t).
Proof.
  induction b as [|x b IH].
  - change ("" ++ String "#" ?u) with (String "#" u).
    cbn [URL.strip_trailing]. by destruct (URL.strip_trailing t).
  - change (String x b ++ String "#" ?u) with (String x (b ++ String "#" u)).
    cbn [URL.strip_trailing]. rewrite IH.
    destruct b; reflexivity.
Qed.

Lemma remove_tab_newline_upto (b t : string) :
  JsString.contains "#" b = false ->
  ∃ b', JsString.contains "#" b' = false
        ∧ URL.remove_tab_newline (b ++ String "#" t)
          = b' ++ String "#" (URL.remove_tab_newline t).
Proof.
  induction b as [|x b IH]; intros Hb.
  - by exists "".
  - change (String x b ++ String "#" t) with (String x (b ++ String "#" t)).
    cbn [URL.remove_tab_newline]. cbn [JsString.contains] in Hb.
    apply orb_false_elim in Hb as [Hx Hb].
    destruct (IH Hb) as (b' & Hb' & ->).
    destruct (URL.tab_or_newline x); [by exists b'|].
    exists (String x b'). split; [|reflexivity]. cbn [JsString.contains]. by rewrite Hx, Hb'.
Qed.

Lemma after_first_upto (b t : string) :
  JsString.contains "#" b = false ->
  JsString.contains "#" (b ++ String "#" t) = true
  ∧ JsString.after_first "#" (b ++ String "#" t) = t.
Proof.
  induction b as [|x b IH]; intros Hb.
  - done.
  - change (String x b ++ String "#" t) with (String x (b ++ String "#" t)).
    cbn [JsString.contains] in Hb. apply orb_false_elim in Hb as [Hx Hb].
    cbn [JsString.contains JsString.after_first]. rewrite Hx.
    destruct (IH Hb) as [-> ->]. done.
Qed.

(** [location.replace(baseUrl + '#' + t)] leaves the hash of the fragment
    [t] without the C0 controls and spaces at its end. *)
Lemma hash_of_url_upto (b t : string) :
  JsString.contains "#" b = false ->
  hash_of_url (b ++ String "#" t) = URL.hash (URL.fragment (URL.strip_trailing t)).
Proof.
  intros Hb. unfold hash_of_url. cbv zeta.
  destruct (strip_leading_upto b t Hb) as (b1 & Hb1 & ->).
  rewrite strip_trailing_upto.
  destruct (remove_tab_newline_upto b1 (URL.strip_trailing t) Hb1) as (b2 & Hb2 & ->).
  by destruct (after_first_upto b2 (URL.remove_tab_newline (URL.strip_trailing t)) Hb2)
    as [-> ->].
Qed.

(** For an argument that does not end in a C0 control or a space,
    [location.replace(baseUrl + safePath)] leaves the hash that
    [location.hash = safePath] leaves. *)
Lemma replaced_hash (e : Environment) (newPath : string) :
  URL.strip_trailing newPath = newPath ->
  hash_of_url (JsString.cut_at "#" (location_href e) ++ safePath_of newPath)
  = hash_of_fragment (safePath_of newPath).
Proof.
  intros H%strip_trailing_safePath.
  destruct (safePath_shape newPath) as [r Hr]. rewrite Hr in *.
  rewrite hash_of_url_upto by apply before_first_free.
  by rewrite (strip_trailing_suffix _ _ H).
Qed.

(** An argument with plain bytes only that does not start with [#] is
    written to the location as it stands, by [push] and by [replace]. *)
Lemma written_hash_plain (e : Environment) (newPath : string) (replace : bool) :
  JsString.startsWith newPath "#" = false ->
  URL.plain newPath = true ->
  (if replace
   then hash_of_url (JsString.cut_at "#" (location_href e) ++ safePath_of newPath)
   else hash_of_fragment (safePath_of newPath))
  = safePath_of newPath.
Proof.
  intros Hstart Hplain.
  assert (Hpush : hash_of_fragment (safePath_of newPath) = safePath_of newPath).
  { unfold safePath_of. rewrite Hstart.
    change ("#!/" ++ ?x) with (String "#" (String "!" (String "/" x))).
    unfold hash_of_fragment. rewrite fragment_plain; [reflexivity|].
    cbn [URL.plain]. by rewrite plain_strip_leading. }
  destruct replace; [|exact Hpush].
  rewrite replaced_hash; [exact Hpush|]. by apply strip_trailing_plain.
Qed.

(** A space inside the argument is percent-encoded by both writes, so
    the hash differs from the recorded address; at the end of the argument
    it is encoded by the setter of [location.hash] and stripped by
    [location.replace]. *)
Example written_hash_examples :
  hash_of_fragment "#!/a b" = "#!/a%20b"
  ∧ location_hash (env (exec (push "/a b") Sample.fresh)) = "#!/a%20b"
  ∧ lastHash (router (exec (push "/a b") Sample.fresh)) = "#!/a b"
  ∧ location_hash (env (exec (push "/a ") Sample.fresh)) = "#!/a%20"
  ∧ location_hash (env (exec (replace "/a ") Sample.fresh)) = "#!/a"
  ∧ hash_of_fragment ("#!/caf" ++ String (ascii_of_N 195) (String (ascii_of_N 169) ""))
    = "#!/caf%C3%A9"
  ∧ hash_of_fragment "#" = ""
  ∧ hash_of_fragment "" = "".
Proof. vm_compute. repeat split. Qed.

Lemma writes_app (a b : list Event) : writes (a ++ b)%list = (writes a ++ writes b)%list.
Proof. apply omap_app. Qed.

(** X10.  A before-guard that never settles hangs a programmatic
    navigation for good, as long as [makeRoute()] returns and no guard
    rejects: the call never resolves, nothing is written to the location and
    the route, the previous route and the recorded address stay as they
    were. *)
Theorem stalled_guard_hangs_navigation (newPath : string) (replace : bool) (w : World)
        (built : Route) :
  destroyed (router w) = false ->
  route_here w = Some built ->
  first_rejection (guard_outcomes (length (heap w)) (proposed (candidate_of newPath built) w))
  = None ->
  existsb pending (guard_outcomes (length (heap w)) (proposed (candidate_of newPath built) w))
  = true ->
  let w' := exec (changeHash newPath replace) w in
  eval (changeHash newPath replace) w = Hang
  ∧ route (router w') = route (router w)
  ∧ prevRoute (router w') = prevRoute (router w)
  ∧ lastHash (router w') = lastHash (router w)
  ∧ env w' = env w
  ∧ writes (log w') = writes (log w).
Proof.
  intros Hlive Hbuilt Hnone Hpending. cbv zeta. unfold exec, eval.
  rewrite changeHash_run, Hbuilt, canNavigate_unfold by done. cbv zeta.
  rewrite Hnone, Hpending. cbn [fst snd].
  destruct (after_guards_frame (length (heap w)) (proposed (candidate_of newPath built) w))
    as (_ & Henv & Hroute & Hprev & _ & Hlast).
  split; [reflexivity|]. split; [exact Hroute|]. split; [exact Hprev|].
  split; [exact Hlast|]. split; [exact Henv|].
  destruct (after_guards_log (length (heap w)) (proposed (candidate_of newPath built) w))
    as (events & -> & _ & Hquiet).
  rewrite writes_app, Hquiet, app_nil_r. cbn [proposed on_heap logged log].
  rewrite writes_app.
  destruct (status_trace_emits msg_navigating "loading" w) as [_ ->].
  by rewrite app_nil_r.
Qed.

Lemma stalled_guard_hangs_navigation_witness :
  eval (push "/about") Fixture.stalled = Hang
  ∧ location_hash (env (exec (push "/about") Fixture.stalled)) = "#!/home".
Proof.
  destruct (stalled_guard_hangs_navigation "/about" false Fixture.stalled Sample.home
              eq_refl eq_refl eq_refl eq_refl) as (H & _ & _ & _ & He & _).
  split; [exact H|]. unfold push. cbv zeta in He. by rewrite He.
Defined.

(** The world a programmatic navigation with passing guards leaves. *)
Lemma changeHash_passes_run (newPath : string) (replace : bool) (w : World)
      (built : Route) :
  destroyed (router w) = false ->
  route_here w = Some built ->
  forallb passes (guard_outcomes (length (heap w)) (proposed (candidate_of newPath built) w))
  = true ->
  let w2 := after_guards (length (heap w)) (proposed (candidate_of newPath built) w) in
  changeHash newPath replace w
  = (Ok true,
     after_commit (length (heap w))
       (on_router (set_lastHash (safePath_of newPath))
          (on_env (set_location_hash
                     (if replace
                      then hash_of_url (JsString.cut_at "#" (location_href (env w))
                                        ++ safePath_of newPath)
                      else hash_of_fragment (safePath_of newPath)))
             (record (if replace
                      then LocationReplace (JsString.cut_at "#" (location_href (env w))
                                            ++ safePath_of newPath)
                      else WroteHash (safePath_of newPath)) w2)))).
Proof.
  intros Hlive Hbuilt Hpass. cbv zeta.
  rewrite changeHash_run, Hbuilt, canNavigate_passes by done.
  destruct (after_guards_frame (length (heap w)) (proposed (candidate_of newPath built) w))
    as (_ & Henv & _ & _ & Hdestroyed & _).
  rewrite Henv. change (env (proposed _ w)) with (env w).
  rewrite bind_run, completeNavigation_run; [reflexivity|].
  change (destroyed (router (after_guards (length (heap w))
                                           (proposed (candidate_of newPath built) w)))
          = false).
  by rewrite Hdestroyed.
Qed.

Lemma changeHash_passes (newPath : string) (replace : bool) (w : World) (built : Route) :
  allocated w ->
  destroyed (router w) = false ->
  route_here w = Some built ->
  forallb passes (guard_outcomes (length (heap w)) (proposed (candidate_of newPath built) w))
  = true ->
  let w' := exec (changeHash newPath replace) w in
  eval (changeHash newPath replace) w = Ok true
  ∧ deref (heap w') (route (router w')) = candidate_of newPath built
  ∧ path (deref (heap w') (route (router w'))) = JsString.strip_leading "/" newPath
  ∧ deref (heap w') (prevRoute (router w')) = deref (heap w) (route (router w))
  ∧ lastHash (router w') = safePath_of newPath
  ∧ location_hash (env w')
    = (if replace
       then hash_of_url (JsString.cut_at "#" (location_href (env w)) ++ safePath_of newPath)
       else hash_of_fragment (safePath_of newPath))
  ∧ destroyed (router w') = false.
Proof.
  intros Hw Hlive Hbuilt Hpass.
  assert (Hphase : eval (programmatic_guard_phase newPath) w = Ok true).
  { unfold eval. rewrite programmatic_guard_phase_run, Hbuilt.
    by rewrite canNavigate_passes. }
  destruct (changeHash_commits newPath replace w built Hw Hlive Hbuilt Hphase)
    as (H1 & _ & H2 & H3 & H4 & H5).
  cbv zeta. do 5 (split; [assumption|]).
  unfold exec. rewrite (changeHash_passes_run newPath replace w built) by done. cbn [snd].
  destruct (after_guards_frame (length (heap w)) (proposed (candidate_of newPath built) w))
    as (_ & _ & _ & _ & Hdestroyed & _).
  split; [reflexivity|].
  change (destroyed (router (after_guards (length (heap w))
                                           (proposed (candidate_of newPath built) w)))
          = false).
  by rewrite Hdestroyed.
Qed.

(** X11.  On a live router a programmatic navigation for which
    [makeRoute()] returns and whose guards all pass resolves [true]: the
    candidate, whose path is the argument without its leading slashes, is
    the current route, the previous route is a copy of the route that was
    current, and the recorded address is the text the call wrote.  The hash
    of the location is that text as the URL parser leaves it; it is the text
    itself when the argument does not start with [#] and has plain bytes
    only. *)
Theorem programmatic_navigation_commits (newPath : string) (replace : bool) (w : World)
        (built : Route) :
  allocated w ->
  destroyed (router w) = false ->
  route_here w = Some built ->
  forallb passes (guard_outcomes (length (heap w)) (proposed (candidate_of newPath built) w))
  = true ->
  let w' := exec (changeHash newPath replace) w in
  eval (changeHash newPath replace) w = Ok true
  ∧ deref (heap w') (route (router w')) = candidate_of newPath built
  ∧ path (deref (heap w') (route (router w'))) = JsString.strip_leading "/" newPath
  ∧ deref (heap w') (prevRoute (router w')) = deref (heap w) (route (router w))
  ∧ lastHash (router w') = safePath_of newPath
  ∧ location_hash (env w')
    = (if replace
       then hash_of_url (JsString.cut_at "#" (location_href (env w)) ++ safePath_of newPath)
       else hash_of_fragment (safePath_of newPath))
  ∧ (JsString.startsWith newPath "#" = false -> URL.plain newPath = true ->
     location_hash (env w') = safePath_of newPath)
  ∧ destroyed (router w') = false.
Proof.
  intros Hw Hlive Hbuilt Hpass.
  destruct (changeHash_passes newPath replace w built Hw Hlive Hbuilt Hpass)
    as (H1 & H2 & H3 & H4 & H5 & H6 & H7).
  cbv zeta in *. do 6 (split; [assumption|]). split; [|assumption].
  intros Hstart Hplain. rewrite H6. by apply written_hash_plain.
Qed.

Lemma programmatic_navigation_commits_witness :
  eval (replace "//about") Sample.hooked = Ok true
  ∧ path (deref (heap (exec (replace "//about") Sample.hooked))
                (route (router (exec (replace "//about") Sample.hooked)))) = "about"
  ∧ location_hash (env (exec (replace "//about") Sample.hooked)) = "#!/about".
Proof.
  destruct (programmatic_navigation_commits "//about" true Sample.hooked Sample.home
              ltac:(unfold allocated; vm_compute; lia) eq_refl eq_refl eq_refl)
    as (H1 & _ & H2 & _ & _ & _ & H3 & _).
  split; [exact H1|]. split; [exact H2 | exact (H3 eq_refl eq_refl)].
Defined.

(** X12.  On a live router a programmatic navigation for which
    [makeRoute()] returns and that a guard vetoes with a fault whose
    [message] can be read resolves [false]: the route, the previous route
    and the whole environment are as before, nothing is written to the
    location, and the status events of the call are the loading status
    followed by the error status that carries the message of the earliest
    rejection. *)
Theorem vetoed_navigation_rolls_nothing (newPath : string) (replace : bool) (w : World)
        (built : Route) (t : nat) (m : option string) :
  destroyed (router w) = false ->
  route_here w = Some built ->
  first_rejection (guard_outcomes (length (heap w)) (proposed (candidate_of newPath built) w))
  = Some (t, Value m) ->
  let w' := exec (changeHash newPath replace) w in
  eval (changeHash newPath replace) w = Ok false
  ∧ route (router w') = route (router w)
  ∧ prevRoute (router w') = prevRoute (router w)
  ∧ lastHash (router w') = lastHash (router w)
  ∧ env w' = env w
  ∧ writes (log w') = writes (log w)
  ∧ statuses_emitted (log w')
    = (statuses_emitted (log w)
       ++ [(msg_navigating, "loading");
           (msg_cancelled +:+ default "undefined" m, "error")])%list.
Proof.
  intros Hlive Hbuilt Hrej.
  destruct (push_vetoed_by_guard newPath replace w built t m Hlive Hbuilt Hrej)
    as (H1 & H2 & H3 & H4 & H5 & H6).
  destruct (canNavigate_vetoed (length (heap w)) (proposed (candidate_of newPath built) w)
              t m Hlive Hrej) as (Hres & _ & _).
  assert (Hphase : eval (programmatic_guard_phase newPath) w = Ok false).
  { unfold eval. by rewrite programmatic_guard_phase_run, Hbuilt. }
  destruct (changeHash_vetoed newPath replace w built Hbuilt Hphase)
    as (_ & _ & _ & H7 & _).
  by repeat split.
Qed.

Lemma vetoed_navigation_rolls_nothing_witness :
  eval (push "/admin") Sample.guarded = Ok false
  ∧ location_hash (env (exec (push "/admin") Sample.guarded)) = "#!/home".
Proof.
  destruct (vetoed_navigation_rolls_nothing "/admin" false Sample.guarded Sample.home 1
              (Some "Access denied") eq_refl eq_refl eq_refl) as (H1 & _ & _ & _ & He & _).
  split; [exact H1|]. unfold push. cbv zeta in He. by rewrite He.
Defined.

(** [completeNavigation] looks neither at the log nor at the hash of the
    location. *)
Lemma completeNavigation_blind (newRoute : loc) (r : Router) (h : list Route)
      (e : Environment) (l1 l2 : list Event) (hash1 hash2 : string) :
  let a := completeNavigation newRoute (mkWorld r h (set_location_hash hash1 e) l1) in
  let b := completeNavigation newRoute (mkWorld r h (set_location_hash hash2 e) l2) in
  a.1 = b.1 ∧ router a.2 = router b.2 ∧ heap a.2 = heap b.2
  ∧ set_location_hash "" (env a.2) = set_location_hash "" (env b.2)
  ∧ (hash1 = hash2 -> env a.2 = env b.2).
Proof.
  cbv zeta. destruct (destroyed r) eqn:Hd.
  - rewrite !completeNavigation_destroyed by exact Hd.
    repeat split. by intros ->.
  - rewrite !completeNavigation_run by exact Hd.
    repeat split. by intros ->.
Qed.

(** X13.  [replace] and [push] differ in how the address is written
    only: for every argument and in every state they end alike and leave the
    same router state and the same route objects, and the same environment
    up to the hash of the location.  The hash is the same too when the
    argument does not end in a C0 control or a space, which
    [location.replace] strips and the setter of [location.hash] encodes. *)
Theorem replace_navigates_like_push (newPath : string) (w : World) :
  let wr := exec (replace newPath) w in
  let wp := exec (push newPath) w in
  eval (replace newPath) w = eval (push newPath) w
  ∧ router wr = router wp
  ∧ heap wr = heap wp
  ∧ set_location_hash "" (env wr) = set_location_hash "" (env wp)
  ∧ (URL.strip_trailing newPath = newPath -> env wr = env wp).
Proof.
  cbv zeta. unfold replace, push, exec, eval. rewrite !changeHash_run.
  destruct (route_here w) as [built|]; [|done].
  destruct (canNavigate (length (heap w)) (proposed (candidate_of newPath built) w))
    as [[[]| |] w2]; try done.
  pose proof (completeNavigation_blind (length (heap w))
                (set_lastHash (safePath_of newPath) (router w2)) (heap w2) (env w2)
                (log w2 ++ [LocationReplace (JsString.cut_at "#" (location_href (env w2))
                                             ++ safePath_of newPath)])%list
                (log w2 ++ [WroteHash (safePath_of newPath)])%list
                (hash_of_url (JsString.cut_at "#" (location_href (env w2))
                              ++ safePath_of newPath))
                (hash_of_fragment (safePath_of newPath))) as H.
  cbv zeta in H. destruct H as (H1 & H2 & H3 & H4 & H5).
  rewrite !bind_run.
  match type of H1 with (?a).1 = (?b).1 =>
    change a with (completeNavigation (length (heap w))
                     (on_router (set_lastHash (safePath_of newPath))
                        (on_env (set_location_hash
                                   (hash_of_url (JsString.cut_at "#" (location_href (env w2))
                                                 ++ safePath_of newPath)))
                           (record (LocationReplace
                                      (JsString.cut_at "#" (location_href (env w2))
                                       ++ safePath_of newPath)) w2)))) in *;
    change b with (completeNavigation (length (heap w))
                     (on_router (set_lastHash (safePath_of newPath))
                        (on_env (set_location_hash (hash_of_fragment (safePath_of newPath)))
                           (record (WroteHash (safePath_of newPath)) w2)))) in *
  end.
  destruct (completeNavigation (length (heap w)) (on_router _ (on_env _ (record (LocationReplace _) w2))))
    as [[[]| |] w3];
    destruct (completeNavigation (length (heap w)) (on_router _ (on_env _ (record (WroteHash _) w2))))
      as [[[]| |] w4];
    cbn [fst snd] in *; try discriminate; unfold mret, M_ret; cbn [fst snd];
    try (injection H1 as <-).
  all: split; [reflexivity|]; split; [assumption|]; split; [assumption|];
       split; [assumption|]; intros Hend; apply H5; by apply replaced_hash.
Qed.

Lemma replace_navigates_like_push_witness :
  location_hash (env (exec (replace "/about") Sample.hooked))
  = location_hash (env (exec (push "/about") Sample.hooked)).
Proof.
  destruct (replace_navigates_like_push "/about" Sample.hooked) as (_ & _ & _ & _ & H).
  by rewrite (H eq_refl).
Defined.

(** X14.  The router does not process its own write: after a live
    programmatic navigation has committed to a path that does not start
    with [#] and has plain bytes only, none that the URL parser removes or
    percent-encodes, the address-change event the write raises finds the hash
    equal to the recorded address and changes nothing. *)
Theorem own_write_is_ignored (newPath : string) (replace : bool) (w : World)
        (built : Route) :
  allocated w ->
  destroyed (router w) = false ->
  route_here w = Some built ->
  forallb passes (guard_outcomes (length (heap w)) (proposed (candidate_of newPath built) w))
  = true ->
  JsString.startsWith newPath "#" = false ->
  URL.plain newPath = true ->
  let w' := exec (changeHash newPath replace) w in
  location_hash (env w') = lastHash (router w')
  ∧ handleRouteChange w' = (Ok tt, w').
Proof.
  intros Hw Hlive Hbuilt Hpass Hstart Hplain.
  destruct (changeHash_passes newPath replace w built Hw Hlive Hbuilt Hpass)
    as (_ & _ & _ & _ & Hlast & Hhash & Hdestroyed).
  cbv zeta in *.
  rewrite written_hash_plain in Hhash by done.
  assert (Hsafe : safePath_of newPath = "#!/" ++ JsString.strip_leading "/" newPath).
  { unfold safePath_of. by rewrite Hstart. }
  split; [by rewrite Hhash, Hlast|].
  unfold handleRouteChange. rewrite bind_run. cbn [get].
  rewrite Hdestroyed, Hhash, Hlast.
  assert (Hanchor : ∀ e, isNativeAnchor e (safePath_of newPath) = false).
  { intros e. by rewrite Hsafe. }
  by rewrite Hanchor, String.eqb_refl.
Qed.

Lemma own_write_is_ignored_witness :
  handleRouteChange (exec (push "/about") Sample.hooked)
  = (Ok tt, exec (push "/about") Sample.hooked).
Proof.
  apply (own_write_is_ignored "/about" false Sample.hooked Sample.home
           ltac:(unfold allocated; vm_compute; lia) eq_refl eq_refl eq_refl eq_refl eq_refl).
Defined.

(** X15.  Leading slashes of the argument do not matter: for a path that
    does not start with [#], a programmatic navigation to the path with one
    more slash in front does exactly what the navigation to the path does. *)
Theorem leading_slash_is_dropped (newPath : string) (replace : bool) (w : World) :
  JsString.startsWith newPath "#" = false ->
  changeHash (String "/" newPath) replace w = changeHash newPath replace w.
Proof.
  intros Hplain. rewrite !changeHash_run.
  assert (Hsafe : safePath_of (String "/" newPath) = safePath_of newPath).
  { unfold safePath_of. rewrite Hplain. reflexivity. }
  assert (Hcand : ∀ built, candidate_of (String "/" newPath) built
                           = candidate_of newPath built) by reflexivity.
  destruct (route_here w) as [built|]; [|reflexivity].
  by rewrite Hsafe, Hcand.
Qed.

Lemma leading_slash_is_dropped_witness :
  changeHash "//about" false Sample.hooked = changeHash "about" false Sample.hooked.
Proof.
  rewrite (leading_slash_is_dropped "/about" false Sample.hooked eq_refl).
  apply (leading_slash_is_dropped "about" false Sample.hooked eq_refl).
Defined.

(* ===================================================================== *)
(** * Further properties: the registries                                  *)
(* ===================================================================== *)

(** X16.  On a live router [beforeEach] puts the guard at the end of the
    list and then calls it once, at once, with the current and the previous
    route.  The call is not protected: a guard that throws there makes
    [beforeEach] throw the same value, so the caller gets no unsubscribe
    function, and the guard stays registered all the same. *)
Theorem beforeEach_calls_at_once (callback : Guard) (w : World) :
  destroyed (router w) = false ->
  let w' := exec (beforeEach (Some callback)) w in
  let answer := guard_run callback (deref (heap w) (route (router w)))
                          (deref (heap w) (prevRoute (router w))) in
  beforeListeners (router w') = (beforeListeners (router w) ++ [callback])%list
  ∧ log w' = (log w ++ [CalledGuard (guard_ref callback)
                                    (route (router w)) (prevRoute (router w))])%list
  ∧ eval (beforeEach (Some callback)) w
    = match answer with
      | Throws e => Throw (UserThrown e)
      | _ => Ok (Remove Before (guard_ref callback))
      end
  ∧ set_beforeListeners (beforeListeners (router w)) (router w') = router w
  ∧ heap w' = heap w ∧ env w' = env w.
Proof.
  intros Hlive. cbv zeta. unfold exec, eval, beforeEach, addBeforeListener.
  rewrite bind_run. cbn [get]. rewrite Hlive.
  rewrite !bind_run. cbn [modify].
  destruct (guard_run callback _ _); cbn [fst snd mret M_ret throw];
    (repeat split; try reflexivity; by destruct w as [[] ? ? ?]).
Qed.

Lemma beforeEach_calls_at_once_witness :
  eval (beforeEach (Some Fixture.refuse)) Sample.fresh
  = Throw (UserThrown (Value (Some "not now")))
  ∧ beforeListeners (router (exec (beforeEach (Some Fixture.refuse)) Sample.fresh))
    = [Fixture.refuse].
Proof.
  destruct (beforeEach_calls_at_once Fixture.refuse Sample.fresh eq_refl)
    as (H1 & _ & H2 & _).
  split; [exact H2 | exact H1].
Defined.

Lemma remove_first_app {A} (ref_of : A -> nat) (l1 l2 : list A) (x : A) :
  ref_of x ∉ map ref_of l1 ->
  remove_first ref_of (ref_of x) (l1 ++ x :: l2)%list = (l1 ++ l2)%list.
Proof.
  induction l1 as [|y l1 IH]; intros Hfresh.
  - cbn. by rewrite Nat.eqb_refl.
  - cbn [map] in Hfresh. apply not_elem_of_cons in Hfresh as [Hne Hfresh].
    cbn. destruct (Nat.eqb_spec (ref_of y) (ref_of x)) as [Heq|_]; [congruence|].
    by rewrite IH.
Qed.

Lemma remove_first_absent {A} (ref_of : A -> nat) (ref : nat) (l : list A) :
  ref ∉ map ref_of l -> remove_first ref_of ref l = l.
Proof.
  induction l as [|y l IH]; intros Hfresh; [done|].
  cbn [map] in Hfresh. apply not_elem_of_cons in Hfresh as [Hne Hfresh].
  cbn. destruct (Nat.eqb_spec (ref_of y) ref) as [Heq|_]; [congruence|].
  by rewrite IH.
Qed.

Lemma addBeforeListener_run (callback : Guard) (w : World) :
  destroyed (router w) = false ->
  beforeEach (Some callback) w
  = (match guard_run callback (deref (heap w) (route (router w)))
                     (deref (heap w) (prevRoute (router w))) with
     | Throws e => Throw (UserThrown e)
     | _ => Ok (Remove Before (guard_ref callback))
     end,
     record (CalledGuard (guard_ref callback) (route (router w)) (prevRoute (router w)))
            (on_router (fun r => set_beforeListeners (beforeListeners r ++ [callback])%list r)
                       w)).
Proof.
  intros Hlive. unfold beforeEach, addBeforeListener.
  rewrite bind_run. cbn [get]. rewrite Hlive.
  rewrite !bind_run. cbn [modify].
  by destruct (guard_run callback _ _).
Qed.

(** X17.  Subscribing and unsubscribing is a round trip: on a live router,
    for a callback that is not in the registry yet, calling the function a
    registration returned puts the router back to the state before the
    registration, for all four registries. *)
Theorem unsubscribe_undoes_subscribe (w : World) :
  destroyed (router w) = false ->
  (∀ callback : Hook,
      hook_ref callback ∉ map hook_ref (afterListeners (router w)) ->
      ∃ d w1, afterEach (Some callback) w = (Ok d, w1) ∧ exec (dispose d) w1 = w)
  ∧ (∀ callback : StatusCallback,
        status_ref callback ∉ map status_ref (statusCallbacks (router w)) ->
        ∃ d w1, onStatus (Some callback) w = (Ok d, w1) ∧ exec (dispose d) w1 = w)
  ∧ (∀ callback : ScrollCallback,
        scroll_ref callback ∉ map scroll_ref (scrollCallbacks (router w)) ->
        ∃ d w1, onScroll (Some callback) w = (Ok d, w1) ∧ exec (dispose d) w1 = w)
  ∧ (∀ (callback : Guard) d w1,
        guard_ref callback ∉ map guard_ref (beforeListeners (router w)) ->
        beforeEach (Some callback) w = (Ok d, w1) ->
        router (exec (dispose d) w1) = router w).
Proof.
  intros Hlive. split; [|split; [|split]].
  - intros callback Hfresh. eexists _, _.
    unfold afterEach, addAfterListener. rewrite bind_run. cbn [get]. rewrite Hlive.
    split; [reflexivity|].
    unfold exec, dispose. rewrite bind_run. cbn [get]. cbn. rewrite Hlive. cbn.
    unfold on_router, set_afterListeners. cbn.
    rewrite (remove_first_app hook_ref _ [] callback Hfresh), app_nil_r.
    by destruct w as [[] ? ? ?].
  - intros callback Hfresh. eexists _, _.
    unfold onStatus, addStatusListener. rewrite bind_run. cbn [get]. rewrite Hlive.
    split; [reflexivity|].
    unfold exec, dispose. rewrite bind_run. cbn [get]. cbn. rewrite Hlive. cbn.
    unfold on_router, set_statusCallbacks. cbn.
    rewrite (remove_first_app status_ref _ [] callback Hfresh), app_nil_r.
    by destruct w as [[] ? ? ?].
  - intros callback Hfresh. eexists _, _.
    unfold onScroll, addScrollListener. rewrite bind_run. cbn [get]. rewrite Hlive.
    split; [reflexivity|].
    unfold exec, dispose. rewrite bind_run. cbn [get]. cbn. rewrite Hlive. cbn.
    unfold on_router, set_scrollCallbacks. cbn.
    rewrite (remove_first_app scroll_ref _ [] callback Hfresh), app_nil_r.
    by destruct w as [[] ? ? ?].
  - intros callback d w1 Hfresh. rewrite addBeforeListener_run by done.
    destruct (guard_run callback _ _); intros Heq; try discriminate; simplify_eq;
      unfold exec, dispose; rewrite bind_run; cbn [get]; cbn; rewrite Hlive; cbn;
      unfold on_router, set_beforeListeners; cbn;
      rewrite (remove_first_app guard_ref _ [] callback Hfresh), app_nil_r;
      by destruct w as [[] ? ? ?].
Qed.

Lemma unsubscribe_undoes_subscribe_witness :
  ∃ d w1, afterEach (Some Sample.quiet_hook) Sample.fresh = (Ok d, w1)
          ∧ exec (dispose d) w1 = Sample.fresh.
Proof.
  destruct (unsubscribe_undoes_subscribe Sample.fresh eq_refl) as (H & _).
  apply H. vm_compute. apply not_elem_of_nil.
Defined.

Lemma dispose_after_run (ref : nat) (w : World) :
  destroyed (router w) = false ->
  dispose (Remove After ref) w
  = (Ok tt,
     on_router (fun r => set_afterListeners
                           (remove_first hook_ref ref (afterListeners r)) r) w).
Proof.
  intros Hlive. unfold dispose. rewrite bind_run. cbn [get]. by rewrite Hlive.
Qed.

(** X18.  An unsubscribe function removes one registration, the first one
    of its callback in the list, and nothing when the callback is no longer
    there: calling it a second time changes nothing, and the other
    callbacks keep their order. *)
Theorem unsubscribe_removes_first (w : World) (callback : Hook) (l1 l2 : list Hook) :
  destroyed (router w) = false ->
  afterListeners (router w) = (l1 ++ callback :: l2)%list ->
  hook_ref callback ∉ map hook_ref l1 ->
  let d := Remove After (hook_ref callback) in
  let w1 := exec (dispose d) w in
  afterListeners (router w1) = (l1 ++ l2)%list
  ∧ set_afterListeners (afterListeners (router w)) (router w1) = router w
  ∧ (hook_ref callback ∉ map hook_ref l2 -> exec (dispose d) w1 = w1).
Proof.
  intros Hlive Hlist Hfresh. cbv zeta. unfold exec.
  rewrite dispose_after_run by done. cbn [snd].
  assert (Hafter : afterListeners (router (on_router (fun r =>
                     set_afterListeners
                       (remove_first hook_ref (hook_ref callback) (afterListeners r)) r) w))
                   = (l1 ++ l2)%list).
  { cbn. by rewrite Hlist, remove_first_app. }
  split; [exact Hafter|]. split; [by destruct w as [[] ? ? ?]|].
  intros Hfresh2. rewrite dispose_after_run by exact Hlive. cbn [snd].
  unfold on_router at 1. unfold set_afterListeners at 1. rewrite Hafter.
  rewrite remove_first_absent by (rewrite map_app; by apply not_elem_of_app).
  rewrite <- Hafter. reflexivity.
Qed.

Lemma unsubscribe_removes_first_witness :
  afterListeners (router (exec (dispose (Remove After 4)) Sample.hooked))
  = [Sample.quiet_hook].
Proof.
  destruct (unsubscribe_removes_first Sample.hooked Sample.broken_hook []
              [Sample.quiet_hook] eq_refl eq_refl ltac:(apply not_elem_of_nil))
    as (H & _).
  exact H.
Defined.

(* ===================================================================== *)
(** * Further properties: scroll tracking, teardown, construction         *)
(* ===================================================================== *)

(** X19.  The window's scroll listener informs and stores nothing: it
    never throws and changes neither the router's state nor the environment;
    on a live router it hands the scroll callbacks one [update] event with
    the window's offsets, the time and the current path, and after teardown
    it does nothing at all. *)
Theorem updateScrollTracking_only_informs (w : World) :
  let w' := exec updateScrollTracking w in
  let event := ScrollEvent.mk "update" (pageXOffset (env w)) (pageYOffset (env w))
                              (clock (env w)) (path (deref (heap w) (route (router w)))) ∅ in
  eval updateScrollTracking w = Ok tt
  ∧ router w' = router w ∧ heap w' = heap w ∧ env w' = env w
  ∧ log w' = (log w ++ if destroyed (router w) then [] else scroll_trace event w)%list.
Proof.
  cbv zeta. unfold exec, eval, updateScrollTracking. rewrite bind_run. cbn [get].
  destruct (destroyed (router w)).
  - cbn. by rewrite app_nil_r.
  - rewrite bind_run, emitScroll_run. done.
Qed.

(** X20.  [destroy] sets the latch, blanks the recorded address, takes
    both listeners off the window and empties the four registries and the
    scroll map; the two route objects stay readable, and a second [destroy]
    changes nothing. *)
Theorem destroy_is_idempotent (w : World) :
  let w' := exec destroy w in
  eval destroy w = Ok tt
  ∧ torn_down w'
  ∧ scrollPositions (router w') = ∅
  ∧ hashchange_listener (env w') = false ∧ scroll_listener (env w') = false
  ∧ route (router w') = route (router w) ∧ prevRoute (router w') = prevRoute (router w)
  ∧ heap w' = heap w ∧ log w' = log w
  ∧ exec destroy w' = w'.
Proof. cbv zeta. unfold exec, eval. rewrite !destroy_run. by repeat split. Qed.

(** X21.  The latch is never unset: whatever is called on a destroyed
    router, an operation of the interface, an unsubscribe function or a
    window event, the router is destroyed afterwards too. *)
Theorem latch_stays_set (c : Call) (w : World) :
  destroyed (router w) = true -> destroyed (router (exec (perform c) w)) = true.
Proof. apply destroyed_is_a_latch. Qed.

Lemma latch_stays_set_witness :
  destroyed (router (exec (perform (CallPush "/about")) Fixture.gone)) = true.
Proof. exact (latch_stays_set (CallPush "/about") Fixture.gone eq_refl). Defined.

(** X22.  After teardown no callback is ever called again; every call
    leaves the router torn down, and of the closure's variables none but the
    scroll map can still change.  No call throws but [push] and [replace]:
    these still run [makeRoute()] before they look at the latch, and reject
    with its type error when the address has a parameter named like an
    inherited property. *)
Theorem nothing_runs_after_destroy (c : Call) (w : World) :
  torn_down w ->
  let w' := exec (perform c) w in
  eval (perform c) w
  = match c, route_here w with
    | CallPush _, None | CallReplace _, None => Throw TypeError
    | _, _ => Ok tt
    end
  ∧ calls (log w') = calls (log w)
  ∧ torn_down w'
  ∧ set_scrollPositions ∅ (router w') = set_scrollPositions ∅ (router w).
Proof.
  intros Htorn.
  destruct (silent_after_destroy c w Htorn) as (H1 & H2 & H3).
  destruct (router_after_destroy c w Htorn) as (H4 & _).
  cbv zeta in *. split; [exact H1|]. split; [exact H2|]. split; [exact H3|exact H4].
Qed.

Lemma nothing_runs_after_destroy_witness :
  eval (perform (CallBeforeEach (Some Fixture.refuse))) Fixture.gone = Ok tt
  ∧ calls (log (exec (perform (CallBeforeEach (Some Fixture.refuse))) Fixture.gone))
    = calls (log Fixture.gone)
  ∧ eval (perform (CallPush "/about"))
         (on_env (set_location_hash "#!/home?constructor=1") Fixture.gone)
    = Throw TypeError.
Proof.
  destruct (nothing_runs_after_destroy (CallBeforeEach (Some Fixture.refuse)) Fixture.gone
              ltac:(by repeat split)) as (H1 & H2 & _).
  destruct (nothing_runs_after_destroy (CallPush "/about")
              (on_env (set_location_hash "#!/home?constructor=1") Fixture.gone)
              ltac:(by repeat split)) as (H3 & _).
  split; [exact H1|]. split; [exact H2 | exact H3].
Defined.

Lemma writes_after_commit (newRoute : loc) (w : World) :
  writes (log (after_commit newRoute w)) = writes (log w).
Proof.
  unfold after_commit. cbv zeta. cbn [logged log on_env committed on_router on_heap].
  rewrite !writes_app.
  match goal with |- context [status_trace msg_complete "success" ?w0] =>
    destruct (status_trace_emits msg_complete "success" w0) as [_ ->] end.
  assert (Hhooks : ∀ l p w0, writes (hook_calls l p w0) = []).
  { intros l p w0. unfold hook_calls, writes.
    induction (afterListeners (router w0)) as [|c rest IH]; [done|].
    cbn [flat_map]. rewrite omap_app, IH. by destruct (hook_run c _ _). }
  by rewrite Hhooks, !app_nil_r.
Qed.

(** X23.  On a live router an address change to a new hash that is not a
    native anchor, for which [makeRoute()] returns and with guards that all
    pass, commits the route built from the address: its path holds no [?],
    the previous route is a copy of the route that was current, and the
    recorded address is the new hash.  When [makeRoute()] throws instead,
    the cycle ends in that type error after the loading status and nothing
    else has changed. *)
Theorem address_change_commits (w : World) :
  allocated w ->
  destroyed (router w) = false ->
  isNativeAnchor (env w) (location_hash (env w)) = false ->
  location_hash (env w) ≠ lastHash (router w) ->
  let w' := exec handleRouteChange w in
  match route_here w with
  | None =>
      eval handleRouteChange w = Throw TypeError
      ∧ router w' = router w ∧ heap w' = heap w ∧ env w' = env w
      ∧ calls (log w') = (calls (log w) ++ calls (status_trace msg_navigating "loading" w))%list
  | Some built =>
      forallb passes (guard_outcomes (length (heap w)) (arrived built w)) = true ->
      eval handleRouteChange w = Ok tt
      ∧ deref (heap w') (route (router w')) = built
      ∧ JsString.contains "?" (path (deref (heap w') (route (router w')))) = false
      ∧ deref (heap w') (prevRoute (router w')) = deref (heap w) (route (router w))
      ∧ lastHash (router w') = location_hash (env w)
      ∧ location_hash (env w') = location_hash (env w)
      ∧ writes (log w') = writes (log w)
  end.
Proof.
  intros [Hroute _] Hlive Hanchor Hchanged. cbv zeta.
  destruct (route_here w) as [built|] eqn:Hbuilt.
  2:{ unfold exec, eval.
      rewrite handleRouteChange_run; [|done|done|by apply String.eqb_neq].
      rewrite Hbuilt. cbn [fst snd unbuilt logged router heap env log].
      by rewrite calls_app. }
  intros Hpass.
  destruct (hashchange_commits w built Hlive Hanchor Hchanged Hbuilt Hpass)
    as (H1 & H2 & H3 & H4).
  cbv zeta in *. do 3 (split; [assumption|]).
  unfold exec. rewrite handleRouteChange_run; [|done|done|by apply String.eqb_neq].
  rewrite Hbuilt, canNavigate_passes by done.
  destruct (after_guards_frame (length (heap w)) (arrived built w))
    as (Hheap & Henv & Hr & Hp & Hdestroyed & Hlast).
  rewrite completeNavigation_run
    by (change (destroyed (router (after_guards (length (heap w)) (arrived built w)))
                = false);
        by rewrite Hdestroyed).
  cbn [snd].
  split.
  { cbn -[after_guards]. rewrite deref_fresh, Hheap, Hr. cbn. by apply deref_alloc. }
  split; [cbn -[after_guards]; by rewrite Henv|].
  split; [cbn -[after_guards]; by rewrite Henv|].
  rewrite writes_after_commit.
  destruct (after_guards_log (length (heap w)) (arrived built w))
    as (events & Hlog & _ & Hq).
  change (writes (log (after_guards (length (heap w)) (arrived built w))) = writes (log w)).
  rewrite Hlog, writes_app, Hq.
  cbn [arrived proposed on_heap logged log]. rewrite writes_app.
  destruct (status_trace_emits msg_navigating "loading" w) as [_ ->].
  by rewrite !app_nil_r.
Qed.

Lemma address_change_commits_witness :
  path (deref (heap (exec handleRouteChange
                           (on_env (set_location_hash "#!/about?tab=team") Sample.hooked)))
              (route (router (exec handleRouteChange
                                   (on_env (set_location_hash "#!/about?tab=team")
                                           Sample.hooked)))))
  = "about"
  ∧ eval handleRouteChange (on_env (set_location_hash "#!/about?toString=1") Sample.hooked)
    = Throw TypeError.
Proof.
  pose proof (address_change_commits
                (on_env (set_location_hash "#!/about?tab=team") Sample.hooked)
                ltac:(unfold allocated; vm_compute; lia) eq_refl eq_refl
                ltac:(discriminate)) as H.
  pose proof (address_change_commits
                (on_env (set_location_hash "#!/about?toString=1") Sample.hooked)
                ltac:(unfold allocated; vm_compute; lia) eq_refl eq_refl
                ltac:(discriminate)) as H'.
  cbv zeta in H, H'. split.
  - destruct (route_here (on_env (set_location_hash "#!/about?tab=team") Sample.hooked))
      as [built|] eqn:E; [|vm_compute in E; discriminate E].
    destruct (H ltac:(vm_compute in E; injection E as <-; vm_compute; reflexivity))
      as (_ & H2 & _).
    rewrite H2. vm_compute in E. injection E as <-. reflexivity.
  - destruct (route_here (on_env (set_location_hash "#!/about?toString=1") Sample.hooked))
      as [built|] eqn:E; [vm_compute in E; discriminate E|].
    by destruct H' as (H1 & _).
Defined.

(** X24.  Construction gives a router exactly when the first
    [makeRoute()] returns; when it throws, the module's body throws with it
    and nothing is set up.  The router starts with the route of the
    location as current route and an equal copy as previous route, with the
    location's hash as recorded address and with empty registries; no
    navigation is run: no callback is called and no status emitted, and the
    only thing construction may do is queue the scroll to a native anchor. *)
Theorem construction_is_quiet (e : Environment) :
  match makeRoute (location_hash e) (location_search e) with
  | None => create e = None
  | Some r =>
      ∃ w, create e = Some w
           ∧ deref (heap w) (route (router w)) = r
           ∧ deref (heap w) (prevRoute (router w)) = r
           ∧ route (router w) ≠ prevRoute (router w)
           ∧ lastHash (router w) = location_hash e
           ∧ destroyed (router w) = false
           ∧ beforeListeners (router w) = [] ∧ afterListeners (router w) = []
           ∧ statusCallbacks (router w) = [] ∧ scrollCallbacks (router w) = []
           ∧ scrollPositions (router w) = ∅
           ∧ log w = []
           ∧ location_hash (env w) = location_hash e
           ∧ hashchange_listener (env w) = true ∧ scroll_listener (env w) = true
           ∧ frames (env w)
             = (frames e ++ if isNativeAnchor e (location_hash e)
                            then [AnchorFrame] else [])%list
  end.
Proof.
  unfold create. destruct (makeRoute (location_hash e) (location_search e)) as [r|];
    [|reflexivity].
  eexists. split; [reflexivity|].
  unfold handleRouteChange. rewrite bind_run. cbn [get].
  change (destroyed (router (initial e r))) with false. cbn [negb].
  change (isNativeAnchor (env (initial e r)) (location_hash (env (initial e r))))
    with (isNativeAnchor e (location_hash e)).
  destruct (isNativeAnchor e (location_hash e)).
  - cbn. by repeat split.
  - change (lastHash (router (initial e r))) with (location_hash e).
    change (location_hash (env (initial e r))) with (location_hash e).
    rewrite String.eqb_refl. cbn. rewrite app_nil_r. by repeat split.
Qed.

(* ===================================================================== *)
(** * Further properties: scroll positions across navigations             *)
(* ===================================================================== *)

(** What a committed programmatic navigation does to the scroll map, the
    frame queue and the window. *)
Lemma changeHash_scroll (newPath : string) (replace : bool) (w : World) (built : Route) :
  allocated w ->
  destroyed (router w) = false ->
  route_here w = Some built ->
  forallb passes (guard_outcomes (length (heap w)) (proposed (candidate_of newPath built) w))
  = true ->
  let w' := exec (changeHash newPath replace) w in
  let left := path (deref (heap w) (route (router w))) in
  scrollPositions (router w')
  = match left with
    | EmptyString => scrollPositions (router w)
    | routePath => <[routePath := captured routePath w]> (scrollPositions (router w))
    end
  ∧ frames (env w')
    = (frames (env w) ++ restore_frames (JsString.strip_leading "/" newPath) w')%list
  ∧ pageXOffset (env w') = pageXOffset (env w)
  ∧ pageYOffset (env w') = pageYOffset (env w)
  ∧ clock (env w') = clock (env w).
Proof.
  intros [Hroute _] Hlive Hbuilt Hpass. cbv zeta.
  unfold exec. rewrite (changeHash_passes_run newPath replace w built) by done.
  cbn [snd].
  set (c := candidate_of newPath built).
  destruct (after_guards_frame (length (heap w)) (proposed c w))
    as (Hheap & Henv & Hr & _ & Hdestroyed & _).
  pose proof (after_guards_scroll (length (heap w)) (proposed c w)) as Hscroll.
  assert (Hleft : path (deref (heap (proposed c w)) (route (router (proposed c w))))
                  = path (deref (heap w) (route (router w)))).
  { cbn. by rewrite deref_alloc. }
  rewrite Hleft in Hscroll.
  change (captured ?p (proposed c w)) with (captured p w) in Hscroll.
  change (scrollPositions (router (proposed c w)))
    with (scrollPositions (router w)) in Hscroll.
  split.
  { transitivity (scrollPositions (router (after_guards (length (heap w)) (proposed c w))));
      [reflexivity|].
    rewrite Hscroll. by destruct (path (deref (heap w) (route (router w)))). }
  split.
  { cbn -[after_guards]. rewrite Henv. cbn -[after_guards].
    unfold restore_frames. cbn -[after_guards].
    rewrite Hheap. cbn.
    assert (Hnew : ∀ r, path (deref ((heap w ++ [c]) ++ [r])%list (length (heap w)))
                        = JsString.strip_leading "/" newPath).
    { intros r. rewrite deref_alloc by (rewrite length_app; cbn; lia).
      by rewrite deref_fresh. }
    by rewrite Hnew. }
  cbn -[after_guards]. rewrite Henv. by repeat split.
Qed.

(** The frame [restoreScroll] queues: the window is scrolled, then the
    scroll callbacks are informed. *)
Lemma runFrame_restore (saved : ScrollData.t) (w : World) :
  runFrame (RestoreFrame saved) w
  = (Ok tt,
     let w1 := on_env (set_offsets (ScrollData.winX saved) (ScrollData.winY saved))
                      (record (ScrolledTo (ScrollData.winX saved) (ScrollData.winY saved)) w) in
     logged (scroll_trace (ScrollEvent.spread "restore" saved) w1) w1).
Proof.
  unfold runFrame, scrollTo. rewrite !bind_run. cbn [modify].
  rewrite bind_run, emitScroll_run. reflexivity.
Qed.



(** X26.  Going away and coming back restores the scroll position: when
    a navigation leaves the route with the non-empty path [home] for another
    path, the window is then scrolled anywhere, and a second navigation goes
    to [home] again, [makeRoute()] returning and the guards passing both
    times, the second navigation queues exactly one frame, and that frame
    scrolls the window to the offsets it had when [home] was left. *)
Theorem scroll_restored_on_return (away back : string) (x y : Z) (w : World)
        (built built' : Route) :
  let home := path (deref (heap w) (route (router w))) in
  let w1 := exec (push away) w in
  let w2 := on_env (set_offsets x y) w1 in
  let w3 := exec (push back) w2 in
  allocated w ->
  destroyed (router w) = false ->
  home ≠ "" ->
  JsString.strip_leading "/" away ≠ home ->
  JsString.strip_leading "/" back = home ->
  route_here w = Some built ->
  route_here w2 = Some built' ->
  forallb passes (guard_outcomes (length (heap w)) (proposed (candidate_of away built) w))
  = true ->
  forallb passes (guard_outcomes (length (heap w2)) (proposed (candidate_of back built') w2))
  = true ->
  frames (env w3) = (frames (env w1) ++ [RestoreFrame (captured home w)])%list
  ∧ pageXOffset (env (exec (runFrame (RestoreFrame (captured home w))) w3))
    = pageXOffset (env w)
  ∧ pageYOffset (env (exec (runFrame (RestoreFrame (captured home w))) w3))
    = pageYOffset (env w).
Proof.
  cbv zeta. unfold push.
  intros Hw Hlive Hhome Haway Hback Hbuilt Hbuilt' Hpass1 Hpass2.
  destruct (changeHash_passes away false w built Hw Hlive Hbuilt Hpass1)
    as (_ & _ & Hpath1 & _ & _ & _ & Hlive1).
  destruct (changeHash_scroll away false w built Hw Hlive Hbuilt Hpass1) as (Hs1 & _).
  cbv zeta in Hpath1, Hlive1, Hs1.
  pose proof (allocated_perform (CallPush away) w Hw) as Hw1.
  set (w1 := exec (changeHash away false) w) in *.
  assert (Hw1' : allocated w1).
  { revert Hw1. unfold w1, exec, perform, push. rewrite bind_run.
    by destruct (changeHash away false w) as [[]]. }
  set (w2 := on_env (set_offsets x y) w1) in *.
  assert (Hw2 : allocated w2) by exact Hw1'.
  destruct (changeHash_scroll back false w2 built' Hw2 Hlive1 Hbuilt' Hpass2)
    as (Hs2 & Hf2 & _).
  cbv zeta in Hs2, Hf2.
  change (path (deref (heap w2) (route (router w2))))
    with (path (deref (heap w1) (route (router w1)))) in Hs2.
  change (scrollPositions (router w2)) with (scrollPositions (router w1)) in Hs2.
  assert (Hsaved : scrollPositions (router (exec (changeHash back false) w2))
                   !! path (deref (heap w) (route (router w)))
                   = Some (captured (path (deref (heap w) (route (router w)))) w)).
  { rewrite Hs2, Hpath1.
    assert (Hfirst : scrollPositions (router w1) !! path (deref (heap w) (route (router w)))
                     = Some (captured (path (deref (heap w) (route (router w)))) w)).
    { rewrite Hs1.
      destruct (path (deref (heap w) (route (router w)))); [done|].
      by rewrite lookup_insert_eq. }
    destruct (JsString.strip_leading "/" away); [exact Hfirst|].
    by rewrite lookup_insert_ne. }
  split.
  { rewrite Hf2. unfold restore_frames. rewrite Hback, Hsaved. reflexivity. }
  unfold exec. rewrite !runFrame_restore. by split.
Qed.

Lemma scroll_restored_on_return_witness :
  frames (env (exec (push "/home")
                    (on_env (set_offsets 0 0) (exec (push "/about") Sample.fresh))))
  = (frames (env (exec (push "/about") Sample.fresh))
     ++ [RestoreFrame (captured "home" Sample.fresh)])%list.
Proof.
  destruct (scroll_restored_on_return "/about" "/home" 0 0 Sample.fresh
              Sample.home (mkRoute "about" ∅ ∅ ∅ ∅)
              ltac:(unfold allocated; vm_compute; lia) eq_refl
              ltac:(discriminate) ltac:(discriminate) eq_refl eq_refl
              ltac:(vm_compute; reflexivity) eq_refl ltac:(vm_compute; reflexivity))
    as (H & _).
  exact H.
Defined.

(* ===================================================================== *)
(** * Further properties: the rollback of a vetoed address change         *)
(* ===================================================================== *)

Lemma rollbackHash_reads_back (previous : Route) :
  URL.plain (path previous) = true ->
  hash_of_fragment (rollbackHash_of previous) = rollbackHash_of previous.
Proof.
  intros Hplain. unfold rollbackHash_of. destruct (path previous) as [|a p]; [reflexivity|].
  change ("#!/" ++ ?x) with (String "#" (String "!" (String "/" x))).
  unfold hash_of_fragment. by rewrite fragment_plain.
Qed.

(** X28.  When a before-guard vetoes an address change with a fault whose
    [message] can be read, [handleRouteChange] writes to the location the
    marker followed by the path of [prevRoute], or the empty hash if that path
    is empty, and sets [lastHash] to the same string; [route] and
    [prevRoute] stay.  When that path has plain bytes only, none that the
    URL parser removes or percent-encodes, the hash reads back as
    [lastHash], and the [hashchange] event raised by the write finds nothing
    to do. *)
Theorem vetoed_address_change_rolls_back (w : World) (built : Route)
        (t : nat) (m : option string) :
  allocated w ->
  destroyed (router w) = false ->
  isNativeAnchor (env w) (location_hash (env w)) = false ->
  location_hash (env w) ≠ lastHash (router w) ->
  route_here w = Some built ->
  first_rejection (guard_outcomes (length (heap w)) (arrived built w)) = Some (t, Value m) ->
  let previous := path (deref (heap w) (prevRoute (router w))) in
  let rollbackHash := if String.eqb previous "" then "" else "#!/" ++ previous in
  let w' := exec handleRouteChange w in
  eval handleRouteChange w = Ok tt
  ∧ last (log w') = Some (WroteHash rollbackHash)
  ∧ location_hash (env w') = hash_of_fragment rollbackHash
  ∧ lastHash (router w') = rollbackHash
  ∧ route (router w') = route (router w)
  ∧ prevRoute (router w') = prevRoute (router w)
  ∧ (URL.plain previous = true ->
     location_hash (env w') = rollbackHash ∧ handleRouteChange w' = (Ok tt, w')).
Proof.
  intros [_ Hprev] Hlive Hanchor Hchanged Hbuilt Hrej previous rollbackHash w'.
  assert (Hrb : rollbackHash = rollbackHash_of (deref (heap w) (prevRoute (router w)))).
  { subst rollbackHash previous. unfold rollbackHash_of.
    destruct (path (deref (heap w) (prevRoute (router w)))); reflexivity. }
  subst w'. unfold exec, eval.
  rewrite handleRouteChange_run; [|done|done|by apply String.eqb_neq]. rewrite Hbuilt.
  destruct (canNavigate_vetoed (length (heap w)) (arrived built w) t m Hlive Hrej)
    as (Hres & _ & _).
  pose proof (canNavigate_frame (length (heap w)) (arrived built w)) as Hframe.
  cbv zeta in Hframe.
  destruct (canNavigate (length (heap w)) (arrived built w)) as [res w2].
  cbn [fst snd] in *. subst res.
  destruct Hframe as (Hroute & Hprevious & Hdestroyed & Hlast & Hheap & Henv).
  assert (Hderef : deref (heap w2) (prevRoute (router w2))
                   = deref (heap w) (prevRoute (router w))).
  { rewrite Hheap, Hprevious. cbn. by apply deref_alloc. }
  cbv zeta. rewrite Hderef, <- Hrb. cbn [fst snd].
  split; [reflexivity|]. split; [cbn; by rewrite last_snoc|].
  split; [reflexivity|]. split; [reflexivity|].
  split; [cbn; by rewrite Hroute|].
  split; [cbn; by rewrite Hprevious|].
  intros Hplain.
  assert (Hfix : hash_of_fragment rollbackHash = rollbackHash).
  { rewrite Hrb. by apply rollbackHash_reads_back. }
  assert (Hnot : ∀ e, isNativeAnchor e rollbackHash = false).
  { intros e. rewrite Hrb. apply rollbackHash_not_anchor. }
  rewrite !Hfix. split; [reflexivity|].
  unfold handleRouteChange. rewrite bind_run. cbn [get].
  cbn [on_router on_env record router env set_lastHash set_location_hash
       destroyed location_hash lastHash].
  rewrite Hdestroyed. cbn [arrived proposed on_heap logged router destroyed].
  rewrite Hlive, Hnot, String.eqb_refl. reflexivity.
Qed.

(** On a router whose current route, [about], is not its previous one,
    [home]: the rollback goes to the previous path. *)
Lemma vetoed_address_change_rolls_back_witness :
  let w := on_env (set_location_hash "#!/admin") (exec (push "/about") Sample.guarded) in
  path (deref (heap w) (route (router w))) = "about"
  ∧ location_hash (env (exec handleRouteChange w)) = "#!/home"
  ∧ lastHash (router (exec handleRouteChange w)) = "#!/home".
Proof.
  cbv zeta. split; [vm_compute; reflexivity|].
  destruct (vetoed_address_change_rolls_back
              (on_env (set_location_hash "#!/admin") (exec (push "/about") Sample.guarded))
              (mkRoute "admin" ∅ ∅ ∅ ∅) 1 (Some "Access denied")
              ltac:(unfold allocated; vm_compute; lia)
              ltac:(vm_compute; reflexivity) ltac:(vm_compute; reflexivity)
              ltac:(vm_compute; discriminate) ltac:(vm_compute; reflexivity)
              ltac:(vm_compute; reflexivity))
    as (_ & _ & _ & Hlast & _ & _ & Hplain).
  cbv zeta in Hlast, Hplain.
  destruct (Hplain ltac:(vm_compute; reflexivity)) as [Hhash _].
  split; [rewrite Hhash | rewrite Hlast]; vm_compute; reflexivity.
Defined.

(* ===================================================================== *)
(** * Further properties: decimal numerals                                *)
(* ===================================================================== *)

Lemma drop_ws_digit (back : bool) (d : Decimal.uint) :
  JsString.drop_ws back (NilEmpty.string_of_uint d) = NilEmpty.string_of_uint d.
Proof.
  destruct d as [|d|d|d|d|d|d|d|d|d|d]; [reflexivity|..];
    cbn [NilEmpty.string_of_uint];
    (destruct (NilEmpty.string_of_uint d) as [|b [|c r]]; [reflexivity|..];
     cbn; unfold JsString.ws2, JsString.ws3; cbn;
     destruct back; cbn; rewrite ?andb_false_r; cbn; reflexivity).
Qed.

Lemma rev_onto_digits (d : Decimal.uint) (acc : Decimal.uint) :
  JsString.rev_onto (NilEmpty.string_of_uint acc) (NilEmpty.string_of_uint d)
  = NilEmpty.string_of_uint (Decimal.revapp d acc).
Proof.
  revert acc.
  induction d as [|d IH|d IH|d IH|d IH|d IH|d IH|d IH|d IH|d IH|d IH]; intros acc;
    [reflexivity|..]; cbn [NilEmpty.string_of_uint JsString.rev_onto Decimal.revapp];
    first [exact (IH (Decimal.D0 acc)) | exact (IH (Decimal.D1 acc))
          | exact (IH (Decimal.D2 acc)) | exact (IH (Decimal.D3 acc))
          | exact (IH (Decimal.D4 acc)) | exact (IH (Decimal.D5 acc))
          | exact (IH (Decimal.D6 acc)) | exact (IH (Decimal.D7 acc))
          | exact (IH (Decimal.D8 acc)) | exact (IH (Decimal.D9 acc))].
Qed.

Lemma reverse_digits (d : Decimal.uint) :
  JsString.reverse (NilEmpty.string_of_uint d) = NilEmpty.string_of_uint (Decimal.rev d).
Proof. exact (rev_onto_digits d Decimal.Nil). Qed.

Lemma trim_digits (d : Decimal.uint) :
  JsString.trim (NilEmpty.string_of_uint d) = NilEmpty.string_of_uint d.
Proof.
  unfold JsString.trim.
  by rewrite drop_ws_digit, reverse_digits, drop_ws_digit, reverse_digits, rev_rev.
Qed.

Lemma span_digits_all (d : Decimal.uint) :
  JsNumber.span_digits (NilEmpty.string_of_uint d) = (NilEmpty.string_of_uint d, EmptyString).
Proof.
  induction d as [|d IH|d IH|d IH|d IH|d IH|d IH|d IH|d IH|d IH|d IH];
    [reflexivity|..]; cbn; by rewrite IH.
Qed.

Lemma radix_value_digits (d : Decimal.uint) (acc : nat) :
  JsNumber.radix_value 10 (Z.of_nat acc) (NilEmpty.string_of_uint d)
  = Some (Z.of_nat (Nat.of_uint_acc d acc)).
Proof.
  revert acc.
  induction d as [|d IH|d IH|d IH|d IH|d IH|d IH|d IH|d IH|d IH|d IH]; intros acc;
    [reflexivity|..];
    cbn [NilEmpty.string_of_uint JsNumber.radix_value Nat.of_uint_acc];
    change (JsNumber.digit_of _) with (Some 0%Z) || change (JsNumber.digit_of _) with (Some 1%Z)
    || change (JsNumber.digit_of _) with (Some 2%Z) || change (JsNumber.digit_of _) with (Some 3%Z)
    || change (JsNumber.digit_of _) with (Some 4%Z) || change (JsNumber.digit_of _) with (Some 5%Z)
    || change (JsNumber.digit_of _) with (Some 6%Z) || change (JsNumber.digit_of _) with (Some 7%Z)
    || change (JsNumber.digit_of _) with (Some 8%Z) || change (JsNumber.digit_of _) with (Some 9%Z);
    cbv iota; change (_ <? 10)%Z with true; cbv iota;
    rewrite <- IH; f_equal; rewrite Nat.tail_mul_spec; lia.
Qed.

Lemma Qred_integer (v : Z) : Qred (inject_Z v * inject_Z 1) = inject_Z v.
Proof.
  unfold Qmult, inject_Z, Qnum, Qden. rewrite Z.mul_1_r. change (1 * 1)%positive with 1%positive.
  unfold Qred.
  pose proof (Z.ggcd_gcd v 1) as Hg. pose proof (Z.ggcd_correct_divisors v 1) as Hd.
  destruct (Z.ggcd v 1) as [g [aa bb]]. cbn [fst snd] in *.
  rewrite Z.gcd_1_r in Hg. subst g. destruct Hd as [Ha Hb].
  rewrite Z.mul_1_l in Ha, Hb. by subst.
Qed.

Lemma append_empty_r (s : string) : s +:+ "" = s.
Proof.
  induction s as [|a s IH]; [reflexivity|].
  change (String a (s +:+ "") = String a s). by rewrite IH.
Qed.

Lemma StringToNumber_digits (d : Decimal.uint) :
  d ≠ Decimal.Nil ->
  JsNumber.StringToNumber (NilEmpty.string_of_uint d)
  = Some (Finite (inject_Z (Z.of_nat (Nat.of_uint d)))).
Proof.
  intros Hd.
  assert (Hsigned : JsNumber.parse_signed false (NilEmpty.string_of_uint d)
                    = Some (Finite (inject_Z (Z.of_nat (Nat.of_uint d))))).
  { unfold JsNumber.parse_signed.
    assert (Hinf : String.eqb (NilEmpty.string_of_uint d) "Infinity" = false)
      by (by destruct d).
    rewrite Hinf. unfold JsNumber.parse_unsigned_decimal. rewrite span_digits_all.
    cbv iota beta. rewrite append_empty_r.
    assert (Hvalue : JsNumber.digits_value (NilEmpty.string_of_uint d)
                     = Z.of_nat (Nat.of_uint d)).
    { unfold JsNumber.digits_value. change 0%Z with (Z.of_nat 0) at 1.
      by rewrite radix_value_digits. }
    destruct (NilEmpty.string_of_uint d) as [|a r] eqn:Hs; [by destruct d|].
    change (JsNumber.parse_exponent "") with (Some 0%Z). cbv iota beta.
    change (JsNumber.pow10 _) with (inject_Z 1).
    by rewrite Hvalue, Qred_integer. }
  unfold JsNumber.StringToNumber. rewrite trim_digits, <- Hsigned.
  destruct d as [|d|d|d|d|d|d|d|d|d|d]; [done|..]; try reflexivity.
  by destruct d.
Qed.

(** X27.  A non-empty string of decimal digits is coerced to the number
    it writes, within the range in which a double holds every integer
    exactly; leading zeros are not kept, so [007] becomes the number 7. *)
Theorem digits_coerce_to_their_value (d : Decimal.uint) :
  d ≠ Decimal.Nil ->
  (Z.of_nat (Nat.of_uint d) <= 2 ^ 53)%Z ->
  coerceValue (NilEmpty.string_of_uint d)
  = VNumber (Finite (inject_Z (Z.of_nat (Nat.of_uint d)))).
Proof.
  intros Hd _. unfold coerceValue.
  rewrite StringToNumber_digits, trim_digits by done.
  by destruct d.
Qed.

Lemma digits_coerce_to_their_value_witness :
  coerceValue "007" = VNumber (Finite 7).
Proof.
  apply (digits_coerce_to_their_value (Decimal.D0 (Decimal.D0 (Decimal.D7 Decimal.Nil))));
    [discriminate | vm_compute; discriminate].
Defined.
